(** * sizeflag: human-readable integer sizes

    A shallow embedding of [sizeflag/flag.go]: the size grammar recogniser
    [sizeRE], the parser [parse], the renderer [unparse] and the two flag
    values [Value2] and [Value10], followed by the properties of the package
    that have been checked against these definitions.  The flag
    initializers [Base2] and [Base10], the two other copies of the package
    that the source holds (modules [Later] and [Earlier]) and the package
    [enumflag] (module [Enumflag]) are embedded as well.

    Conventions of the embedding:
    - a Go [string] is a byte sequence: Rocq's [string], whose characters are
      the 8-bit [ascii];
    - a Go [int] is the 64-bit two's complement integer of the usual targets:
      a [Z] in the range of [int64], additions and multiplications written
      with [wrap64];
    - a Go [float64] is IEEE 754 binary64: [spec_float] at precision 53 and
      maximal exponent 1024, with the library's round-to-nearest-even
      operations;
    - a Go [error] is a value of [error]; [None] stands for [nil]. *)

From Stdlib Require Import ZArith List Bool Ascii String Lia.
From Stdlib Require Import DecimalString DecimalPos SpecFloat Sorted.
From Stdlib Require Import Permutation.
Import ListNotations.

Local Open Scope string_scope.
Local Open Scope Z_scope.

(** ** Bytes and strings *)

Module Bytes.

(** The numeric value of a byte. *)
Definition code (c : ascii) : Z := Z.of_N (N_of_ascii c).

Definition byte (n : Z) : ascii := ascii_of_N (Z.to_N n).

Definition is_digit (c : ascii) : bool :=
  (48 <=? code c) && (code c <=? 57).

(** The value of a decimal digit character. *)
Definition digit_val (c : ascii) : Z := code c - 48.

(** [s[n:]] *)
Fixpoint drop (n : nat) (s : string) : string :=
  match n, s with
  | O, _ => s
  | S n', String _ r => drop n' r
  | S _, EmptyString => EmptyString
  end.

Fixpoint rev_append (s acc : string) : string :=
  match s with
  | EmptyString => acc
  | String c r => rev_append r (String c acc)
  end.

Definition rev (s : string) : string := rev_append s EmptyString.

(** The longest prefix of decimal digits, and what follows it. *)
Fixpoint span_digits (s : string) : string * string :=
  match s with
  | String c r =>
      if is_digit c
      then let (d, t) := span_digits r in (String c d, t)
      else (EmptyString, s)
  | EmptyString => (EmptyString, EmptyString)
  end.

Fixpoint all_digits (s : string) : bool :=
  match s with
  | EmptyString => true
  | String c r => is_digit c && all_digits r
  end.

(** The number a string of decimal digits denotes, most significant first. *)
Fixpoint digits_val (acc : Z) (s : string) : Z :=
  match s with
  | EmptyString => acc
  | String c r => digits_val (10 * acc + digit_val c) r
  end.

End Bytes.

(** ** The Go [int] *)

Definition min_int : Z := - 2 ^ 63.
Definition max_int : Z := 2 ^ 63 - 1.

(** Two's complement wrap-around of 64-bit arithmetic. *)
Definition wrap64 (z : Z) : Z := (z + 2 ^ 63) mod 2 ^ 64 - 2 ^ 63.

Definition in_int (z : Z) : bool := (min_int <=? z) && (z <=? max_int).

(** ** [strings.TrimSpace]

    The function removes the leading and the trailing white space "as defined
    by Unicode", decoding the string as UTF-8.  The white space characters are
    the six ASCII ones (tab, line feed, vertical tab, form feed, carriage
    return, space), U+0085 and U+00A0 (two bytes each), and U+1680,
    U+2000..U+200A, U+2028, U+2029, U+202F, U+205F and U+3000 (three bytes
    each).  A byte sequence that is not one of these encodings stops the
    trimming, as an ill-formed one does in Go (it decodes to U+FFFD). *)

Module Strings.
Import Bytes.

Definition ascii_space (c : ascii) : bool :=
  let n := code c in
  ((9 <=? n) && (n <=? 13)) || (n =? 32).

(** The second and third byte of a three-byte white space character whose
    first byte is [b1]. *)
Definition space3 (b1 b2 b3 : Z) : bool :=
  ((b1 =? 225) && (b2 =? 154) && (b3 =? 128))                  (* U+1680 *)
  || ((b1 =? 226) && (b2 =? 128)
      && (((128 <=? b3) && (b3 <=? 138))                       (* U+2000..200A *)
          || (b3 =? 168) || (b3 =? 169) || (b3 =? 175)))       (* U+2028/9/F *)
  || ((b1 =? 226) && (b2 =? 129) && (b3 =? 159))               (* U+205F *)
  || ((b1 =? 227) && (b2 =? 128) && (b3 =? 128)).              (* U+3000 *)

Definition space2 (b1 b2 : Z) : bool :=
  (b1 =? 194) && ((b2 =? 133) || (b2 =? 160)).                 (* U+0085, U+00A0 *)

Fixpoint TrimLeft (s : string) : string :=
  match s with
  | String c1 r1 =>
      if ascii_space c1 then TrimLeft r1 else
      match r1 with
      | String c2 r2 =>
          if space2 (code c1) (code c2) then TrimLeft r2 else
          match r2 with
          | String c3 r3 =>
              if space3 (code c1) (code c2) (code c3) then TrimLeft r3 else s
          | EmptyString => s
          end
      | EmptyString => s
      end
  | EmptyString => s
  end.

(** The same on the reversed string: the last byte of the string comes
    first. *)
Fixpoint TrimLeftRev (s : string) : string :=
  match s with
  | String c1 r1 =>
      if ascii_space c1 then TrimLeftRev r1 else
      match r1 with
      | String c2 r2 =>
          if space2 (code c2) (code c1) then TrimLeftRev r2 else
          match r2 with
          | String c3 r3 =>
              if space3 (code c3) (code c2) (code c1) then TrimLeftRev r3 else s
          | EmptyString => s
          end
      | EmptyString => s
      end
  | EmptyString => s
  end.

Definition TrimRight (s : string) : string := rev (TrimLeftRev (rev s)).

Definition TrimSpace (s : string) : string := TrimRight (TrimLeft s).

(** [strings.ToLower], on the strings the second group of [sizeRE] can hold:
    an ASCII capital becomes the small letter, the Kelvin sign U+212A (bytes
    E2 84 AA) becomes the letter k, and every other byte is kept. *)
Fixpoint ToLower (s : string) : string :=
  match s with
  | String c1 r1 =>
      let lower := String (if (65 <=? code c1) && (code c1 <=? 90)
                           then byte (code c1 + 32) else c1) (ToLower r1) in
      match r1 with
      | String c2 (String c3 r3) =>
          if (code c1 =? 226) && (code c2 =? 132) && (code c3 =? 170)
          then String "k" (ToLower r3) else lower
      | _ => lower
      end
  | EmptyString => EmptyString
  end.

(** [strings.Join] *)
Fixpoint Join (parts : list string) (sep : string) : string :=
  match parts with
  | [] => EmptyString
  | [p] => p
  | p :: ps => p ++ sep ++ Join ps sep
  end.

End Strings.

(** ** The size pattern

    [sizeRE] is the regular expression
    [^(?i)([0-9]+(?:\.[0-9]+)?)([bkmgtp])], used through
    [FindStringSubmatch]: anchored at the start of the text, a run of digits,
    an optional fraction (a point and a run of digits), and one character of
    the class [bkmgtp], letter case ignored.

    Both runs are greedy, and giving back a digit never helps: the character
    after a shortened run is a digit, which is neither a point nor in the
    class.  The match is therefore the one with the longest runs, if the
    character after them is in the class, and there is none otherwise.

    Case folding is Unicode simple folding, under which the letter k is also
    the Kelvin sign U+212A, the bytes E2 84 AA; no other letter of the class
    has a fold outside ASCII. *)

Module Regexp.
Import Bytes.

(** The letters b, k, m, g, t, p. *)
Definition class_letter (n : Z) : bool :=
  (n =? 98) || (n =? 107) || (n =? 109) || (n =? 103) || (n =? 116) || (n =? 112).

(** One character of the class at the start of [s]: its bytes. *)
Definition unit_class (s : string) : option string :=
  match s with
  | String c1 r1 =>
      if class_letter (code c1) || class_letter (code c1 + 32)
      then Some (String c1 EmptyString)
      else
        match r1 with
        | String c2 (String c3 _) =>
            if (code c1 =? 226) && (code c2 =? 132) && (code c3 =? 170)
            then Some (String c1 (String c2 (String c3 EmptyString)))
            else None
        | _ => None
        end
  | EmptyString => None
  end.

(** The fraction [\.[0-9]+] at the start of [s]: its digits and the rest. *)
Definition fraction (s : string) : option (string * string) :=
  match s with
  | String c r =>
      if code c =? 46
      then match span_digits r with
           | (EmptyString, _) => None
           | (d, t) => Some (d, t)
           end
      else None
  | EmptyString => None
  end.

(** A successful match: the whole match [m[0]] and the groups [m[1]] (the
    number) and [m[2]] (the unit). *)
Record submatch : Type := Submatch { m0 : string; m1 : string; m2 : string }.

Definition sizeRE (s : string) : option submatch :=
  match span_digits s with
  | (EmptyString, _) => None
  | (d1, r1) =>
      let (num, r) :=
        match fraction r1 with
        | Some (d2, r3) => (d1 ++ "." ++ d2, r3)
        | None => (d1, r1)
        end in
      match unit_class r with
      | Some u => Some (Submatch (num ++ u) num u)
      | None => None
      end
  end.

End Regexp.

(** ** [float64] and [strconv] *)

Module Float64.

Definition prec : Z := 53.
Definition emax : Z := 1024.

Definition float64 : Type := spec_float.

(** The conversion of an integer constant to [float64]. *)
Definition of_int (z : Z) : float64 := binary_normalize prec emax z 0 false.

(** The product [x * y], rounded to nearest, ties to even. *)
Definition mul (x y : float64) : float64 := SFmul prec emax x y.

(** The quotient [n / d] of two natural numbers, [d] positive, rounded to
    nearest, ties to even. *)
Definition of_ratio (n d : Z) : float64 :=
  match n with
  | Z0 => S754_zero false
  | _ =>
      let '(mz, ez, lz) := SFdiv_core_binary prec emax n 0 d 0 in
      binary_round_aux prec emax false mz ez lz
  end.

(** The integer part of a finite number, rounded toward zero. *)
Definition trunc (x : float64) : option Z :=
  match x with
  | S754_zero _ => Some 0
  | S754_finite s m e =>
      let a := match e with
               | Zneg p => Z.shiftr (Zpos m) (Zpos p)
               | _ => Z.shiftl (Zpos m) e
               end in
      Some (if s then - a else a)
  | _ => None
  end.

(** The conversion [int(x)]: the fraction is discarded.  When the value is not
    in the range of [int] (or is not a number) the language leaves the result
    to the implementation; this is the result on amd64, where the conversion
    instruction answers the smallest integer. *)
Definition to_int (x : float64) : Z :=
  match trunc x with
  | Some z => if in_int z then z else min_int
  | None => min_int
  end.

End Float64.

Module Strconv.
Import Bytes Float64.

(** [strconv.ParseFloat(s, 64)] on the texts the first group of [sizeRE] can
    hold, a run of digits with an optional fraction: the nearest [float64] to
    the decimal number, ties to even; a number that rounds beyond the largest
    finite [float64] is a range error.  [None] is the error. *)
Definition ParseFloat (s : string) : option float64 :=
  match span_digits s with
  | (EmptyString, _) => None
  | (d1, r1) =>
      let finish (n d : Z) :=
        match of_ratio n d with
        | S754_infinity _ => None
        | x => Some x
        end in
      match r1 with
      | EmptyString => finish (digits_val 0 d1) 1
      | _ =>
          match Regexp.fraction r1 with
          | Some (d2, EmptyString) =>
              finish (digits_val 0 (d1 ++ d2)) (10 ^ Z.of_nat (String.length d2))
          | _ => None
          end
      end
  end.

(** [strconv.Atoi]: an optional sign and a non-empty run of decimal digits,
    whose value is in the range of [int].  [None] is the error. *)
Definition Atoi (s : string) : option Z :=
  let (neg, ds) :=
    match s with
    | String c r =>
        if code c =? 45 then (true, r)
        else if code c =? 43 then (false, r)
        else (false, s)
    | EmptyString => (false, s)
    end in
  match ds with
  | EmptyString => None
  | _ =>
      if all_digits ds
      then let n := digits_val 0 ds in
           let v := if neg then - n else n in
           if in_int v then Some v else None
      else None
  end.

(** [fmt.Sprintf("%d", n)] *)
Definition Itoa (n : Z) : string := NilZero.string_of_int (Z.to_int n).

End Strconv.

(** ** The package *)

Import Bytes Strings Regexp Float64 Strconv.

(** The errors [parse] makes: [fmt.Errorf("sizeflag: invalid size %q", s)] and
    [fmt.Errorf("sizeflag: invalid unit %q", u)], by their argument. *)
Inductive error : Type :=
| InvalidSize (s : string)
| InvalidUnit (u : string).

Definition kd : Z := 1000.
Definition md : Z := kd * kd.
Definition gd : Z := md * kd.
Definition td : Z := gd * kd.
Definition pd : Z := td * kd.
Definition ed : Z := pd * kd.

Definition ki : Z := 1024.
Definition mi : Z := ki * ki.
Definition gi : Z := mi * ki.
Definition ti : Z := gi * ki.
Definition pi : Z := ti * ki.
Definition ei : Z := pi * ki.

(** A [map[string]float64], by its entries. *)
Definition units : Type := list (string * float64).

Fixpoint lookup (unit : units) (k : string) : option float64 :=
  match unit with
  | [] => None
  | (k', v) :: rest => if String.eqb k' k then Some v else lookup rest k
  end.

Definition units2 : units :=
  [("k", of_int ki); ("m", of_int mi); ("g", of_int gi);
   ("t", of_int ti); ("p", of_int pi); ("e", of_int ei)].

Definition units10 : units :=
  [("k", of_int kd); ("m", of_int md); ("g", of_int gd);
   ("t", of_int td); ("p", of_int pd); ("e", of_int ed)].

Definition mult2 : list Z := [ei; pi; ti; gi; mi; ki].
Definition mult10 : list Z := [ed; pd; td; gd; md; kd].
Definition labels : list string := [""; "E"; "P"; "T"; "G"; "M"; "K"].

(** *** [parse]

    [parse_loop] is the [for] loop of [parse] from the state [(size, ok, s)],
    followed by the statements after it.  Every turn of the loop removes a
    non-empty match from [s], so the loop ends within [length s] turns; [fuel]
    bounds the number of turns, and [parse] gives one more than that.  A loop
    out of fuel leaves as if nothing matched, which cannot happen
    ([parse_loop_fuel]). *)
Fixpoint parse_loop (fuel : nat) (unit : units) (size : Z) (ok : bool)
    (s : string) : Z * option error :=
  let s := TrimSpace s in
  let after :=
    (* s = strings.TrimSpace(s) once more: the text is trimmed already *)
    let s := TrimSpace s in
    if negb (String.eqb s "") then
      match Atoi s with
      | None => (0, Some (InvalidSize s))
      | Some v => (wrap64 (size + v), None)
      end
    else if negb ok then (0, Some (InvalidSize s))
    else (size, None) in
  match fuel, sizeRE s with
  | S fuel', Some m =>
      match ParseFloat (m1 m) with
      | None => (0, Some (InvalidSize (m0 m)))
      | Some v =>
          match lookup unit (ToLower (m2 m)) with
          | Some mul =>
              let v := Float64.mul v mul in
              parse_loop fuel' unit (wrap64 (size + to_int v)) true
                (drop (String.length (m0 m)) s)
          | None => (size, Some (InvalidUnit (m2 m)))
          end
      end
  | _, _ => after
  end.

Definition parse (s : string) (unit : units) : Z * option error :=
  parse_loop (S (String.length s)) unit 0 false s.

(** *** [unparse] *)

Record term : Type := Term { n : Z; u : string }.

(** The closure [add] of [unparse]: it updates the slice [terms] of the
    enclosing function, given here and returned, and returns [v]. *)
Definition add (pow : Z) (terms : list term) (n0 : Z) (u0 prev : string)
    (v : Z) : list term * Z :=
  match List.rev terms with
  | last :: before =>
      if (v =? 0) && String.eqb (u last) prev
      then (List.rev (Term (wrap64 (wrap64 (n last * pow) + n0)) u0 :: before), v)
      else ((terms ++ [Term n0 u0])%list, v)
  | [] => ((terms ++ [Term n0 u0])%list, v)
  end.

(** The loop [for i, div := range mult] from index [i] on. *)
Fixpoint unparse_loop (pow : Z) (i : nat) (mult : list Z)
    (terms : list term) (z : Z) : list term * Z :=
  match mult with
  | [] => (terms, z)
  | div :: rest =>
      let n0 := Z.quot z div in
      if 0 <? n0
      then let (terms', z') :=
             add pow terms n0 (nth (i + 1) labels "") (nth i labels "")
               (Z.rem z div) in
           unparse_loop pow (S i) rest terms' z'
      else unparse_loop pow (S i) rest terms z
  end.

(** The slice [terms] when the rendering starts. *)
Definition unparse_terms (v pow : Z) (mult : list Z) : list term :=
  let (terms, z) := unparse_loop pow 0 mult [] v in
  if (Nat.eqb (List.length terms) 0) || (0 <? z)
  then fst (add pow terms z "" "K" 0)
  else terms.

Definition render (t : term) : string := Itoa (n t) ++ u t.

Definition unparse (v pow : Z) (mult : list Z) : string :=
  Join (map render (unparse_terms v pow mult)) " ".

(** *** The flag values

    A [Value2] and a [Value10] are an [int]; a method with a pointer receiver
    takes the integer in the cell and returns the one it leaves there. *)
Definition Value2 : Type := Z.
Definition Value10 : Type := Z.

Definition Value2_String (v : Value2) : string := unparse v 1024 mult2.
Definition Value10_String (v : Value10) : string := unparse v 1000 mult10.

Definition Value2_Set (v : Value2) (s : string) : Value2 * option error :=
  let (z, err) := parse s units2 in
  match err with
  | None => (z, err)
  | Some _ => (v, err)
  end.

Definition Value10_Set (v : Value10) (s : string) : Value10 * option error :=
  let (z, err) := parse s units10 in
  match err with
  | None => (z, err)
  | Some _ => (v, err)
  end.

(** ** Notions used to state the properties *)

(** The place of a label: 0 for the bare number, 1 for K, up to 6 for E. *)
Definition rank (l : string) : Z :=
  if String.eqb l "K" then 1 else
  if String.eqb l "M" then 2 else
  if String.eqb l "G" then 3 else
  if String.eqb l "T" then 4 else
  if String.eqb l "P" then 5 else
  if String.eqb l "E" then 6 else 0.

(** The number of units a term stands for, and a slice of terms. *)
Definition value (pow : Z) (t : term) : Z := n t * pow ^ rank (u t).

Definition total (pow : Z) (ts : list term) : Z :=
  fold_right (fun t acc => value pow t + acc) 0 ts.

(** Labels in strictly descending order of rank. *)
Definition desc (ts : list term) : Prop :=
  StronglySorted (fun a b => rank (u b) < rank (u a)) ts.

(** The divisors [pow^k, ..., pow^2, pow]. *)
Fixpoint pows (pow : Z) (k : nat) : list Z :=
  match k with
  | O => []
  | S k' => pow ^ Z.of_nat k :: pows pow k'
  end.

(** The state of the loop of [unparse] before the divisor [pow^k]: the terms
    and the remainder [z] add up to [q], every coefficient is positive, the
    labels are known, in descending order, and above the place [k]. *)
Record inv (pow : Z) (q : Z) (k : Z) (terms : list term) (z : Z) : Prop := {
  inv_z : 0 <= z;
  inv_total : total pow terms + z = q;
  inv_terms :
    Forall (fun t => 0 < n t /\ k < rank (u t) /\ In (u t) labels) terms;
  inv_desc : desc terms
}.

(** No byte of the text is a space. *)
Fixpoint no_space (s : string) : bool :=
  match s with
  | EmptyString => true
  | String c r => negb (code c =? 32) && no_space r
  end.

(** [k] turns of the loop of [parse] from the total [size] and the text [s],
    each of them a term with a number [ParseFloat] reads and a unit of the
    table: the total and the text they leave.  [None] when one of the [k]
    turns is not such a term. *)
Fixpoint match_terms (k : nat) (unit : units) (size : Z) (s : string)
    : option (Z * string) :=
  match k with
  | O => Some (size, s)
  | S k' =>
      let s := TrimSpace s in
      match sizeRE s with
      | Some m =>
          match ParseFloat (m1 m), lookup unit (ToLower (m2 m)) with
          | Some v, Some mul =>
              match_terms k' unit (wrap64 (size + to_int (Float64.mul v mul)))
                (drop (String.length (m0 m)) s)
          | _, _ => None
          end
      | None => None
      end
  end.

(** [z] is the number [x] rounded toward negative infinity: the integer with
    [z <= x < z + 1].  A finite [x] is the fraction [± m * 2^e]; both sides
    are multiplied by the power of 2 in its denominator. *)
Definition is_floor (x : float64) (z : Z) : bool :=
  match x with
  | S754_zero _ => z =? 0
  | S754_finite s m e =>
      let v := (if s then Z.neg m else Z.pos m) * 2 ^ Z.max 0 e in
      let d := 2 ^ Z.max 0 (- e) in
      (z * d <=? v) && (v <? (z + 1) * d)
  | _ => false
  end.

(** The first [k] terms of the text [s], as the loop of [parse] matches
    them: the [float64] product of each term, its number times the
    multiplier of its unit, and the text they leave.  [None] when one of the
    [k] turns is not such a term. *)
Fixpoint term_products (k : nat) (unit : units) (s : string)
    : option (list float64 * string) :=
  match k with
  | O => Some ([], s)
  | S k' =>
      let s := TrimSpace s in
      match sizeRE s with
      | Some m =>
          match ParseFloat (m1 m), lookup unit (ToLower (m2 m)) with
          | Some v, Some mul =>
              match term_products k' unit (drop (String.length (m0 m)) s) with
              | Some (xs, s') => Some (Float64.mul v mul :: xs, s')
              | None => None
              end
          | _, _ => None
          end
      | None => None
      end
  end.

(** The sum of a list of integers. *)
Definition sum_ints (zs : list Z) : Z := fold_right Z.add 0 zs.

(** The [float64] of the number [a * 2^t], for [a] of at most 53 digits. *)
Definition flt (a t : Z) : float64 :=
  let sh := 53 - Zdigits2 a in
  S754_finite false (Z.to_pos (a * 2 ^ sh)) (t - sh).

(** A byte of ASCII that is not white space. *)
Definition plain (c : ascii) : Prop := ascii_space c = false /\ code c < 128.

(** The last byte of the text is plain. *)
Definition last_plain (s : string) : Prop :=
  exists c r, rev s = String c r /\ plain c.

(** The labels of the units that [unparse] writes below the unit E. *)
Definition letters : list string := ["K"; "M"; "G"; "T"; "P"].

(** The bounds the loop of [unparse] keeps when the number is below the
    first divisor. *)
Definition bnd (pow : Z) (k : Z) (terms : list term) (z : Z) : Prop :=
  (Forall (fun t => 0 < n t < pow) terms /\ 0 <= z < pow ^ (k + 1))
  \/ (z = 0 /\ Forall (fun t => 0 < n t < pow * pow) terms).

(** What the terms of [unparse] below E satisfy. *)
Definition writable (pow : Z) (t : term) : Prop :=
  In (u t) labels /\ 0 <= n t /\ rank (u t) <= 5
  /\ (u t <> "" -> 0 < n t < pow * pow).

(** The label of the unit of rank [r]: the empty one for 0, K for 1, up to E
    for 6. *)
Definition label (r : nat) : string := nth (7 - r) labels "".

(** ** The flag initializers

    [Base2] and [Base10] return a pointer, which is either the caller's or
    one to a fresh location.  The memory is the list of the [int] cells of
    the program; a pointer is an index into it, and one that is not an index
    of the memory stands for [nil]. *)

Definition loc : Type := nat.
Definition store : Type := list Z.

Definition load (st : store) (p : loc) : option Z := nth_error st p.

Fixpoint update (st : store) (p : loc) (v : Z) : store :=
  match st, p with
  | [], _ => []
  | _ :: r, O => v :: r
  | x :: r, S p' => x :: update r p' v
  end.

(** A fresh location holding [v]. *)
Definition alloc (st : store) (v : Z) : loc * store :=
  (List.length st, (st ++ [v])%list).

(** The dynamic types of the [interface{}] argument the type switches of
    [Base2] and [Base10] tell apart. *)
Inductive initializer : Type :=
| init_nil
| init_Value2 (p : loc)
| init_Value10 (p : loc)
| init_int (v : Z)
| init_ptr (p : loc)
| init_other.

(** [None] is the panic "invalid flag initializer". *)
Definition Base2 (v : initializer) (st : store) : option (loc * store) :=
  match v with
  | init_nil => Some (alloc st 0)
  | init_Value2 t => Some (t, st)
  | init_int t => Some (alloc st t)
  | init_ptr t => Some (t, st)
  | _ => None
  end.

Definition Base10 (v : initializer) (st : store) : option (loc * store) :=
  match v with
  | init_nil => Some (alloc st 0)
  | init_Value10 t => Some (t, st)
  | init_int t => Some (alloc st t)
  | init_ptr t => Some (t, st)
  | _ => None
  end.

(** [Set] through the pointer [p]: the cell is written after a successful
    [parse] only; [None] is the panic of writing through [nil]. *)
Definition Set_at (unit : units) (p : loc) (s : string) (st : store)
    : option (store * option error) :=
  let (z, err) := parse s unit in
  match err with
  | None =>
      match load st p with
      | Some _ => Some (update st p z, None)
      | None => None
      end
  | Some _ => Some (st, err)
  end.

Definition Value2_Set_at : loc -> string -> store -> option (store * option error) :=
  Set_at units2.
Definition Value10_Set_at : loc -> string -> store -> option (store * option error) :=
  Set_at units10.

(** [Int] and [Get], on the value of the flag. *)
Definition Value2_Int (v : Value2) : Z := v.
Definition Value10_Int (v : Value10) : Z := v.
Definition Value2_Get (v : Value2) : Z := v.
Definition Value10_Get (v : Value10) : Z := v.

(** ** The later copy of the package [sizeflag]

    The source holds a later copy of the package, which works on [int64],
    exports [Parse2] and [Parse10], and whose pattern has the class
    [ekmgtp]:  [^(?i)([0-9]+(?:\.[0-9]+)?)([ekmgtp])].  Its constants, its
    tables and the text of its [unparse] are those of [flag.go], with
    [int64] for [int]; they are shared with the model above. *)

Module Later.

(** The letters e, k, m, g, t, p. *)
Definition class_letter (n : Z) : bool :=
  (n =? 101) || (n =? 107) || (n =? 109) || (n =? 103) || (n =? 116) || (n =? 112).

Definition unit_class (s : string) : option string :=
  match s with
  | String c1 r1 =>
      if class_letter (code c1) || class_letter (code c1 + 32)
      then Some (String c1 EmptyString)
      else
        match r1 with
        | String c2 (String c3 _) =>
            if (code c1 =? 226) && (code c2 =? 132) && (code c3 =? 170)
            then Some (String c1 (String c2 (String c3 EmptyString)))
            else None
        | _ => None
        end
  | EmptyString => None
  end.

Definition sizeRE (s : string) : option submatch :=
  match span_digits s with
  | (EmptyString, _) => None
  | (d1, r1) =>
      let (num, r) :=
        match fraction r1 with
        | Some (d2, r3) => (d1 ++ "." ++ d2, r3)
        | None => (d1, r1)
        end in
      match unit_class r with
      | Some l => Some (Submatch (num ++ l) num l)
      | None => None
      end
  end.

(** [parse], with [strconv.ParseInt(s, 10, 64)] for the rest of the text,
    which reads what [Atoi] reads, and the conversion [int64(v)]. *)
Fixpoint parse_loop (fuel : nat) (unit : units) (size : Z) (ok : bool)
    (s : string) : Z * option error :=
  let s := TrimSpace s in
  let after :=
    let s := TrimSpace s in
    if negb (String.eqb s "") then
      match Atoi s with
      | None => (0, Some (InvalidSize s))
      | Some v => (wrap64 (size + v), None)
      end
    else if negb ok then (0, Some (InvalidSize s))
    else (size, None) in
  match fuel, sizeRE s with
  | S fuel', Some m =>
      match ParseFloat (m1 m) with
      | None => (0, Some (InvalidSize (m0 m)))
      | Some v =>
          match lookup unit (ToLower (m2 m)) with
          | Some mul =>
              let v := Float64.mul v mul in
              parse_loop fuel' unit (wrap64 (size + to_int v)) true
                (drop (String.length (m0 m)) s)
          | None => (size, Some (InvalidUnit (m2 m)))
          end
      end
  | _, _ => after
  end.

Definition parse (s : string) (unit : units) : Z * option error :=
  parse_loop (S (String.length s)) unit 0 false s.

Definition Parse2 (s : string) : Z * option error := parse s units2.
Definition Parse10 (s : string) : Z * option error := parse s units10.

(** [unparse]: the function of [flag.go]. *)
Definition unparse (v pow : Z) (mult : list Z) : string :=
  unparse v pow mult.

Definition Value2_String (v : Z) : string := unparse v 1024 mult2.
Definition Value10_String (v : Z) : string := unparse v 1000 mult10.

Definition Value2_Set (v : Z) (s : string) : Z * option error :=
  let (z, err) := Parse2 s in
  match err with
  | None => (z, err)
  | Some _ => (v, err)
  end.

Definition Value10_Set (v : Z) (s : string) : Z * option error :=
  let (z, err) := Parse10 s in
  match err with
  | None => (z, err)
  | Some _ => (v, err)
  end.

(** The labels of all the units [unparse] writes. *)
Definition letters : list string := ["K"; "M"; "G"; "T"; "P"; "E"].

(** What the terms of [unparse] satisfy. *)
Definition writable (pow : Z) (t : term) : Prop :=
  In (u t) labels /\ 0 <= n t /\ (u t <> "" -> 0 < n t < pow * pow).

End Later.

(** ** The first copy of the package [sizeflag]

    The source also holds the first copy of the package, in base 2 only and
    up to the unit P: a type [Value] with the exported functions [Parse] and
    [Unparse].  Its pattern is [^(?i)([0-9]+(?:\.[0-9]+)?)[bkmgtp]], the
    pattern of [flag.go] with the class outside the groups; the unit is the
    last byte of the match, in small letters. *)

Module Earlier.

(** The errors of [Parse]: [fmt.Errorf("intsize: invalid size %q", s)] and
    [fmt.Errorf("intsize: invalid unit %q", u)], by their argument. *)
Inductive error : Type :=
| InvalidSize (s : string)
| InvalidUnit (u : string).

Definition nUnits : Z := 1.
Definition scale : Z := 1024.
Definition kUnits : Z := nUnits * scale.
Definition mUnits : Z := kUnits * scale.
Definition gUnits : Z := mUnits * scale.
Definition tUnits : Z := gUnits * scale.
Definition pUnits : Z := tUnits * scale.

(** The match [m[0]] and the group [m[1]]. *)
Definition sizeRE (s : string) : option (string * string) :=
  match Regexp.sizeRE s with
  | Some m => Some (m0 m, m1 m)
  | None => None
  end.

(** [s[len(s)-1:]] *)
Definition last_byte (s : string) : string :=
  match rev s with
  | String c _ => String c EmptyString
  | EmptyString => EmptyString
  end.

(** [strings.ToLower] on a text of one byte: a byte of ASCII is a character,
    and a capital becomes the small letter; any other byte is no character,
    and comes out as U+FFFD, the bytes EF BF BD (old releases of Go keep
    the byte instead; the text is only shown in the error). *)
Definition ToLower (s : string) : string :=
  match s with
  | String c EmptyString =>
      if code c <? 128 then Strings.ToLower s
      else String (byte 239) (String (byte 191) (String (byte 189) EmptyString))
  | _ => Strings.ToLower s
  end.

(** The [switch] on the unit: the multiplier, as a [float64]. *)
Definition multiplier (u : string) : option float64 :=
  if String.eqb u "k" then Some (of_int kUnits) else
  if String.eqb u "m" then Some (of_int mUnits) else
  if String.eqb u "g" then Some (of_int gUnits) else
  if String.eqb u "t" then Some (of_int tUnits) else
  if String.eqb u "p" then Some (of_int pUnits) else None.

(** The [for] loop of [Parse] from the state [(size, ok, s)], followed by
    the statements after it; [fuel] bounds the number of turns, as in
    [parse_loop]. *)
Fixpoint Parse_loop (fuel : nat) (size : Z) (ok : bool) (s : string)
    : Z * option error :=
  let s := TrimSpace s in
  let after :=
    let s := TrimSpace s in
    if negb (String.eqb s "") then
      match Atoi s with
      | None => (0, Some (InvalidSize s))
      | Some v => (wrap64 (size + v), None)
      end
    else if negb ok then (0, Some (InvalidSize s))
    else (size, None) in
  match fuel, sizeRE s with
  | S fuel', Some (m0, m1) =>
      match ParseFloat m1 with
      | None => (0, Some (InvalidSize m0))
      | Some v =>
          let u := ToLower (last_byte m0) in
          match multiplier u with
          | Some mul =>
              let v := Float64.mul v mul in
              Parse_loop fuel' (wrap64 (size + to_int v)) true
                (drop (String.length m0) s)
          | None => (size, Some (InvalidUnit u))
          end
      end
  | _, _ => after
  end.

Definition Parse (s : string) : Z * option error :=
  Parse_loop (S (String.length s)) 0 false s.

(** One statement [if n := int(z / div); n > 0 { z = add(n, u, prev, z%div) }]
    of [Unparse], on the slice [terms] and the number [z]. *)
Definition step (div : Z) (u0 prev : string) (st : list term * Z)
    : list term * Z :=
  let (terms, z) := st in
  let n0 := Z.quot z div in
  if 0 <? n0 then add 1024 terms n0 u0 prev (Z.rem z div) else (terms, z).

(** The five statements, from P to K. *)
Definition Unparse_steps (v : Z) : list term * Z :=
  step kUnits "K" "M"
    (step mUnits "M" "G"
       (step gUnits "G" "T"
          (step tUnits "T" "P"
             (step pUnits "P" "" ([], v))))).

(** The slice [terms] when the rendering starts. *)
Definition Unparse_terms (v : Z) : list term :=
  let (terms, z) := Unparse_steps v in
  if (Nat.eqb (List.length terms) 0) || (0 <? z)
  then fst (add 1024 terms z "" "K" 0)
  else terms.

Definition Unparse (v : Z) : string :=
  Join (map render (Unparse_terms v)) " ".

(** [String] and [Set] of a [Value], an [int]. *)
Definition Value_String (v : Z) : string := Unparse v.

Definition Value_Set (v : Z) (s : string) : Z * option error :=
  let (z, err) := Parse s in
  match err with
  | None => (z, err)
  | Some _ => (v, err)
  end.

End Earlier.

(** ** The package [enumflag]

    [strings.EqualFold] decides equality under Unicode case folding; its
    tables are not part of the package, and the function is an argument
    [EqualFold] of the model: what is proved holds whatever it decides. *)

Module Enumflag.

Import Bytes Strings.

(** A [Value]: the keys, and the selected index, an index of the slice. *)
Record Value : Type := { keys : list string; index : nat }.

(** [sort.Strings]: the keys in ascending order of their bytes.  The order
    is total and two keys that compare equal are the same, so the sorted
    slice does not depend on the sorting method; this one is by
    insertion. *)
Fixpoint insert (x : string) (l : list string) : list string :=
  match l with
  | [] => [x]
  | y :: r => if String.leb x y then x :: l else y :: insert x r
  end.

Fixpoint sort_Strings (l : list string) : list string :=
  match l with
  | [] => []
  | x :: r => insert x (sort_Strings r)
  end.

(** The index at which a [range] loop over [l] first meets a key that
    satisfies [p] and leaves. *)
Fixpoint first_index (p : string -> bool) (l : list string) : option nat :=
  match l with
  | [] => None
  | x :: r => if p x then Some O else option_map S (first_index p r)
  end.

Definition New (defaultKey : string) (otherKeys : list string) : Value :=
  let ks := sort_Strings (otherKeys ++ [defaultKey])%list in
  {| keys := ks;
     index := match first_index (fun key => String.eqb key defaultKey) ks with
              | Some i => i
              | None => O
              end |}.

(** [None] is the panic of an index out of range. *)
Definition Key (v : Value) : option string :=
  match keys v with
  | [] => Some ""
  | _ => nth_error (keys v) (index v)
  end.

Definition Get (v : Value) : option string := Key v.

Definition Index (v : Value) : nat := index v.

Definition Help (v : Value) (h : string) : string :=
  h ++ " (" ++ Join (keys v) "|" ++ ")".

(** [Set]: the value it leaves, and the error, by its text. *)
Definition Value_Set (EqualFold : string -> string -> bool) (v : Value)
    (s : string) : Value * option string :=
  match first_index (fun key => EqualFold s key) (keys v) with
  | Some i => ({| keys := keys v; index := i |}, None)
  | None => (v, Some ("expected one of (" ++ Join (keys v) "|" ++ ")"))
  end.

(** [strings.EqualFold] on texts of ASCII: the same bytes, the case of the
    letters aside. *)
Definition lower (c : ascii) : ascii :=
  if (65 <=? code c) && (code c <=? 90) then byte (code c + 32) else c.

Fixpoint EqualFold_ascii (s t : string) : bool :=
  match s, t with
  | EmptyString, EmptyString => true
  | String a s', String b t' =>
      Ascii.eqb (lower a) (lower b) && EqualFold_ascii s' t'
  | _, _ => false
  end.

(** Keys in ascending order. *)
Definition ascending (l : list string) : Prop :=
  Sorted (fun a b => String.leb a b = true) l.

(** A value whose index is an index of its keys. *)
Definition valid (v : Value) : Prop := (index v < List.length (keys v))%nat.

End Enumflag.

(** Line feed, carriage return and tab, for the texts of the tests. *)
Definition LF : string := String (byte 10) EmptyString.
Definition CR : string := String (byte 13) EmptyString.
Definition TAB : string := String (byte 9) EmptyString.

(** The Kelvin sign U+212A in UTF-8. *)
Definition KELVIN : string :=
  String (byte 226) (String (byte 132) (String (byte 170) EmptyString)).

(** [k] times the digit 0. *)
Fixpoint zeros (k : nat) : string :=
  match k with
  | O => EmptyString
  | S k' => String "0" (zeros k')
  end.

(** The texts no base accepts, from the tests of the package. *)
Definition rejected : list string :=
  [""; "  "; "k"; ".1"; "1."; "2.1"; "17kk"; "-16.3mbb"; "1b2kqq"; "6.7q"].


(** ** Lengths: the loop of [parse] ends *)

Section Lengths.

Lemma length_rev_append (s acc : string) :
  String.length (rev_append s acc) = (String.length s + String.length acc)%nat.
Proof.
  revert acc; induction s as [|c r IH]; intro acc; simpl; [reflexivity|].
  rewrite IH; simpl; lia.
Qed.

Lemma length_rev (s : string) : String.length (rev s) = String.length s.
Proof. unfold rev; rewrite length_rev_append; simpl; lia. Qed.

Lemma length_append (s t : string) :
  String.length (s ++ t) = (String.length s + String.length t)%nat.
Proof. induction s as [|c r IH]; simpl; [reflexivity | now rewrite IH]. Qed.

Lemma length_TrimLeft_bound (k : nat) :
  forall s, (String.length s <= k)%nat ->
            (String.length (TrimLeft s) <= String.length s)%nat.
Proof.
  induction k as [|k IH]; intros s Hs.
  - destruct s; simpl in *; lia.
  - destruct s as [|c1 r1]; [simpl; lia|].
    simpl in Hs. cbn [TrimLeft].
    destruct (ascii_space c1).
    { specialize (IH r1); simpl; lia. }
    destruct r1 as [|c2 r2]; [lia|].
    simpl in Hs.
    destruct (space2 (code c1) (code c2)).
    { specialize (IH r2); simpl; lia. }
    destruct r2 as [|c3 r3]; [lia|].
    simpl in Hs.
    destruct (space3 (code c1) (code c2) (code c3)); [|lia].
    specialize (IH r3); simpl; lia.
Qed.

Lemma length_TrimLeftRev_bound (k : nat) :
  forall s, (String.length s <= k)%nat ->
            (String.length (TrimLeftRev s) <= String.length s)%nat.
Proof.
  induction k as [|k IH]; intros s Hs.
  - destruct s; simpl in *; lia.
  - destruct s as [|c1 r1]; [simpl; lia|].
    simpl in Hs. cbn [TrimLeftRev].
    destruct (ascii_space c1).
    { specialize (IH r1); simpl; lia. }
    destruct r1 as [|c2 r2]; [lia|].
    simpl in Hs.
    destruct (space2 (code c2) (code c1)).
    { specialize (IH r2); simpl; lia. }
    destruct r2 as [|c3 r3]; [lia|].
    simpl in Hs.
    destruct (space3 (code c3) (code c2) (code c1)); [|lia].
    specialize (IH r3); simpl; lia.
Qed.

Lemma length_TrimSpace (s : string) :
  (String.length (TrimSpace s) <= String.length s)%nat.
Proof.
  unfold TrimSpace, TrimRight.
  rewrite length_rev.
  pose proof (length_TrimLeftRev_bound _ (rev (TrimLeft s)) (le_n _)) as H1.
  rewrite length_rev in H1.
  pose proof (length_TrimLeft_bound _ s (le_n _)). lia.
Qed.

Lemma length_drop (k : nat) (s : string) :
  String.length (drop k s) = (String.length s - k)%nat.
Proof.
  revert s; induction k as [|k IH]; intros [|c r]; simpl; try lia.
  apply IH.
Qed.

Lemma unit_class_length (s u0 : string) :
  unit_class s = Some u0 -> (1 <= String.length u0)%nat.
Proof.
  unfold unit_class; intro H.
  destruct s as [|c1 r1]; [discriminate|].
  destruct (class_letter (code c1) || class_letter (code c1 + 32)).
  { injection H as <-; simpl; lia. }
  destruct r1 as [|c2 [|c3 r3]]; try discriminate.
  destruct ((code c1 =? 226) && (code c2 =? 132) && (code c3 =? 170));
    [injection H as <-; simpl; lia | discriminate].
Qed.

(** A match is not empty, and is found in a text that is not empty. *)
Lemma sizeRE_length (s : string) (m : submatch) :
  sizeRE s = Some m ->
  (1 <= String.length (m0 m))%nat /\ (1 <= String.length s)%nat.
Proof.
  unfold sizeRE; intro H.
  destruct s as [|c r]; [simpl in H; discriminate|].
  split; [|simpl; lia].
  destruct (span_digits (String c r)) as [[|d ds] r1]; [discriminate|].
  destruct (match fraction r1 with
            | Some (d2, r3) => (String d ds ++ "." ++ d2, r3)
            | None => (String d ds, r1)
            end) as [num t].
  destruct (unit_class t) as [u0|] eqn:Hu; [|discriminate].
  injection H as <-; cbn [m0].
  rewrite length_append.
  apply unit_class_length in Hu; lia.
Qed.

(** Fuel beyond the length of the text changes nothing. *)
Lemma parse_loop_fuel (unit : units) (f1 : nat) :
  forall (f2 : nat) (size : Z) (ok : bool) (s : string),
    (String.length s < f1)%nat -> (String.length s < f2)%nat ->
    parse_loop f1 unit size ok s = parse_loop f2 unit size ok s.
Proof.
  induction f1 as [|f1 IH]; intros f2 size ok s H1 H2; [lia|].
  destruct f2 as [|f2]; [lia|].
  cbn [parse_loop].
  destruct (sizeRE (TrimSpace s)) as [m|] eqn:Hm; [|reflexivity].
  destruct (ParseFloat (m1 m)); [|reflexivity].
  destruct (lookup unit (ToLower (m2 m))); [|reflexivity].
  pose proof (sizeRE_length _ _ Hm) as [Hm0 Hs].
  pose proof (length_TrimSpace s).
  apply IH; rewrite length_drop; lia.
Qed.

End Lengths.

(** ** What [unparse] builds *)

Lemma mult2_pows : mult2 = pows 1024 6.
Proof. reflexivity. Qed.

Lemma mult10_pows : mult10 = pows 1000 6.
Proof. reflexivity. Qed.

Lemma wrap64_id (z : Z) : min_int <= z <= max_int -> wrap64 z = z.
Proof.
  unfold wrap64, min_int, max_int; intro H.
  rewrite Z.mod_small; lia.
Qed.

Section Terms.

Variable pow : Z.
Hypothesis pow_pos : 1 < pow.

Lemma total_app (a b : list term) :
  total pow (a ++ b) = total pow a + total pow b.
Proof. induction a as [|t a IH]; simpl; [reflexivity | rewrite IH; lia]. Qed.

Lemma total_single (t : term) : total pow [t] = value pow t.
Proof. simpl; lia. Qed.

Lemma rank_range (l : string) : 0 <= rank l <= 6.
Proof.
  unfold rank.
  repeat match goal with |- context [String.eqb ?a ?b] => destruct (String.eqb a b) end; lia.
Qed.

Lemma pow_rank_pos (l : string) : 1 <= pow ^ rank l.
Proof.
  pose proof (rank_range l).
  assert (0 < pow ^ rank l) by (apply Z.pow_pos_nonneg; lia). lia.
Qed.

Lemma value_ge (t : term) : 0 < n t -> n t <= value pow t.
Proof.
  intro H; unfold value. pose proof (pow_rank_pos (u t)). nia.
Qed.

Lemma total_nonneg (ts : list term) :
  Forall (fun t => 0 < n t) ts -> 0 <= total pow ts.
Proof.
  induction 1 as [|t ts Ht _ IH]; simpl; [lia|].
  pose proof (value_ge t Ht). lia.
Qed.

Lemma desc_snoc (ts : list term) (x : term) :
  desc (ts ++ [x]) <->
  desc ts /\ Forall (fun a => rank (u x) < rank (u a)) ts.
Proof.
  unfold desc; induction ts as [|a ts IH]; simpl.
  - split; [intros _; split; constructor | intros _; repeat constructor].
  - split.
    + intro H; inversion H as [|? ? Hs Hf]; subst.
      apply IH in Hs as [Hs1 Hs2].
      apply Forall_app in Hf as [Hf1 Hf2].
      inversion Hf2; subst.
      split; constructor; assumption.
    + intros [H1 H2].
      inversion H1 as [|? ? Hs Hf]; subst. inversion H2; subst.
      constructor; [apply IH; split; assumption|].
      apply Forall_app; split; [assumption | repeat constructor; assumption].
Qed.

Lemma rev_cons_snoc (A : Type) (l b : list A) (x : A) :
  List.rev l = x :: b -> l = (List.rev b ++ [x])%list.
Proof.
  intro H. rewrite <- (rev_involutive l), H. reflexivity.
Qed.

Lemma inv_pos (q k : Z) (terms : list term) (z : Z) :
  inv pow q k terms z -> Forall (fun t => 0 < n t) terms.
Proof.
  intros [_ _ H _]. eapply Forall_impl; [|exact H]. simpl; tauto.
Qed.

(** [add] with a remainder and a label one place below the slice. *)
Lemma add_inv (q : Z) (k : Z) (terms : list term) (z n0 v : Z)
    (u0 prev : string) :
  q <= max_int ->
  inv pow q k terms z ->
  0 < n0 -> 0 <= v -> z = n0 * pow ^ k + v ->
  rank u0 = k -> In u0 labels -> 0 <= k ->
  (rank prev = k + 1 \/ rank prev = 0) ->
  let (terms', z') := add pow terms n0 u0 prev v in
  z' = v /\ inv pow q (k - 1) terms' v.
Proof.
  intros Hq [Hz Ht Hf Hd] Hn Hv Hzv Hu Hin Hk Hprev.
  assert (Happ : inv pow q (k - 1) (terms ++ [Term n0 u0]) v).
  { constructor; [assumption| | |].
    - rewrite total_app, total_single; unfold value; cbn [n u]. rewrite Hu. lia.
    - apply Forall_app; split.
      + eapply Forall_impl; [|exact Hf]. simpl; intros a (? & ? & ?).
        repeat split; try assumption; lia.
      + constructor; [cbn [n u]; repeat split; try assumption; lia | constructor].
    - apply desc_snoc; split; [assumption|].
      eapply Forall_impl; [|exact Hf]. simpl; intros a (? & ? & ?).
      cbn [u]; lia. }
  unfold add.
  destruct (List.rev terms) as [|last before] eqn:Hrev; [split; [reflexivity | exact Happ]|].
  destruct ((v =? 0) && String.eqb (u last) prev) eqn:Hc;
    [|split; [reflexivity | exact Happ]].
  apply andb_true_iff in Hc as [Hv0 Hl].
  apply Z.eqb_eq in Hv0. apply String.eqb_eq in Hl.
  apply rev_cons_snoc in Hrev. subst terms v.
  split; [reflexivity|].
  apply Forall_app in Hf as [Hfb Hfl].
  apply Forall_inv in Hfl as (Hnl & Hrl & _).
  apply desc_snoc in Hd as [Hdb Hdl].
  rewrite <- Hl in Hprev.
  assert (Hrank : rank (u last) = rank u0 + 1) by lia.
  rewrite total_app, total_single in Ht.
  assert (Hb : 0 <= total pow (List.rev before)).
  { apply total_nonneg. eapply Forall_impl; [|exact Hfb]. simpl; tauto. }
  assert (Hval : value pow last = n last * pow * pow ^ rank u0).
  { unfold value. rewrite Hrank, Z.pow_add_r by lia. lia. }
  assert (Hp : 1 <= pow ^ rank u0) by apply pow_rank_pos.
  assert (Hbound : n last * pow + n0 <= q) by nia.
  assert (Hw : wrap64 (wrap64 (n last * pow) + n0) = n last * pow + n0).
  { unfold max_int, min_int in *.
    rewrite (wrap64_id (n last * pow)) by (unfold max_int, min_int; nia).
    apply wrap64_id; unfold max_int, min_int; nia. }
  rewrite Hw. cbn [List.rev].
  constructor; [lia| | |].
  - rewrite total_app, total_single.
    replace (value pow (Term (n last * pow + n0) u0))
      with (value pow last + n0 * pow ^ k); [lia|].
    rewrite Hval; unfold value; cbn [n u]. rewrite Hu. ring.
  - apply Forall_app; split.
    + eapply Forall_impl; [|exact Hfb]. simpl; intros a (? & ? & ?).
      repeat split; try assumption; lia.
    + constructor; [cbn [n u]; repeat split; try assumption; nia | constructor].
  - apply desc_snoc; split; [assumption|].
    rewrite Forall_forall in Hdl |- *. intros a Ha. specialize (Hdl a Ha).
    cbn [u]. lia.
Qed.

End Terms.

Section Loop.

Variable pow : Z.
Hypothesis pow_pos : 1 < pow.

(** The labels the loop hands to [add] at index [i], with [k] divisors left. *)
Lemma labels_at (i k : nat) :
  (i + S k = 6)%nat ->
  rank (nth (i + 1) labels "") = Z.of_nat (S k)
  /\ In (nth (i + 1) labels "") labels
  /\ (rank (nth i labels "") = Z.of_nat (S k) + 1 \/ rank (nth i labels "") = 0).
Proof.
  intro H.
  do 6 (destruct i as [|i];
        [assert (k = 5 \/ k = 4 \/ k = 3 \/ k = 2 \/ k = 1 \/ k = 0)%nat
           as Hk by lia;
         repeat (destruct Hk as [Hk|Hk]); subst k;
         try discriminate H;
         (split; [reflexivity|split; [simpl; tauto|]]);
         ((left; reflexivity) || (right; reflexivity))|]).
  lia.
Qed.

Lemma inv_weaken (q k k' : Z) (terms : list term) (z : Z) :
  k' <= k -> inv pow q k terms z -> inv pow q k' terms z.
Proof.
  intros Hk [Hz Ht Hf Hd]; constructor; try assumption.
  eapply Forall_impl; [|exact Hf]. simpl; intros a (? & ? & ?).
  repeat split; try assumption; lia.
Qed.

(** The loop over the divisors keeps the invariant down to the place 0. *)
Lemma unparse_loop_inv (q : Z) (k : nat) :
  forall (i : nat) (terms : list term) (z : Z),
    q <= max_int -> (i + k = 6)%nat ->
    inv pow q (Z.of_nat k) terms z ->
    let (terms', z') := unparse_loop pow i (pows pow k) terms z in
    inv pow q 0 terms' z'.
Proof.
  induction k as [|k IH]; intros i terms z Hq Hik Hinv; [exact Hinv|].
  cbn [pows unparse_loop].
  set (div := pow ^ Z.of_nat (S k)).
  assert (Hdiv : 0 < div) by (apply Z.pow_pos_nonneg; lia).
  pose proof (inv_z _ _ _ _ _ Hinv) as Hz.
  destruct (0 <? Z.quot z div) eqn:Hn.
  - apply Z.ltb_lt in Hn.
    destruct (labels_at i k Hik) as (Hr & Hin & Hp).
    pose proof (add_inv pow pow_pos q (Z.of_nat (S k)) terms z (Z.quot z div)
                  (Z.rem z div) (nth (i + 1) labels "") (nth i labels "")
                  Hq Hinv Hn) as Hadd.
    destruct (add pow terms (Z.quot z div) (nth (i + 1) labels "")
                (nth i labels "") (Z.rem z div)) as [terms' z'].
    destruct Hadd as [-> Hinv']; try assumption; try lia.
    + apply Z.rem_nonneg; lia.
    + fold div. rewrite (Z.quot_rem' z div) at 1. lia.
    + apply IH; [assumption | lia |].
      replace (Z.of_nat k) with (Z.of_nat (S k) - 1) by lia. exact Hinv'.
  - apply IH; [assumption | lia |].
    apply (inv_weaken q (Z.of_nat (S k))); [lia | assumption].
Qed.

Lemma desc_NoDup (ts : list term) : desc ts -> NoDup (map u ts).
Proof.
  unfold desc; induction 1 as [|a ts Hs IH Hf]; simpl; constructor; [|exact IH].
  intro Hin. apply in_map_iff in Hin as (b & Hb & Hin).
  rewrite Forall_forall in Hf. specialize (Hf b Hin). rewrite Hb in Hf. lia.
Qed.

(** The terms [unparse] renders: they add up to the number, their labels are
    known and in strictly descending order, and their coefficients are
    positive, the number zero being the term 0 alone. *)
Lemma unparse_terms_inv (q : Z) :
  0 <= q <= max_int ->
  let ts := unparse_terms q pow (pows pow 6) in
  total pow ts = q
  /\ desc ts
  /\ Forall (fun t => In (u t) labels) ts
  /\ (q = 0 -> ts = [Term 0 ""])
  /\ (0 < q -> Forall (fun t => 0 < n t) ts).
Proof.
  intros [Hq0 Hq]. unfold unparse_terms.
  assert (Hinit : inv pow q (Z.of_nat 6) [] q).
  { constructor; [assumption | simpl; lia | constructor | constructor]. }
  pose proof (unparse_loop_inv q 6 0 [] q Hq eq_refl Hinit) as Hloop.
  destruct (unparse_loop pow 0 (pows pow 6) [] q) as [terms z].
  pose proof (inv_pos pow _ _ _ _ Hloop) as Hpos.
  pose proof (total_nonneg pow pow_pos _ Hpos) as Htot.
  destruct Hloop as [Hz Ht Hf Hd].
  assert (Hlab : Forall (fun t => In (u t) labels) terms).
  { eapply Forall_impl; [|exact Hf]. simpl; tauto. }
  destruct (0 <? z) eqn:Hzpos.
  - apply Z.ltb_lt in Hzpos. rewrite orb_true_r.
    pose proof (add_inv pow pow_pos q 0 terms z z 0 "" "K" Hq
                  (Build_inv pow q 0 terms z Hz Ht Hf Hd) Hzpos) as Hadd.
    destruct (add pow terms z "" "K" 0) as [terms' z']. cbn [fst].
    destruct Hadd as [_ [_ Ht' Hf' Hd']]; try lia;
      [reflexivity | simpl; tauto | left; reflexivity |].
    repeat split; try assumption; try lia.
    + eapply Forall_impl; [|exact Hf']. simpl; tauto.
    + intros _. eapply Forall_impl; [|exact Hf']. simpl; tauto.
  - apply Z.ltb_ge in Hzpos. assert (z = 0) by lia. subst z.
    rewrite orb_false_r.
    destruct terms as [|t ts]; cbn [List.length Nat.eqb].
    + simpl in Ht. subst q. cbn.
      repeat split; try reflexivity; try lia.
      * repeat constructor.
      * constructor; [left; reflexivity | constructor].
    + repeat split; try assumption; try lia; [|intros _; exact Hpos].
      intro Hq'. exfalso.
      pose proof (value_ge pow pow_pos t (Forall_inv Hpos)).
      pose proof (total_nonneg pow pow_pos _ (Forall_inv_tail Hpos)).
      change (total pow (t :: ts)) with (value pow t + total pow ts) in Ht.
      pose proof (Forall_inv Hpos) as Hnt; simpl in Hnt.
      lia.
Qed.

End Loop.

(** ** The rendering of a term *)

Lemma no_space_app (a b : string) :
  no_space (a ++ b) = no_space a && no_space b.
Proof.
  induction a as [|c r IH]; simpl; [reflexivity|].
  rewrite IH, andb_assoc; reflexivity.
Qed.

Lemma no_space_uint (d : Decimal.uint) :
  no_space (NilEmpty.string_of_uint d) = true.
Proof. induction d; simpl; auto. Qed.

Lemma no_space_Itoa (z : Z) : no_space (Itoa z) = true.
Proof.
  unfold Itoa, NilZero.string_of_int, NilZero.string_of_uint.
  destruct (Z.to_int z) as [d|d]; destruct d; try reflexivity;
    try apply no_space_uint;
    try (change (no_space (String "-" ?s)) with (no_space s));
    apply (no_space_uint (_ _)).
Qed.

Lemma Itoa_nonempty (z : Z) : Itoa z <> "".
Proof.
  unfold Itoa, NilZero.string_of_int, NilZero.string_of_uint.
  destruct (Z.to_int z) as [d|d]; destruct d; discriminate.
Qed.

Lemma render_no_space (t : term) :
  In (u t) labels -> render t <> "" /\ no_space (render t) = true.
Proof.
  intro Hin; unfold render; split.
  - pose proof (Itoa_nonempty (n t)).
    destruct (Itoa (n t)); [congruence | discriminate].
  - rewrite no_space_app, no_space_Itoa.
    simpl in Hin.
    repeat (destruct Hin as [<-|Hin]; [reflexivity|]). contradiction.
Qed.

(** ** Terms before a unit that is not in the table *)

Lemma parse_loop_match_terms (unit : units) (k : nat) :
  forall (fuel : nat) (size : Z) (ok : bool) (s s' : string) (sum : Z),
    match_terms k unit size s = Some (sum, s') ->
    (String.length s < fuel)%nat ->
    exists (fuel' : nat) (ok' : bool),
      (String.length s' < fuel')%nat
      /\ parse_loop fuel unit size ok s = parse_loop fuel' unit sum ok' s'.
Proof.
  induction k as [|k IH]; intros fuel size ok s s' sum Hm Hf.
  - injection Hm as <- <-. exists fuel, ok. split; [assumption | reflexivity].
  - cbn [match_terms] in Hm.
    destruct fuel as [|fuel]; [lia|].
    cbn [parse_loop].
    destruct (sizeRE (TrimSpace s)) as [m|] eqn:Hre; [|discriminate].
    destruct (ParseFloat (m1 m)) as [v|]; [|discriminate].
    destruct (lookup unit (ToLower (m2 m))) as [mul|]; [|discriminate].
    pose proof (sizeRE_length _ _ Hre) as [Hm0 Hs].
    pose proof (length_TrimSpace s).
    apply (IH fuel _ true) in Hm; [exact Hm|].
    rewrite length_drop; lia.
Qed.

(** ** Exact arithmetic of [float64] on the numbers of [unparse] *)

Lemma digits2_size (p : positive) : digits2_pos p = Pos.size p.
Proof. induction p; simpl; congruence. Qed.

(** The number of binary digits of a positive number. *)
Lemma Zdigits2_bounds (p : positive) :
  2 ^ (Zdigits2 (Zpos p) - 1) <= Zpos p < 2 ^ Zdigits2 (Zpos p).
Proof.
  cbn [Zdigits2]. rewrite digits2_size.
  induction p as [p IH|p IH|]; cbn [Pos.size]; rewrite ?Pos2Z.inj_succ.
  - replace (Z.succ (Z.pos (Pos.size p)) - 1) with (Z.pos (Pos.size p) - 1 + 1) by lia.
    rewrite Z.pow_succ_r, Z.pow_add_r by lia. lia.
  - replace (Z.succ (Z.pos (Pos.size p)) - 1) with (Z.pos (Pos.size p) - 1 + 1) by lia.
    rewrite Z.pow_succ_r, Z.pow_add_r by lia. lia.
  - simpl. lia.
Qed.

Lemma Zdigits2_unique (x d : Z) :
  2 ^ (d - 1) <= x < 2 ^ d -> 0 < d -> Zdigits2 x = d.
Proof.
  intros Hx Hd.
  assert (0 < x) by (assert (0 < 2 ^ (d - 1)) by (apply Z.pow_pos_nonneg; lia); lia).
  destruct x as [|p|p]; try lia.
  pose proof (Zdigits2_bounds p) as Hb.
  set (e := Zdigits2 (Z.pos p)) in *.
  assert (0 < e) by (unfold e; simpl; lia).
  destruct (Z.lt_trichotomy e d) as [Hlt|[Heq|Hgt]]; [|assumption|].
  - assert (2 ^ e <= 2 ^ (d - 1)) by (apply Z.pow_le_mono_r; lia). lia.
  - assert (2 ^ d <= 2 ^ (e - 1)) by (apply Z.pow_le_mono_r; lia). lia.
Qed.

Lemma shr_1_even (m : Z) :
  0 <= m -> Z.even m = true ->
  shr_1 (Build_shr_record m false false) = Build_shr_record (m / 2) false false.
Proof.
  intros Hm He. destruct m as [|[p|p|]|]; try discriminate; try lia.
  - reflexivity.
  - cbn [shr_1 orb]. f_equal.
    rewrite Pos2Z.inj_xO, Z.mul_comm, Z.div_mul; lia.
Qed.

Lemma iter_shr_mul (p : positive) :
  forall k : Z, 0 <= k ->
    iter_pos shr_1 p (Build_shr_record (k * 2 ^ Zpos p) false false)
    = Build_shr_record k false false.
Proof.
  induction p as [p IH|p IH|]; intros k Hk; cbn [iter_pos].
  - assert (Hp : 0 < 2 ^ Z.pos p) by (apply Z.pow_pos_nonneg; lia).
    replace (k * 2 ^ Z.pos p~1) with (k * 2 ^ Z.pos p * 2 ^ Z.pos p * 2).
    2:{ replace (Z.pos p~1) with (Z.pos p + Z.pos p + 1) by lia.
        rewrite !Z.pow_add_r by lia. ring. }
    rewrite shr_1_even; [|nia|].
    2:{ rewrite Z.even_mul. apply orb_true_r. }
    rewrite Z.div_mul by lia.
    rewrite IH by nia. apply IH; assumption.
  - assert (Hp : 0 < 2 ^ Z.pos p) by (apply Z.pow_pos_nonneg; lia).
    replace (k * 2 ^ Z.pos p~0) with (k * 2 ^ Z.pos p * 2 ^ Z.pos p).
    2:{ replace (Z.pos p~0) with (Z.pos p + Z.pos p) by lia.
        rewrite !Z.pow_add_r by lia. ring. }
    rewrite IH by nia. apply IH; assumption.
  - change (2 ^ 1) with 2.
    rewrite shr_1_even; [|lia|].
    + rewrite Z.div_mul by lia. reflexivity.
    + rewrite Z.even_mul. apply orb_true_r.
Qed.

(** Rounding a number that fits the format leaves it as it is. *)
Lemma binary_round_aux_exact (k sh e : Z) :
  2 ^ 52 <= k < 2 ^ 53 -> 0 <= sh -> -1074 <= e + sh <= 971 ->
  binary_round_aux prec emax false (k * 2 ^ sh) e loc_Exact
  = S754_finite false (Z.to_pos k) (e + sh).
Proof.
  intros Hk Hsh He.
  assert (Hp : 0 < 2 ^ sh) by (apply Z.pow_pos_nonneg; lia).
  assert (Hd : Zdigits2 (k * 2 ^ sh) = 53 + sh).
  { apply Zdigits2_unique; [|lia].
    replace (53 + sh - 1) with (52 + sh) by lia.
    rewrite !Z.pow_add_r by lia. nia. }
  assert (Hdk : Zdigits2 k = 53) by (apply Zdigits2_unique; lia).
  unfold binary_round_aux, shr_fexp.
  rewrite Hd. unfold fexp, emin, prec, emax.
  replace (Z.max (53 + sh + e - 53) (3 - 1024 - 53) - e) with sh by lia.
  assert (Hshr : shr (shr_record_of_loc (k * 2 ^ sh) loc_Exact) e sh
                 = (Build_shr_record k false false, e + sh)).
  { unfold shr, shr_record_of_loc. destruct sh as [|p|p]; try lia.
    - rewrite Z.mul_1_r, Z.add_0_r. reflexivity.
    - rewrite iter_shr_mul by lia. reflexivity. }
  rewrite Hshr. cbn [shr_m loc_of_shr_record round_nearest_even].
  rewrite Hdk.
  replace (Z.max (53 + (e + sh) - 53) (3 - 1024 - 53) - (e + sh)) with 0 by lia.
  cbn [shr shr_record_of_loc shr_m].
  destruct k as [|p|p]; try lia.
  replace (e + sh <=? 1024 - 53) with true by (symmetry; apply Z.leb_le; lia).
  reflexivity.
Qed.

Lemma Zdigits2_pos (a : Z) : 0 < a -> 0 < Zdigits2 a.
Proof. destruct a; simpl; lia. Qed.

Lemma Zdigits2_le (a d : Z) : 0 < a -> a < 2 ^ d -> 0 <= d -> Zdigits2 a <= d.
Proof.
  intros Ha Hlt Hd. destruct a as [|p|p]; try lia.
  pose proof (Zdigits2_bounds p) as [Hb _].
  destruct (Z.le_gt_cases (Zdigits2 (Z.pos p)) d) as [|Hgt]; [assumption|].
  assert (2 ^ d <= 2 ^ (Zdigits2 (Z.pos p) - 1)) by (apply Z.pow_le_mono_r; lia).
  lia.
Qed.

(** The mantissa of [flt a t] has 53 digits. *)
Lemma flt_mantissa (a : Z) :
  0 < a < 2 ^ 53 ->
  2 ^ 52 <= a * 2 ^ (53 - Zdigits2 a) < 2 ^ 53.
Proof.
  intros [Ha Hlt]. destruct a as [|p|p]; try lia.
  pose proof (Zdigits2_bounds p) as [Hb1 Hb2].
  pose proof (Zdigits2_le (Z.pos p) 53 Ha Hlt ltac:(lia)) as Hd.
  pose proof (Zdigits2_pos (Z.pos p) Ha) as Hd0.
  set (d := Zdigits2 (Z.pos p)) in *.
  assert (Hs : 0 < 2 ^ (53 - d)) by (apply Z.pow_pos_nonneg; lia).
  replace (2 ^ 52) with (2 ^ (d - 1) * 2 ^ (53 - d))
    by (rewrite <- Z.pow_add_r by lia; f_equal; lia).
  replace (2 ^ 53) with (2 ^ d * 2 ^ (53 - d))
    by (rewrite <- Z.pow_add_r by lia; f_equal; lia).
  nia.
Qed.

(** [ParseFloat] of an integer: the integer itself. *)
Lemma of_ratio_int (a : Z) : 0 < a < 2 ^ 53 -> of_ratio a 1 = flt a 0.
Proof.
  intros Ha.
  pose proof (flt_mantissa a Ha) as Hk.
  pose proof (Zdigits2_le a 53 ltac:(lia) ltac:(lia) ltac:(lia)) as Hd.
  pose proof (Zdigits2_pos a ltac:(lia)) as Hd0.
  unfold of_ratio, flt. destruct a as [|p|p]; try lia.
  unfold SFdiv_core_binary.
  set (d := Zdigits2 (Z.pos p)) in *.
  change (Zdigits2 1) with 1.
  unfold fexp, emin, prec, emax.
  replace (Z.min (Z.max (d + 0 - (1 + 0) - 53) (3 - 1024 - 53)) (0 - 0))
    with (d - 54) by lia.
  replace (0 - 0 - (d - 54)) with (54 - d) by lia.
  remember (54 - d) as s eqn:Hs.
  destruct s as [|q|q]; try lia.
  rewrite Z.shiftl_mul_pow2 by lia. rewrite Hs.
  assert (Hdiv : Z.div_eucl (Z.pos p * 2 ^ (54 - d)) 1
                 = (Z.pos p * 2 ^ (54 - d), 0)).
  { pose proof (Z.div_1_r (Z.pos p * 2 ^ (54 - d))) as H1.
    pose proof (Z.mod_1_r (Z.pos p * 2 ^ (54 - d))) as H2.
    unfold Z.div, Z.modulo in H1, H2.
    destruct (Z.div_eucl (Z.pos p * 2 ^ (54 - d)) 1). simpl in *. congruence. }
  rewrite Hdiv.
  change (new_location 1 0) with loc_Exact.
  replace (Z.pos p * 2 ^ (54 - d)) with (Z.pos p * 2 ^ (53 - d) * 2 ^ 1).
  2:{ replace (54 - d) with (53 - d + 1) by lia.
      rewrite Z.pow_add_r by lia. ring. }
  rewrite (binary_round_aux_exact _ 1 (d - 54)) by lia.
  f_equal. lia.
Qed.

(** The product of two such numbers is exact when it has at most 53
    digits. *)
Lemma mul_flt (a b s t : Z) :
  0 < a -> 0 < b -> a * b < 2 ^ 53 -> -1000 <= s + t <= 900 ->
  mul (flt a s) (flt b t) = flt (a * b) (s + t).
Proof.
  intros Ha Hb Hab Hst.
  assert (Ha53 : 0 < a < 2 ^ 53) by nia.
  assert (Hb53 : 0 < b < 2 ^ 53) by nia.
  pose proof (flt_mantissa a Ha53) as Hma.
  pose proof (flt_mantissa b Hb53) as Hmb.
  pose proof (flt_mantissa (a * b) ltac:(nia)) as Hmab.
  pose proof (Zdigits2_pos a Ha) as Hda0.
  pose proof (Zdigits2_pos b Hb) as Hdb0.
  pose proof (Zdigits2_le a 53 ltac:(lia) ltac:(lia) ltac:(lia)) as Hda.
  pose proof (Zdigits2_le b 53 ltac:(lia) ltac:(lia) ltac:(lia)) as Hdb.
  pose proof (Zdigits2_le (a * b) 53 ltac:(nia) ltac:(lia) ltac:(lia)) as Hdab.
  assert (Hlow : Zdigits2 a + Zdigits2 b - 1 <= Zdigits2 (a * b)).
  { destruct a as [|p|p]; try lia. destruct b as [|q|q]; try lia.
    pose proof (Zdigits2_bounds p) as [Hp _].
    pose proof (Zdigits2_bounds q) as [Hq _].
    pose proof (Zdigits2_bounds (p * q)) as [_ Hpq].
    change (Z.pos p * Z.pos q) with (Z.pos (p * q)).
    set (da := Zdigits2 (Z.pos p)) in *. set (db := Zdigits2 (Z.pos q)) in *.
    set (dab := Zdigits2 (Z.pos (p * q))) in *.
    rewrite Pos2Z.inj_mul in Hpq.
    destruct (Z.le_gt_cases (da + db - 1) dab) as [|Hgt]; [assumption|].
    assert (2 ^ dab <= 2 ^ (da - 1 + (db - 1))) by (apply Z.pow_le_mono_r; lia).
    rewrite Z.pow_add_r in * by lia.
    assert (0 < 2 ^ (da - 1)) by (apply Z.pow_pos_nonneg; lia).
    assert (0 < 2 ^ (db - 1)) by (apply Z.pow_pos_nonneg; lia).
    assert (2 ^ (da - 1) * 2 ^ (db - 1) <= Z.pos p * Z.pos q)
      by (apply Z.mul_le_mono_nonneg; lia).
    lia. }
  unfold mul, flt, SFmul. cbn [xorb].
  set (da := Zdigits2 a) in *. set (db := Zdigits2 b) in *.
  set (dab := Zdigits2 (a * b)) in *.
  rewrite Pos2Z.inj_mul, !Z2Pos.id by lia.
  replace (a * 2 ^ (53 - da) * (b * 2 ^ (53 - db)))
    with (a * b * 2 ^ (53 - dab) * 2 ^ (53 + dab - da - db)).
  2:{ replace (a * 2 ^ (53 - da) * (b * 2 ^ (53 - db)))
        with (a * b * (2 ^ (53 - da) * 2 ^ (53 - db))) by ring.
      rewrite <- Z.mul_assoc, <- !Z.pow_add_r by lia.
      do 2 f_equal. lia. }
  rewrite binary_round_aux_exact by lia.
  f_equal. lia.
Qed.

(** The integer part of such a number, when it is an [int]. *)
Lemma to_int_flt (a t : Z) :
  0 < a < 2 ^ 53 -> 0 <= t -> a * 2 ^ t <= max_int ->
  to_int (flt a t) = a * 2 ^ t.
Proof.
  intros Ha Ht Hmax.
  pose proof (flt_mantissa a Ha) as Hm.
  pose proof (Zdigits2_pos a ltac:(lia)) as Hd0.
  pose proof (Zdigits2_le a 53 ltac:(lia) ltac:(lia) ltac:(lia)) as Hd.
  assert (Hp : 0 < 2 ^ t) by (apply Z.pow_pos_nonneg; lia).
  unfold to_int, flt, trunc.
  set (d := Zdigits2 a) in *.
  rewrite Z2Pos.id by lia.
  assert (Hv : match t - (53 - d) with
               | Z.neg p => Z.shiftr (a * 2 ^ (53 - d)) (Z.pos p)
               | _ => Z.shiftl (a * 2 ^ (53 - d)) (t - (53 - d))
               end = a * 2 ^ t).
  { remember (t - (53 - d)) as e eqn:He.
    destruct e as [|p|p].
    - rewrite Z.shiftl_mul_pow2 by lia.
      replace t with (53 - d) by lia. simpl; lia.
    - rewrite Z.shiftl_mul_pow2 by lia.
      rewrite <- Z.mul_assoc, <- Z.pow_add_r by lia. do 2 f_equal. lia.
    - rewrite Z.shiftr_div_pow2 by lia.
      replace (53 - d) with (t + Z.pos p) by lia.
      rewrite Z.pow_add_r, Z.mul_assoc by lia.
      apply Z.div_mul. assert (0 < 2 ^ Z.pos p) by (apply Z.pow_pos_nonneg; lia).
      lia. }
  rewrite Hv.
  unfold in_int, min_int.
  replace (- 2 ^ 63 <=? a * 2 ^ t) with true by (symmetry; apply Z.leb_le; nia).
  replace (a * 2 ^ t <=? max_int) with true by (symmetry; apply Z.leb_le; lia).
  reflexivity.
Qed.

(** ** Decimal numerals *)

Lemma all_digits_uint (d : Decimal.uint) :
  all_digits (NilEmpty.string_of_uint d) = true.
Proof. induction d; simpl; auto. Qed.

Lemma digits_val_uint_acc (d : Decimal.uint) :
  forall acc : positive,
    digits_val (Zpos acc) (NilEmpty.string_of_uint d)
    = Zpos (Pos.of_uint_acc d acc).
Proof.
  induction d; intro acc; cbn [NilEmpty.string_of_uint digits_val Pos.of_uint_acc];
    try reflexivity;
    rewrite <- IHd; f_equal;
    match goal with
    | |- context [digit_val ?c] =>
        let v := eval vm_compute in (digit_val c) in
        change (digit_val c) with v
    end;
    rewrite ?Pos2Z.inj_add, Pos2Z.inj_mul; lia.
Qed.

Lemma digits_val_uint (d : Decimal.uint) :
  digits_val 0 (NilEmpty.string_of_uint d) = Z.of_N (Pos.of_uint d).
Proof.
  induction d; cbn [NilEmpty.string_of_uint digits_val Pos.of_uint];
    try reflexivity; try exact IHd;
    rewrite N2Z.inj_pos, <- digits_val_uint_acc; reflexivity.
Qed.

(** The decimal numeral of a natural number: digits, whose value it is. *)
Lemma Itoa_digits (z : Z) :
  0 <= z -> all_digits (Itoa z) = true /\ digits_val 0 (Itoa z) = z.
Proof.
  intro Hz. destruct z as [|p|p]; try lia; [split; reflexivity|].
  unfold Itoa, NilZero.string_of_int, NilZero.string_of_uint. cbn [Z.to_int].
  pose proof (Unsigned.to_uint_nonnil p) as Hn.
  pose proof (Unsigned.of_to p) as Hp.
  destruct (Pos.to_uint p) eqn:E; try congruence; rewrite <- E;
    (split; [apply all_digits_uint | rewrite digits_val_uint, E, Hp; reflexivity]).
Qed.

Lemma span_digits_app (d rest : string) :
  all_digits d = true ->
  match rest with
  | String c _ => is_digit c = false
  | EmptyString => True
  end ->
  span_digits (d ++ rest) = (d, rest).
Proof.
  intros Hd Hr. induction d as [|c d IH]; simpl in *.
  - destruct rest as [|c r]; [reflexivity|]. simpl. rewrite Hr. reflexivity.
  - apply andb_true_iff in Hd as [Hc Hd]. rewrite Hc, (IH Hd). reflexivity.
Qed.

Lemma append_empty_r (s : string) : s ++ "" = s.
Proof. induction s as [|c r IH]; simpl; [reflexivity | now rewrite IH]. Qed.

(** [ParseFloat] reads the numeral of a number of at most 53 digits as that
    number. *)
Lemma ParseFloat_Itoa (z : Z) :
  0 < z < 2 ^ 53 -> ParseFloat (Itoa z) = Some (flt z 0).
Proof.
  intro Hz. destruct (Itoa_digits z ltac:(lia)) as [Hd Hv].
  unfold ParseFloat.
  rewrite <- (append_empty_r (Itoa z)) at 1.
  rewrite (span_digits_app (Itoa z) "" Hd I).
  pose proof (Itoa_nonempty z).
  destruct (Itoa z) as [|c r] eqn:E; [congruence|].
  rewrite Hv, of_ratio_int by assumption. reflexivity.
Qed.

(** [Atoi] reads the numeral of a natural [int] as that number. *)
Lemma Atoi_Itoa (z : Z) : 0 <= z <= max_int -> Atoi (Itoa z) = Some z.
Proof.
  intro Hz. destruct (Itoa_digits z ltac:(lia)) as [Hd Hv].
  pose proof (Itoa_nonempty z).
  unfold Atoi. destruct (Itoa z) as [|c r] eqn:E; [congruence|].
  assert (Hc : is_digit c = true) by (simpl in Hd; apply andb_true_iff in Hd; tauto).
  unfold is_digit in Hc. apply andb_true_iff in Hc as [Hc1 Hc2].
  apply Z.leb_le in Hc1, Hc2.
  replace (code c =? 45) with false by (symmetry; apply Z.eqb_neq; lia).
  replace (code c =? 43) with false by (symmetry; apply Z.eqb_neq; lia).
  rewrite Hd, Hv. unfold in_int, min_int.
  replace (- 2 ^ 63 <=? z) with true by (symmetry; apply Z.leb_le; lia).
  replace (z <=? max_int) with true by (symmetry; apply Z.leb_le; lia).
  reflexivity.
Qed.

(** ** The coefficients of [unparse] below the unit E *)

Section Bounds.

Variable pow : Z.
Hypothesis pow_pos : 1 < pow.
Hypothesis pow_small : pow * pow <= max_int.

Lemma below_weaken (ts : list term) :
  Forall (fun t => 0 < n t < pow) ts ->
  Forall (fun t => 0 < n t < pow * pow) ts.
Proof.
  apply Forall_impl. intros t Ht. nia.
Qed.

(** [add] of a coefficient below [pow] to coefficients below [pow]: the
    coefficients stay below [pow] when something remains, and below [pow^2]
    anyway. *)
Lemma add_bound (terms : list term) (n0 v : Z) (u0 prev : string) :
  Forall (fun t => 0 < n t < pow) terms -> 0 < n0 < pow ->
  (v <> 0 -> Forall (fun t => 0 < n t < pow) (fst (add pow terms n0 u0 prev v)))
  /\ Forall (fun t => 0 < n t < pow * pow) (fst (add pow terms n0 u0 prev v)).
Proof.
  intros Hf Hn.
  assert (Happ : Forall (fun t => 0 < n t < pow) (terms ++ [Term n0 u0])).
  { apply Forall_app; split; [assumption|]. constructor; [exact Hn | constructor]. }
  unfold add.
  destruct (List.rev terms) as [|last before] eqn:Hrev;
    [split; [intros _; exact Happ | apply below_weaken; exact Happ]|].
  destruct ((v =? 0) && String.eqb (u last) prev) eqn:Hc;
    [|split; [intros _; exact Happ | apply below_weaken; exact Happ]].
  apply andb_true_iff in Hc as [Hv0 _]. apply Z.eqb_eq in Hv0.
  split; [intro; contradiction|]. cbn [fst List.rev].
  apply rev_cons_snoc in Hrev. subst terms.
  apply Forall_app in Hf as [Hb Hl]. apply Forall_inv in Hl. cbn beta in Hl.
  apply Forall_app; split; [apply below_weaken; exact Hb|].
  constructor; [|constructor]. cbn [n].
  unfold max_int in pow_small.
  rewrite (wrap64_id (n last * pow)) by (unfold max_int, min_int; nia).
  rewrite wrap64_id by (unfold max_int, min_int; nia).
  nia.
Qed.

Lemma quot_zero (k : nat) : Z.quot 0 (pow ^ Z.of_nat (S k)) = 0.
Proof. apply Z.quot_0_l. apply Z.pow_nonzero; lia. Qed.

Lemma unparse_loop_bound (k : nat) :
  forall (i : nat) (terms : list term) (z : Z),
    bnd pow (Z.of_nat k) terms z ->
    let (terms', z') := unparse_loop pow i (pows pow k) terms z in
    bnd pow 0 terms' z'.
Proof.
  induction k as [|k IH]; intros i terms z Hb; [exact Hb|].
  cbn [pows unparse_loop].
  set (div := pow ^ Z.of_nat (S k)).
  assert (Hdiv : 0 < div) by (apply Z.pow_pos_nonneg; lia).
  destruct (0 <? Z.quot z div) eqn:Hn.
  - apply Z.ltb_lt in Hn.
    destruct Hb as [[Hf Hz]|[-> _]];
      [|unfold div in Hn; rewrite quot_zero in Hn; lia].
    assert (Hq : 0 < Z.quot z div < pow).
    { split; [assumption|].
      apply Z.quot_lt_upper_bound; try lia.
      replace (Z.of_nat (S k) + 1) with (Z.succ (Z.of_nat (S k))) in Hz by lia.
      rewrite Z.pow_succ_r in Hz by lia. fold div in Hz. lia. }
    pose proof (add_bound terms (Z.quot z div) (Z.rem z div)
                  (nth (i + 1) labels "") (nth i labels "") Hf Hq) as [H1 H2].
    pose proof (Z.rem_bound_pos z div ltac:(lia) Hdiv) as Hr.
    assert (Hv : snd (add pow terms (Z.quot z div) (nth (i + 1) labels "")
                        (nth i labels "") (Z.rem z div)) = Z.rem z div).
    { unfold add. destruct (List.rev terms); [reflexivity|].
      destruct (_ && _); reflexivity. }
    destruct (add pow terms (Z.quot z div) (nth (i + 1) labels "")
                (nth i labels "") (Z.rem z div)) as [terms' z'].
    cbn [fst snd] in *. subst z'.
    apply IH.
    destruct (Z.eq_dec (Z.rem z div) 0) as [E|E].
    + right. split; assumption.
    + left. split; [apply H1; assumption|].
      replace (Z.of_nat k + 1) with (Z.of_nat (S k)) by lia. exact Hr.
  - apply IH. apply Z.ltb_ge in Hn.
    destruct Hb as [[Hf Hz]|[-> Hf]]; [left|right]; split; try assumption;
      try reflexivity.
    split; [lia|].
    replace (Z.of_nat k + 1) with (Z.of_nat (S k)) by lia. fold div.
    destruct (Z.lt_ge_cases z div) as [|Hge]; [assumption|].
    assert (1 <= Z.quot z div); [|lia].
    apply Z.quot_le_lower_bound; lia.
Qed.

End Bounds.

Section Below.

Variable pow : Z.
Hypothesis pow_pos : 1 < pow.
Hypothesis pow_small : pow * pow <= max_int.

Lemma value_le_total (ts : list term) (t : term) :
  Forall (fun t => 0 < n t) ts -> In t ts -> value pow t <= total pow ts.
Proof.
  induction 1 as [|a ts Ha Hf IH]; intros Hin; [contradiction|].
  change (total pow (a :: ts)) with (value pow a + total pow ts).
  pose proof (total_nonneg pow pow_pos ts Hf).
  pose proof (value_ge pow pow_pos a Ha).
  destruct Hin as [->|Hin]; [lia|]. specialize (IH Hin). lia.
Qed.

(** The terms of a number below [pow^6]: no unit E, and every coefficient
    with a unit is positive and below [pow^2]. *)
Lemma unparse_terms_below (q : Z) :
  0 <= q < pow ^ 6 -> q <= max_int ->
  let ts := unparse_terms q pow (pows pow 6) in
  Forall (fun t => 0 <= n t /\ rank (u t) <= 5
                   /\ (u t <> "" -> 0 < n t < pow * pow)) ts.
Proof.
  intros Hq Hmax ts.
  destruct (unparse_terms_inv pow pow_pos q ltac:(lia)) as (Ht & _ & _ & H0 & Hp).
  fold ts in Ht, H0, Hp.
  assert (Hbound : Forall (fun t => u t <> "" -> 0 < n t < pow * pow) ts).
  { unfold ts, unparse_terms.
    assert (Hinit : bnd pow (Z.of_nat 6) [] q).
    { left. split; [constructor|]. change (Z.of_nat 6 + 1) with (Z.succ 6).
      rewrite Z.pow_succ_r by lia. nia. }
    pose proof (unparse_loop_bound pow pow_pos pow_small 6 0 [] q Hinit) as Hb.
    destruct (unparse_loop pow 0 (pows pow 6) [] q) as [terms z].
    assert (Hterms : Forall (fun t => u t <> "" -> 0 < n t < pow * pow) terms).
    { destruct Hb as [[Hf _]|[_ Hf]];
        (eapply Forall_impl; [|exact Hf]); cbn beta; intros; nia. }
    destruct ((Nat.eqb (List.length terms) 0) || (0 <? z)); [|exact Hterms].
    assert (Happ : Forall (fun t => u t <> "" -> 0 < n t < pow * pow)
                     (terms ++ [Term z ""])).
    { apply Forall_app; split; [assumption|].
      constructor; [cbn; congruence | constructor]. }
    unfold add. destruct (List.rev terms) as [|last before] eqn:Hrev;
      [exact Happ|].
    destruct (_ && _); [|exact Happ]. cbn [fst List.rev].
    apply rev_cons_snoc in Hrev. subst terms.
    apply Forall_app in Hterms as [Hb' _].
    apply Forall_app; split; [assumption|].
    constructor; [cbn; congruence | constructor]. }
  destruct (Z.eq_dec q 0) as [E|E].
  - rewrite (H0 E). constructor; [|constructor].
    cbn. repeat split; try lia. congruence.
  - specialize (Hp ltac:(lia)).
    rewrite Forall_forall in *. intros t Hin.
    repeat split; try (apply Hbound; assumption).
    + specialize (Hp t Hin). cbn beta in Hp. lia.
    + pose proof (rank_range (u t)) as Hr.
      destruct (Z.eq_dec (rank (u t)) 6) as [E6|]; [|lia].
      assert (Hpos : Forall (fun t => 0 < n t) ts) by (apply Forall_forall; exact Hp).
      pose proof (value_le_total ts t Hpos Hin) as Hv.
      unfold value in Hv. rewrite E6 in Hv.
      specialize (Hp t Hin). cbn beta in Hp.
      assert (0 < pow ^ 6) by (apply Z.pow_pos_nonneg; lia). nia.
Qed.

End Below.

(** ** Texts without white space at their ends *)

Lemma append_assoc (a b c : string) : (a ++ b) ++ c = a ++ b ++ c.
Proof. induction a as [|x a IH]; simpl; [reflexivity | now rewrite IH]. Qed.

Lemma rev_append_acc (s acc : string) : rev_append s acc = rev s ++ acc.
Proof.
  unfold rev. revert acc. induction s as [|c r IH]; intro acc; simpl; [reflexivity|].
  rewrite IH, (IH (String c "")), append_assoc. reflexivity.
Qed.

Lemma rev_cons (c : ascii) (s : string) : rev (String c s) = rev s ++ String c "".
Proof. unfold rev at 1; simpl. apply rev_append_acc. Qed.

Lemma rev_app (a b : string) : rev (a ++ b) = rev b ++ rev a.
Proof.
  induction a as [|c a IH]; simpl.
  - rewrite append_empty_r. reflexivity.
  - rewrite !rev_cons, IH, append_assoc. reflexivity.
Qed.

Lemma rev_rev (s : string) : rev (rev s) = s.
Proof.
  induction s as [|c s IH]; [reflexivity|].
  rewrite rev_cons, rev_app, IH. reflexivity.
Qed.

Lemma space2_plain (b1 : Z) (c : ascii) : code c < 128 -> space2 b1 (code c) = false.
Proof.
  intro H. unfold space2.
  replace (code c =? 133) with false by (symmetry; apply Z.eqb_neq; lia).
  replace (code c =? 160) with false by (symmetry; apply Z.eqb_neq; lia).
  apply andb_false_r.
Qed.

Lemma space3_plain (b1 b2 : Z) (c : ascii) :
  code c < 128 -> space3 b1 b2 (code c) = false.
Proof.
  intro H. unfold space3.
  replace (code c =? 128) with false by (symmetry; apply Z.eqb_neq; lia).
  replace (128 <=? code c) with false by (symmetry; apply Z.leb_gt; lia).
  replace (code c =? 168) with false by (symmetry; apply Z.eqb_neq; lia).
  replace (code c =? 169) with false by (symmetry; apply Z.eqb_neq; lia).
  replace (code c =? 175) with false by (symmetry; apply Z.eqb_neq; lia).
  replace (code c =? 159) with false by (symmetry; apply Z.eqb_neq; lia).
  cbn [andb orb]. rewrite !andb_false_r. reflexivity.
Qed.

Lemma space2_first (c : ascii) (b2 : Z) : code c < 128 -> space2 (code c) b2 = false.
Proof.
  intro H. unfold space2.
  replace (code c =? 194) with false by (symmetry; apply Z.eqb_neq; lia).
  reflexivity.
Qed.

Lemma space3_first (c : ascii) (b2 b3 : Z) :
  code c < 128 -> space3 (code c) b2 b3 = false.
Proof.
  intro H. unfold space3.
  replace (code c =? 225) with false by (symmetry; apply Z.eqb_neq; lia).
  replace (code c =? 226) with false by (symmetry; apply Z.eqb_neq; lia).
  replace (code c =? 227) with false by (symmetry; apply Z.eqb_neq; lia).
  reflexivity.
Qed.

Lemma TrimLeft_plain (c : ascii) (r : string) :
  plain c -> TrimLeft (String c r) = String c r.
Proof.
  intros [Hs Hc]. cbn [TrimLeft]. rewrite Hs.
  destruct r as [|c2 r2]; [reflexivity|].
  rewrite space2_first by assumption.
  destruct r2 as [|c3 r3]; [reflexivity|].
  rewrite space3_first by assumption. reflexivity.
Qed.

Lemma TrimLeftRev_plain (c : ascii) (r : string) :
  plain c -> TrimLeftRev (String c r) = String c r.
Proof.
  intros [Hs Hc]. cbn [TrimLeftRev]. rewrite Hs.
  destruct r as [|c2 r2]; [reflexivity|].
  rewrite space2_plain by assumption.
  destruct r2 as [|c3 r3]; [reflexivity|].
  rewrite space3_plain by assumption. reflexivity.
Qed.

Lemma last_plain_app (a b : string) : last_plain b -> last_plain (a ++ b).
Proof.
  intros (c & r & Hr & Hc). exists c, (r ++ rev a).
  rewrite rev_app, Hr. split; [reflexivity | assumption].
Qed.

(** A text between plain bytes is trimmed already. *)
Lemma TrimSpace_plain (c : ascii) (r : string) :
  plain c -> last_plain (String c r) -> TrimSpace (String c r) = String c r.
Proof.
  intros Hc (c' & r' & Hr & Hc').
  unfold TrimSpace, TrimRight.
  rewrite TrimLeft_plain by assumption.
  rewrite Hr, TrimLeftRev_plain by assumption.
  rewrite <- Hr. apply rev_rev.
Qed.

Lemma digit_plain (c : ascii) : is_digit c = true -> plain c.
Proof.
  unfold is_digit, plain, ascii_space. intro H.
  apply andb_true_iff in H as [H1 H2]. apply Z.leb_le in H1, H2.
  split; [|lia].
  replace (code c <=? 13) with false by (symmetry; apply Z.leb_gt; lia).
  replace (code c =? 32) with false by (symmetry; apply Z.eqb_neq; lia).
  rewrite andb_false_r. reflexivity.
Qed.

Lemma digits_last_plain (d : string) :
  all_digits d = true -> d <> "" -> last_plain d.
Proof.
  induction d as [|c r IH]; intros Hd Hne; [congruence|].
  simpl in Hd. apply andb_true_iff in Hd as [Hc Hr].
  destruct r as [|c2 r2].
  - exists c, "". split; [reflexivity | apply digit_plain; assumption].
  - change (String c (String c2 r2)) with (String c "" ++ String c2 r2).
    apply last_plain_app. apply IH; [assumption | discriminate].
Qed.

(** ** One rendered term under [parse] *)

Lemma drop_app (a b : string) : drop (String.length a) (a ++ b) = b.
Proof. induction a as [|c a IH]; simpl; [reflexivity | exact IH]. Qed.

Lemma sizeRE_term (d l rest : string) :
  all_digits d = true -> d <> "" -> In l letters ->
  sizeRE (d ++ l ++ rest) = Some (Submatch (d ++ l) d l).
Proof.
  intros Hd Hne Hl. unfold sizeRE.
  rewrite (span_digits_app d (l ++ rest) Hd).
  2:{ simpl in Hl. repeat (destruct Hl as [<-|Hl]; [reflexivity|]). contradiction. }
  destruct d as [|c r]; [congruence|].
  simpl in Hl. repeat (destruct Hl as [<-|Hl]; [reflexivity|]). contradiction.
Qed.

Lemma sizeRE_digits (d : string) : all_digits d = true -> sizeRE d = None.
Proof.
  intro Hd. unfold sizeRE.
  rewrite <- (append_empty_r d), (span_digits_app d "" Hd I).
  destruct d; reflexivity.
Qed.

Lemma parse_loop_trim (fuel : nat) (unit : units) (size : Z) (ok : bool)
    (s s' : string) :
  TrimSpace s = TrimSpace s' ->
  parse_loop fuel unit size ok s = parse_loop fuel unit size ok s'.
Proof. intro H. destruct fuel; cbn [parse_loop]; rewrite H; reflexivity. Qed.

Lemma parse_loop_end (fuel : nat) (unit : units) (size : Z) :
  parse_loop fuel unit size true "" = (size, None).
Proof. destruct fuel; reflexivity. Qed.

Lemma Itoa_first_plain (z : Z) :
  0 <= z -> exists c r, Itoa z = String c r /\ plain c.
Proof.
  intro Hz. destruct (Itoa_digits z Hz) as [Hd _].
  pose proof (Itoa_nonempty z) as Hne.
  destruct (Itoa z) as [|c r]; [congruence|].
  exists c, r. split; [reflexivity|].
  simpl in Hd. apply andb_true_iff in Hd as [Hc _]. apply digit_plain; assumption.
Qed.

Lemma letter_last_plain (l : string) : In l letters -> last_plain l.
Proof.
  intro Hl. simpl in Hl.
  repeat (destruct Hl as [<-|Hl];
          [eexists _, _; split; [reflexivity | split; [reflexivity | cbn; lia]]|]).
  contradiction.
Qed.

Lemma render_last_plain (t : term) :
  0 <= n t -> In (u t) labels -> last_plain (render t).
Proof.
  intros Hn Hl. unfold render.
  destruct (Itoa_digits (n t) Hn) as [Hd _].
  pose proof (digits_last_plain _ Hd (Itoa_nonempty (n t))) as Hlast.
  simpl in Hl. destruct Hl as [<-|Hl].
  - rewrite append_empty_r. assumption.
  - apply last_plain_app.
    repeat (destruct Hl as [<-|Hl];
            [eexists _, _; split; [reflexivity | split; [reflexivity | cbn; lia]]|]).
    contradiction.
Qed.

Lemma Join_cons (p : string) (ps : list string) :
  ps <> [] -> Join (p :: ps) " " = p ++ " " ++ Join ps " ".
Proof. destruct ps; [congruence | reflexivity]. Qed.

Lemma Join_last_plain (ts : list term) :
  ts <> [] ->
  Forall (fun t => 0 <= n t /\ In (u t) labels) ts ->
  last_plain (Join (map render ts) " ").
Proof.
  induction ts as [|t ts IH]; intros Hne Hf; [congruence|].
  apply Forall_cons_iff in Hf as [[Hn Hl] Hf].
  destruct ts as [|t' ts'].
  - apply render_last_plain; assumption.
  - cbn [map]. rewrite Join_cons by discriminate.
    do 2 apply last_plain_app. apply IH; [discriminate | assumption].
Qed.

(** ** The rendered terms under [parse] *)

Section RoundTrip.

Variable pow : Z.
Variable unit : units.
Hypothesis pow_pos : 1 < pow.
Hypothesis pow6 : pow ^ 6 <= max_int.

(** The table holds, for every unit below E, its multiplier [pow^rank] as a
    [float64], and the product with a coefficient that [unparse] writes has
    at most 53 digits. *)
Hypothesis unit_ok :
  forall (l : string) (c : Z),
    In l letters -> 0 < c < pow * pow -> c * pow ^ rank l < pow ^ 6 ->
    exists a t, lookup unit (ToLower l) = Some (flt a t)
                /\ 0 < a /\ 0 <= t <= 60
                /\ a * 2 ^ t = pow ^ rank l /\ c * a < 2 ^ 53.

Lemma writable_value (t : term) : writable pow t -> 0 <= value pow t.
Proof.
  intros (_ & Hn & _ & _). unfold value.
  pose proof (pow_rank_pos pow pow_pos (u t)). nia.
Qed.

Lemma writable_total (ts : list term) : Forall (writable pow) ts -> 0 <= total pow ts.
Proof.
  induction 1 as [|t ts Ht _ IH]; simpl; [lia|].
  pose proof (writable_value t Ht). lia.
Qed.

Lemma writable_letter (t : term) :
  writable pow t -> u t <> "" -> In (u t) letters.
Proof.
  intros (Hl & _ & Hr & _) Hne. simpl in Hl |- *.
  destruct Hl as [Hl|[Hl|Hl]]; [congruence| |tauto].
  rewrite <- Hl in Hr. cbv in Hr. congruence.
Qed.

(** One term with a unit: a turn of the loop adds its value. *)
Lemma parse_loop_term (t : term) (rest : string) (fuel : nat) (size : Z)
    (ok : bool) :
  writable pow t -> u t <> "" ->
  0 <= size -> size + value pow t < pow ^ 6 ->
  last_plain (render t ++ rest) ->
  parse_loop (S fuel) unit size ok (render t ++ rest)
  = parse_loop fuel unit (size + value pow t) true rest.
Proof.
  intros Hw Hne Hsize Hlt Hlast.
  pose proof (writable_letter t Hw Hne) as Hl.
  destruct Hw as (_ & Hn & _ & Hb). specialize (Hb Hne).
  destruct (Itoa_digits (n t) Hn) as [Hd _].
  destruct (Itoa_first_plain (n t) Hn) as (c & r & Hc & Hpl).
  assert (Hv : n t * pow ^ rank (u t) < pow ^ 6) by (unfold value in Hlt; lia).
  destruct (unit_ok (u t) (n t) Hl Hb Hv) as (a & e & Hlook & Ha & He & Hae & Hca).
  assert (Htrim : TrimSpace (render t ++ rest) = render t ++ rest).
  { unfold render in *. rewrite Hc in *. cbn [append] in *.
    apply TrimSpace_plain; assumption. }
  cbn [parse_loop]. rewrite Htrim.
  unfold render at 1. rewrite append_assoc.
  rewrite (sizeRE_term _ _ _ Hd (Itoa_nonempty _) Hl). cbn [m0 m1 m2].
  assert (Hn53 : 0 < n t < 2 ^ 53) by nia.
  rewrite (ParseFloat_Itoa _ Hn53), Hlook.
  rewrite mul_flt by lia.
  assert (Hval : n t * a * 2 ^ (0 + e) = value pow t).
  { unfold value. rewrite <- Hae. cbn [Z.add]. ring. }
  rewrite to_int_flt; [|nia|lia|rewrite Hval; lia].
  rewrite Hval.
  pose proof (pow_rank_pos pow pow_pos (u t)).
  rewrite wrap64_id by (unfold min_int; unfold value in *; nia).
  fold (render t). rewrite drop_app. reflexivity.
Qed.

(** The terms of [unparse], joined, parse to the sum of their values. *)
Lemma parse_loop_terms (ts : list term) :
  forall (fuel : nat) (size : Z) (ok : bool),
    ts <> [] -> desc ts -> Forall (writable pow) ts ->
    0 <= size -> size + total pow ts < pow ^ 6 ->
    (String.length (Join (map render ts) " ") < fuel)%nat ->
    parse_loop fuel unit size ok (Join (map render ts) " ")
    = (size + total pow ts, None).
Proof.
  induction ts as [|t ts IH]; intros fuel size ok Hne Hd Hf Hsize Hlt Hfuel;
    [congruence|].
  apply Forall_cons_iff in Hf as [Hw Hf].
  pose proof (writable_value t Hw) as Hvt.
  pose proof (writable_total ts Hf) as Hts.
  change (total pow (t :: ts)) with (value pow t + total pow ts) in *.
  assert (Hall : Forall (fun t => 0 <= n t /\ In (u t) labels) (t :: ts)).
  { constructor; [unfold writable in Hw; tauto|].
    eapply Forall_impl; [|exact Hf]. unfold writable; tauto. }
  pose proof (Join_last_plain (t :: ts) Hne Hall) as Hlast.
  destruct fuel as [|fuel]; [lia|].
  destruct (string_dec (u t) "") as [Hu|Hu].
  - (* the bare number: the last term *)
    assert (ts = []) as ->.
    { destruct ts as [|t' ts']; [reflexivity|]. exfalso.
      inversion Hd as [|? ? _ Hall']; subst.
      apply Forall_inv in Hall'. rewrite Hu in Hall'.
      pose proof (rank_range (u t')). change (rank "") with 0 in Hall'. lia. }
    cbn [map Join] in *. unfold render in *. rewrite Hu, append_empty_r in *.
    destruct Hw as (_ & Hn & _ & _).
    destruct (Itoa_digits (n t) Hn) as [Hdig _].
    destruct (Itoa_first_plain (n t) Hn) as (c & r & Hc & Hpl).
    assert (Htrim : TrimSpace (Itoa (n t)) = Itoa (n t)).
    { rewrite Hc in *. apply TrimSpace_plain; assumption. }
    cbn [parse_loop]. rewrite !Htrim, (sizeRE_digits _ Hdig).
    rewrite Hc at 1. cbn [String.eqb negb].
    rewrite Atoi_Itoa by (unfold value in *; rewrite Hu in *;
                          change (rank "") with 0 in *; lia).
    unfold value. rewrite Hu. change (pow ^ rank "") with 1.
    cbn [total fold_right] in *.
    rewrite wrap64_id by (unfold min_int; unfold value in *; rewrite Hu in *;
                          change (rank "") with 0 in *; lia).
    f_equal. lia.
  - destruct ts as [|t' ts'].
    + cbn [map Join] in *. change (total pow []) with 0 in *.
      rewrite <- (append_empty_r (render t)) in Hlast |- *.
      rewrite parse_loop_term; try assumption.
      2:{ lia. }
      rewrite parse_loop_end. f_equal. lia.
    + cbn [map] in *. rewrite Join_cons in * by discriminate.
      rewrite parse_loop_term; try assumption; [|lia].
      rewrite (parse_loop_trim _ _ _ _ _ (Join (render t' :: map render ts') " "))
        by reflexivity.
      inversion Hd; subst.
      rewrite (IH fuel (size + value pow t) true); try assumption;
        try discriminate; try lia.
      * f_equal. lia.
      * rewrite (length_append (render t)), (length_append " ") in Hfuel.
        change (String.length " ") with 1%nat in Hfuel. lia.
Qed.

End RoundTrip.

(** Closes the facts of one unit of a table, at the multiplier
    [a * 2^t]. *)
Ltac unit_entry a t :=
  exists a, t;
  split; [vm_compute; reflexivity|];
  split; [lia|]; split; [lia|];
  split; [vm_compute; reflexivity|];
  match goal with
  | H : _ * _ ^ rank ?l < _ |- _ =>
      let r := eval vm_compute in (rank l) in
      change (rank l) with r in H
  end; lia.

Lemma units2_ok (l : string) (c : Z) :
  In l letters -> 0 < c < 1024 * 1024 -> c * 1024 ^ rank l < 1024 ^ 6 ->
  exists a t, lookup units2 (ToLower l) = Some (flt a t)
              /\ 0 < a /\ 0 <= t <= 60
              /\ a * 2 ^ t = 1024 ^ rank l /\ c * a < 2 ^ 53.
Proof.
  intros Hl Hc Hv.
  destruct Hl as [<-|[<-|[<-|[<-|[<-|[]]]]]].
  - unit_entry 1 10.
  - unit_entry 1 20.
  - unit_entry 1 30.
  - unit_entry 1 40.
  - unit_entry 1 50.
Qed.

Lemma units10_ok (l : string) (c : Z) :
  In l letters -> 0 < c < 1000 * 1000 -> c * 1000 ^ rank l < 1000 ^ 6 ->
  exists a t, lookup units10 (ToLower l) = Some (flt a t)
              /\ 0 < a /\ 0 <= t <= 60
              /\ a * 2 ^ t = 1000 ^ rank l /\ c * a < 2 ^ 53.
Proof.
  intros Hl Hc Hv.
  destruct Hl as [<-|[<-|[<-|[<-|[<-|[]]]]]].
  - unit_entry (5 ^ 3) 3.
  - unit_entry (5 ^ 6) 6.
  - unit_entry (5 ^ 9) 9.
  - unit_entry (5 ^ 12) 12.
  - unit_entry (5 ^ 15) 15.
Qed.

(** A number from 0 to [pow^6 - 1] is the value of its rendering, in both
    bases. *)
Lemma parse_unparse_below (q pow : Z) (mult : list Z) (unit : units) :
  (pow = 1024 /\ mult = mult2 /\ unit = units2)
  \/ (pow = 1000 /\ mult = mult10 /\ unit = units10) ->
  0 <= q < pow ^ 6 ->
  parse (unparse q pow mult) unit = (q, None).
Proof.
  intros Hbase Hq.
  assert (H : 1 < pow /\ pow * pow <= max_int /\ pow ^ 6 <= max_int
              /\ mult = pows pow 6
              /\ forall l c, In l letters -> 0 < c < pow * pow ->
                   c * pow ^ rank l < pow ^ 6 ->
                   exists a t, lookup unit (ToLower l) = Some (flt a t)
                               /\ 0 < a /\ 0 <= t <= 60
                               /\ a * 2 ^ t = pow ^ rank l /\ c * a < 2 ^ 53).
  { destruct Hbase as [(-> & -> & ->)|(-> & -> & ->)];
      (split; [lia|]); (split; [vm_compute; discriminate|]);
      (split; [vm_compute; discriminate|]); (split; [reflexivity|]).
    - apply units2_ok.
    - apply units10_ok. }
  destruct H as (Hpow & Hsmall & Hp6 & -> & Hok).
  destruct (unparse_terms_inv pow Hpow q ltac:(lia)) as (Ht & Hd & Hl & H0 & _).
  pose proof (unparse_terms_below pow Hpow Hsmall q Hq ltac:(lia)) as Hb.
  unfold parse, unparse.
  set (ts := unparse_terms q pow (pows pow 6)) in *.
  assert (Hw : Forall (writable pow) ts).
  { rewrite Forall_forall in *. intros t Hin.
    specialize (Hl t Hin). specialize (Hb t Hin). unfold writable. tauto. }
  assert (Hne : ts <> []).
  { intro E. rewrite E in Ht. cbn in Ht. subst q.
    specialize (H0 eq_refl). congruence. }
  rewrite (parse_loop_terms pow unit Hpow Hp6 Hok ts); try assumption; try lia.
  f_equal. lia.
Qed.

(** X1.  The round trip below the unit E: in both bases, a number from 0 to
    [pow^6 - 1] is rendered as a text that [parse] reads back as that
    number. *)
Theorem round_trip_below_E (q pow : Z) (mult : list Z) (unit : units) :
  (pow = 1024 /\ mult = mult2 /\ unit = units2)
  \/ (pow = 1000 /\ mult = mult10 /\ unit = units10) ->
  0 <= q < pow ^ 6 ->
  parse (unparse q pow mult) unit = (q, None).
Proof. exact (parse_unparse_below q pow mult unit). Qed.

(** The round trip at the number 1027 * 1024 of the tests, in base 2. *)
Lemma round_trip_below_E_example :
  0 <= 1027 * ki < 1024 ^ 6
  /\ unparse (1027 * ki) 1024 mult2 = "1027K"
  /\ parse (unparse (1027 * ki) 1024 mult2) units2 = (1027 * ki, None).
Proof.
  split; [vm_compute; split; [discriminate | reflexivity]|].
  split; [vm_compute; reflexivity|].
  apply (round_trip_below_E (1027 * ki) 1024 mult2 units2).
  - left; repeat split.
  - vm_compute; split; [discriminate | reflexivity].
Defined.

(** ** The tests of the package *)

(** The table of [TestSet]: the text, and the value in each base. *)
Lemma TestSet_table :
  Forall (fun t : string * Z * Z =>
            let '(s, want2, want10) := t in
            Value2_Set 0 s = (want2, None) /\ Value10_Set 0 s = (want10, None))
    [("0", 0, 0); ("1", 1, 1); ("12345678", 12345678, 12345678);
     ("0.5k", 512, 500); ("2.3K", 2355, 2300); ("1.2m", 1258291, 1200000);
     ("3.7P", 4165829655317709, 3700000000000000);
     ("0.25p", 1 * pi / 4, 1 * pd / 4);
     ("0K00m0", 0, 0); ("1k1k1k", 3 * 1024, 3 * 1000);
     ("2K15", 2063, 2015); ("2k15", 2063, 2015);
     ("1.7M0.3K", 1782886, 1700300); ("3m2.5k17", 3148305, 3002517);
     ("2k 100", 100 + 2 * ki, 2100); ("2k100", 100 + 2 * ki, 2100);
     ("1k 1k 100", 100 + 2 * ki, 2100);
     (" 123 ", 123, 123); ("1.4M 2K 17", 1470071, 1402017);
     (LF ++ TAB ++ "2.1k" ++ LF ++ CR ++ TAB ++ " 11 " ++ TAB, 2161, 2111)].
Proof. repeat constructor. Qed.

(** The values of [TestRoundTrip] below the unit E. *)
Lemma TestRoundTrip_table :
  Forall (fun v : Z =>
            parse (unparse v 1024 mult2) units2 = (v, None)
            /\ parse (unparse v 1000 mult10) units10 = (v, None))
    [0; 1; 2; 3; 7; 8; 11; 16; 100; 1023; 1024; 1025; 1597; 2584; 8192; 16384;
     1 * ki; 3 * (ki / 2); 2 * ki; 1027 * ki; mi; mi + 5; 1500 * mi; gi;
     ti; ti + 2 * gi + 3 * mi + 7; 3 * (ti / 4); 1 * pi + 32 * ki].
Proof. repeat constructor. Qed.

(** The letter case of a unit is ignored, the Kelvin sign being a k; white
    space of two and three bytes is trimmed like the space. *)
Lemma parse_folding_and_space :
  parse "3m" units2 = parse "3M" units2
  /\ parse ("1" ++ KELVIN) units2 = (1024, None)
  /\ parse (String (byte 194) (String (byte 160) "7k")) units10 = (7000, None)
  /\ parse ("7k" ++ String (byte 226) (String (byte 128) (String (byte 131) "")))
       units10 = (7000, None).
Proof. repeat split; vm_compute; reflexivity. Qed.

(** A number too large for a [float64] is an error of [ParseFloat], met
    before the unit is looked up: the total is then 0 and the error names the
    size, whatever the unit. *)
Lemma parse_number_out_of_range :
  ParseFloat ("1" ++ zeros 309) = None
  /\ parse ("1k1" ++ zeros 309 ++ "b") units2
     = (0, Some (InvalidSize ("1" ++ zeros 309 ++ "b"))).
Proof. split; vm_compute; reflexivity. Qed.

(** ** The terms of a text under [parse] *)

Lemma wrap64_add_l (a b : Z) : wrap64 (wrap64 a + b) = wrap64 (a + b).
Proof.
  unfold wrap64.
  replace ((a + 2 ^ 63) mod 2 ^ 64 - 2 ^ 63 + b + 2 ^ 63)
    with ((a + 2 ^ 63) mod 2 ^ 64 + b) by ring.
  rewrite Z.add_mod_idemp_l by discriminate.
  replace (a + 2 ^ 63 + b) with (a + b + 2 ^ 63) by ring. reflexivity.
Qed.

Lemma wrap64_idem (a : Z) : wrap64 (wrap64 a) = wrap64 a.
Proof.
  transitivity (wrap64 (wrap64 a + 0)); [f_equal; lia|].
  rewrite wrap64_add_l. f_equal. lia.
Qed.

Lemma wrap64_shift (a x d : Z) :
  wrap64 (wrap64 (a + d) + x) = wrap64 (wrap64 (a + x) + d).
Proof. rewrite !wrap64_add_l. f_equal. lia. Qed.

(** A loop that succeeds from the total [a] succeeds from [a + d], with a
    result greater by [d]. *)
Lemma parse_loop_shift (unit : units) (d : Z) (fuel : nat) :
  forall (a : Z) (ok ok' : bool) (s : string) (v : Z),
    (ok = true -> ok' = true) ->
    parse_loop fuel unit a ok s = (v, None) ->
    parse_loop fuel unit (wrap64 (a + d)) ok' s = (wrap64 (v + d), None).
Proof.
  assert (Hafter : forall (a : Z) (ok ok' : bool) (t : string) (v : Z),
    (ok = true -> ok' = true) ->
    (if negb (String.eqb t "")
     then match Atoi t with
          | None => (0, Some (InvalidSize t))
          | Some x => (wrap64 (a + x), None)
          end
     else if negb ok then (0, Some (InvalidSize t)) else (a, None))
    = (v, None) ->
    (if negb (String.eqb t "")
     then match Atoi t with
          | None => (0, Some (InvalidSize t))
          | Some x => (wrap64 (wrap64 (a + d) + x), None)
          end
     else if negb ok' then (0, Some (InvalidSize t))
          else (wrap64 (a + d), None))
    = (wrap64 (v + d), None)).
  { intros a ok ok' t v Hok.
    destruct (negb (String.eqb t "")).
    - destruct (Atoi t) as [x|]; [|discriminate].
      intros [= <-]. rewrite wrap64_shift. reflexivity.
    - destruct ok; [|discriminate]. rewrite (Hok eq_refl). cbn [negb].
      intros [= <-]. reflexivity. }
  induction fuel as [|fuel IH]; intros a ok ok' s v Hok; cbn [parse_loop].
  - destruct (sizeRE (TrimSpace s)); apply Hafter; assumption.
  - destruct (sizeRE (TrimSpace s)) as [m|]; [|apply Hafter; assumption].
    destruct (ParseFloat (m1 m)); [|discriminate].
    destruct (lookup unit (ToLower (m2 m))); [|discriminate].
    intro H. rewrite wrap64_shift. apply (IH _ true true); [tauto | exact H].
Qed.

(** The conversion [int(x)] of a number with a floor in the non-negative
    range of [int] is that floor. *)
Lemma to_int_floor (x : float64) (z : Z) :
  is_floor x z = true -> 0 <= z <= max_int -> to_int x = z.
Proof.
  intros Hf Hz.
  assert (Hin : in_int z = true).
  { unfold in_int. apply andb_true_iff. split; apply Z.leb_le;
      unfold min_int; lia. }
  destruct x as [s| | |s m e]; cbn [is_floor] in Hf; try discriminate.
  - apply Z.eqb_eq in Hf. subst z. reflexivity.
  - apply andb_true_iff in Hf as [Hlo Hhi].
    apply Z.leb_le in Hlo. apply Z.ltb_lt in Hhi.
    assert (Hd : 0 < 2 ^ Z.max 0 (- e)) by (apply Z.pow_pos_nonneg; lia).
    assert (Hn : 0 < 2 ^ Z.max 0 e) by (apply Z.pow_pos_nonneg; lia).
    destruct s.
    { exfalso. assert (Z.neg m * 2 ^ Z.max 0 e < 0) by nia. nia. }
    assert (Ht : trunc (S754_finite false m e) = Some z).
    { unfold trunc. f_equal. destruct e as [|p|p].
      - rewrite Z.shiftl_0_r. change (- 0) with 0 in *.
        change (Z.max 0 0) with 0 in *. change (2 ^ 0) with 1 in *. lia.
      - rewrite Z.shiftl_mul_pow2 by lia.
        rewrite (Z.max_r 0 (Z.pos p)) in Hlo, Hhi by lia.
        rewrite (Z.max_l 0 (- Z.pos p)) in Hlo, Hhi by lia.
        change (2 ^ 0) with 1 in *. lia.
      - rewrite Z.shiftr_div_pow2 by lia.
        rewrite (Z.max_l 0 (Z.neg p)) in Hlo, Hhi by lia.
        rewrite (Z.max_r 0 (- Z.neg p)) in Hlo, Hhi by lia.
        change (- Z.neg p) with (Z.pos p) in *.
        change (2 ^ 0) with 1 in *.
        symmetry. apply (Z.div_unique_pos _ _ z (Z.pos m - z * 2 ^ Z.pos p)); lia. }
    unfold to_int. rewrite Ht, Hin. reflexivity.
Qed.

(** The loop of [parse] over the first [k] terms of the text: each turn adds
    the floor of the product of its term to the total. *)
Lemma parse_loop_products (unit : units) (k : nat) :
  forall (fuel : nat) (size : Z) (ok : bool) (s s' : string)
         (xs : list float64) (zs : list Z),
    term_products k unit s = Some (xs, s') ->
    Forall2 (fun x z => is_floor x z = true /\ 0 <= z <= max_int) xs zs ->
    wrap64 size = size ->
    (String.length s < fuel)%nat ->
    exists fuel' : nat,
      (String.length s' < fuel')%nat
      /\ parse_loop fuel unit size ok s
         = parse_loop fuel' unit (wrap64 (size + sum_ints zs))
             (ok || negb (Nat.eqb k 0)) s'.
Proof.
  induction k as [|k IH]; intros fuel size ok s s' xs zs Hp Hz Hsize Hf.
  - injection Hp as <- <-. inversion Hz; subst. exists fuel.
    split; [assumption|].
    cbn [sum_ints fold_right Nat.eqb negb]. rewrite Z.add_0_r, Hsize, orb_false_r.
    reflexivity.
  - cbn [term_products] in Hp.
    destruct fuel as [|fuel]; [lia|].
    cbn [parse_loop].
    destruct (sizeRE (TrimSpace s)) as [m|] eqn:Hre; [|discriminate].
    destruct (ParseFloat (m1 m)) as [v|]; [|discriminate].
    destruct (lookup unit (ToLower (m2 m))) as [mul|]; [|discriminate].
    destruct (term_products k unit _) as [[xs' t]|] eqn:Hrest; [|discriminate].
    injection Hp as <- <-.
    inversion Hz as [|x z xs0 zs' [Hfl Hrange] Hz']; subst.
    rewrite (to_int_floor _ _ Hfl Hrange).
    pose proof (sizeRE_length _ _ Hre) as [Hm0 Hs].
    pose proof (length_TrimSpace s).
    destruct (IH fuel (wrap64 (size + z)) true _ _ _ _ Hrest Hz'
                (wrap64_idem _)) as (fuel' & Hlen & ->).
    { rewrite length_drop; lia. }
    exists fuel'. split; [assumption|].
    cbn [sum_ints fold_right Nat.eqb negb]. rewrite wrap64_add_l, orb_true_r.
    cbn [orb]. do 2 f_equal. fold (sum_ints zs'). lia.
Qed.

(** ** Properties *)

(** C1.  The round trip fails where the rendering uses the unit E: the
    number 2^60 is rendered "1E" in base 2, and 10^18 is rendered "1E" in
    base 10; [parse] rejects that text in both bases.  The renderer is
    documented to reverse the grammar of [parse]. *)
Theorem round_trip_fails_at_E :
  unparse ei 1024 mult2 = "1E"
  /\ parse (unparse ei 1024 mult2) units2 = (0, Some (InvalidSize "1E"))
  /\ unparse ed 1000 mult10 = "1E"
  /\ parse (unparse ed 1000 mult10) units10 = (0, Some (InvalidSize "1E")).
Proof. repeat split; vm_compute; reflexivity. Qed.

(** C2.  A term with the unit letter e is not accepted: the pattern has no
    match on "1e" or "1E", and [parse] answers an error in both bases, though
    both tables hold a multiplier for e, 1024^6 and 1000^6. *)
Theorem unit_e_rejected :
  sizeRE "1e" = None /\ sizeRE "1E" = None
  /\ parse "1e" units2 = (0, Some (InvalidSize "1e"))
  /\ parse "1E" units2 = (0, Some (InvalidSize "1E"))
  /\ parse "1e" units10 = (0, Some (InvalidSize "1e"))
  /\ parse "1E" units10 = (0, Some (InvalidSize "1E"))
  /\ lookup units2 "e" = Some (of_int (1024 ^ 6))
  /\ lookup units10 "e" = Some (of_int (1000 ^ 6)).
Proof. repeat split; vm_compute; reflexivity. Qed.

(** C3.  [parse] succeeds with a negative number on "-5", and with a total
    made smaller by the signed rest on "2k-3": the rest of the text after the
    terms is read by [Atoi], which takes a sign. *)
Theorem parse_signed_rest :
  parse "-5" units2 = (-5, None)
  /\ parse "-5" units10 = (-5, None)
  /\ parse "2k-3" units2 = (2045, None)
  /\ parse "2k-3" units10 = (1997, None)
  /\ parse "2k" units2 = (2048, None).
Proof. repeat split; vm_compute; reflexivity. Qed.

(** C4, as the code has it.  Every matched term is made an integer on its
    own, before the sum: its number is read as a [float64] and multiplied,
    in [float64], by the multiplier of its unit, and the total grows by this
    product rounded toward negative infinity, for a product from 0 to the
    largest [int].  So when a text starts with [k] terms whose products
    have the floors [zs], and what follows them parses to [r] or is blank,
    the text parses to the sum of [zs] and [r], as an [int]. *)
Theorem per_term_rounding (unit : units) (k : nat) (s s' : string)
    (xs : list float64) (zs : list Z) (r : Z) :
  term_products k unit s = Some (xs, s') ->
  Forall2 (fun x z => is_floor x z = true /\ 0 <= z <= max_int) xs zs ->
  parse s' unit = (r, None) \/ (k <> O /\ TrimSpace s' = "" /\ r = 0) ->
  parse s unit = (wrap64 (sum_ints zs + r), None).
Proof.
  intros Hp Hz Hrest. unfold parse in *.
  destruct (parse_loop_products unit k (S (String.length s)) 0 false s s'
              xs zs Hp Hz eq_refl (Nat.lt_succ_diag_r _))
    as (fuel' & Hlen & ->).
  cbn [Z.add orb].
  destruct Hrest as [Hr|(Hk & Hblank & ->)].
  - rewrite (parse_loop_fuel unit fuel' (S (String.length s'))) by lia.
    pose proof (parse_loop_shift unit (sum_ints zs) _ 0 false
                  (negb (Nat.eqb k 0)) s' r ltac:(discriminate) Hr) as H.
    cbn [Z.add] in H. rewrite H. do 2 f_equal. lia.
  - destruct k as [|k]; [congruence|]. cbn [Nat.eqb negb].
    rewrite (parse_loop_trim _ _ _ _ s' "") by exact Hblank.
    rewrite parse_loop_end, Z.add_0_r. reflexivity.
Qed.

(** The texts "1.7M0.3K", of the terms 1782579 and 307, "0.25p", a quarter
    of 2^50, "3.7P", and "2K15", a term before a number, in base 2. *)
Lemma per_term_rounding_witness :
  (exists xs,
      term_products 2 units2 "1.7M0.3K" = Some (xs, "")
      /\ Forall2 (fun x z => is_floor x z = true /\ 0 <= z <= max_int)
           xs [1782579; 307])
  /\ parse "1.7M0.3K" units2 = (1782886, None)
  /\ parse "0.25p" units2 = (281474976710656, None)
  /\ 4 * 281474976710656 = 2 ^ 50
  /\ parse "3.7P" units2 = (4165829655317709, None)
  /\ parse "2K15" units2 = (2063, None).
Proof.
  assert (H1 : exists xs,
             term_products 2 units2 "1.7M0.3K" = Some (xs, "")
             /\ Forall2 (fun x z => is_floor x z = true /\ 0 <= z <= max_int)
                  xs [1782579; 307]).
  { let v := eval vm_compute in (term_products 2 units2 "1.7M0.3K") in
    match v with Some (?xs, _) => exists xs end.
    split; [vm_compute; reflexivity|].
    repeat constructor; vm_compute; (reflexivity || discriminate). }
  assert (H2 : exists xs,
             term_products 1 units2 "0.25p" = Some (xs, "")
             /\ Forall2 (fun x z => is_floor x z = true /\ 0 <= z <= max_int)
                  xs [281474976710656]).
  { let v := eval vm_compute in (term_products 1 units2 "0.25p") in
    match v with Some (?xs, _) => exists xs end.
    split; [vm_compute; reflexivity|].
    repeat constructor; vm_compute; (reflexivity || discriminate). }
  assert (H3 : exists xs,
             term_products 1 units2 "3.7P" = Some (xs, "")
             /\ Forall2 (fun x z => is_floor x z = true /\ 0 <= z <= max_int)
                  xs [4165829655317709]).
  { let v := eval vm_compute in (term_products 1 units2 "3.7P") in
    match v with Some (?xs, _) => exists xs end.
    split; [vm_compute; reflexivity|].
    repeat constructor; vm_compute; (reflexivity || discriminate). }
  split; [exact H1|].
  destruct H1 as (xs1 & Hp1 & Hz1), H2 as (xs2 & Hp2 & Hz2),
           H3 as (xs3 & Hp3 & Hz3).
  split.
  { apply (per_term_rounding units2 2 "1.7M0.3K" "" xs1 [1782579; 307] 0
             Hp1 Hz1).
    right. split; [discriminate | split; reflexivity]. }
  split.
  { apply (per_term_rounding units2 1 "0.25p" "" xs2 [281474976710656] 0
             Hp2 Hz2).
    right. split; [discriminate | split; reflexivity]. }
  split; [vm_compute; reflexivity|].
  split.
  { apply (per_term_rounding units2 1 "3.7P" "" xs3 [4165829655317709] 0
             Hp3 Hz3).
    right. split; [discriminate | split; reflexivity]. }
  assert (H4 : exists xs,
             term_products 1 units2 "2K15" = Some (xs, "15")
             /\ Forall2 (fun x z => is_floor x z = true /\ 0 <= z <= max_int)
                  xs [2048]).
  { let v := eval vm_compute in (term_products 1 units2 "2K15") in
    match v with Some (?xs, _) => exists xs end.
    split; [vm_compute; reflexivity|].
    repeat constructor; vm_compute; (reflexivity || discriminate). }
  destruct H4 as (xs4 & Hp4 & Hz4).
  apply (per_term_rounding units2 1 "2K15" "15" xs4 [2048] 15 Hp4 Hz4).
  left. vm_compute; reflexivity.
Defined.

(** C4, as stated, fails: what is rounded down is the [float64] product, not
    the product of the decimal number.  In base 2 the text "3.7P" is
    4165829655317709, and 3.7 * 2^50 rounded toward negative infinity is
    4165829655317708. *)
Lemma parse_3_7P_not_floor :
  fst (parse "3.7P" units2) <> 37 * 2 ^ 50 / 10.
Proof. vm_compute; discriminate. Qed.

(** C5.  Each of the ten rejected texts is an error of [parse] in both bases,
    and an error of [Set] on every flag value. *)
Theorem rejection_set :
  Forall (fun s : string =>
            snd (parse s units2) <> None
            /\ snd (parse s units10) <> None
            /\ forall v : Z,
                 snd (Value2_Set v s) <> None /\ snd (Value10_Set v s) <> None)
    rejected.
Proof.
  repeat constructor; try (vm_compute; discriminate);
    unfold Value2_Set, Value10_Set;
    match goal with
    | |- context [parse ?s ?t] =>
        let r := eval vm_compute in (parse s t) in
        replace (parse s t) with r by (vm_compute; reflexivity)
    end; discriminate.
Qed.

(** C6, as the code has it.  In base 2 the number 1 * P + 1 * T, that is
    2^50 + 2^40, is rendered as the single term "1025T"; the number
    1 * P + 1024 * T is 2 * P, and is rendered "2P". *)
Theorem carry_combination :
  unparse (1 * pi + 1 * ti) 1024 mult2 = "1025T"
  /\ 1 * pi + 1 * ti = 2 ^ 50 + 2 ^ 40
  /\ 1 * pi + 1024 * ti = 2 * pi
  /\ unparse (1 * pi + 1024 * ti) 1024 mult2 = "2P".
Proof. repeat split; vm_compute; reflexivity. Qed.

(** C6, as stated, fails: 1 * P + 1024 * T is not rendered "1025T". *)
Lemma carry_1P_1024T_not_1025T :
  unparse (1 * pi + 1024 * ti) 1024 mult2 <> "1025T".
Proof. vm_compute; discriminate. Qed.

(** C7.  The text "2.3K" is 2300 in base 10 and 2355 in base 2. *)
Theorem cross_base :
  parse "2.3K" units10 = (2300, None) /\ parse "2.3K" units2 = (2355, None).
Proof. split; vm_compute; reflexivity. Qed.

(** C8.  [Set] either succeeds and leaves in the cell the number [parse]
    returns, or returns the error of [parse] and leaves the cell as it was;
    for both flag values. *)
Theorem Set_stores_or_keeps (v : Z) (s : string) :
  ((exists z, parse s units2 = (z, None) /\ Value2_Set v s = (z, None))
   \/ (exists z e, parse s units2 = (z, Some e)
                   /\ Value2_Set v s = (v, Some e)))
  /\ ((exists z, parse s units10 = (z, None) /\ Value10_Set v s = (z, None))
      \/ (exists z e, parse s units10 = (z, Some e)
                      /\ Value10_Set v s = (v, Some e))).
Proof.
  unfold Value2_Set, Value10_Set.
  destruct (parse s units2) as [z2 [e2|]], (parse s units10) as [z10 [e10|]];
    split; ((left; eexists; split; reflexivity)
            || (right; do 2 eexists; split; reflexivity)).
Qed.

(** C9, as the code has it.  In both bases, when [parse] has matched [k]
    terms of total [sum] and then matches a term whose number [ParseFloat]
    reads and whose unit letter is not in the table, it returns [sum] and
    the invalid-unit error of that letter; so "1k2b" in base 2 gives the
    total 1024 with the invalid-unit error of "b". *)
Theorem parse_invalid_unit :
  (forall (unit : units) (k : nat) (s s' : string) (sum : Z) (m : submatch)
          (v : float64),
      unit = units2 \/ unit = units10 ->
      match_terms k unit 0 s = Some (sum, s') ->
      sizeRE (TrimSpace s') = Some m ->
      ParseFloat (m1 m) = Some v ->
      lookup unit (ToLower (m2 m)) = None ->
      parse s unit = (sum, Some (InvalidUnit (m2 m))))
  /\ parse "1k2b" units2 = (1024, Some (InvalidUnit "b")).
Proof.
  split; [|vm_compute; reflexivity].
  intros unit k s s' sum m v _ Hk Hre Hv Hu.
  unfold parse.
  destruct (parse_loop_match_terms unit k (S (String.length s)) 0 false
              s s' sum Hk (Nat.lt_succ_diag_r _)) as (fuel' & ok' & Hf & ->).
  destruct fuel' as [|fuel']; [lia|].
  cbn [parse_loop]. rewrite Hre, Hv, Hu. reflexivity.
Qed.

Lemma parse_invalid_unit_witness :
  match_terms 1 units2 0 "1k2b" = Some (1024, "2b")
  /\ sizeRE (TrimSpace "2b") = Some (Submatch "2b" "2" "b")
  /\ parse "1k2b" units2 = (1024, Some (InvalidUnit "b")).
Proof.
  split; [vm_compute; reflexivity|].
  split; [vm_compute; reflexivity|].
  apply (proj1 parse_invalid_unit units2 1%nat "1k2b" "2b" 1024
           (Submatch "2b" "2" "b") (of_int 2)).
  - left; reflexivity.
  - vm_compute; reflexivity.
  - vm_compute; reflexivity.
  - vm_compute; reflexivity.
  - vm_compute; reflexivity.
Defined.

(** C9, as stated, fails: the total returned for "1k2b" in base 2 is not
    2048. *)
Lemma parse_1k2b_not_2048 : fst (parse "1k2b" units2) <> 2048.
Proof. vm_compute; discriminate. Qed.

(** C10.  For a number from 0 to the largest [int] and either base, the
    terms [unparse] renders have known labels, each at most once and in
    strictly descending order of rank, and positive coefficients, the number
    zero being the single term 0 without label, rendered "0"; the text is
    these terms, rendered without a space inside, joined by one space. *)
Theorem unparse_canonical (q pow : Z) (mult : list Z) :
  0 <= q <= max_int ->
  (pow = 1024 /\ mult = mult2) \/ (pow = 1000 /\ mult = mult10) ->
  let ts := unparse_terms q pow mult in
  desc ts
  /\ NoDup (map u ts)
  /\ Forall (fun t => In (u t) labels) ts
  /\ (q = 0 -> ts = [Term 0 ""] /\ unparse q pow mult = "0")
  /\ (0 < q -> Forall (fun t => 0 < n t) ts)
  /\ unparse q pow mult = Join (map render ts) " "
  /\ Forall (fun t => render t <> "" /\ no_space (render t) = true) ts.
Proof.
  intros Hq Hbase ts.
  assert (Hpow : 1 < pow /\ mult = pows pow 6).
  { destruct Hbase as [[-> ->]|[-> ->]]; split; (lia || reflexivity). }
  destruct Hpow as [Hpow ->].
  destruct (unparse_terms_inv pow Hpow q Hq) as (_ & Hd & Hl & H0 & Hp).
  fold ts in Hd, Hl, H0, Hp.
  repeat split; try assumption.
  - apply desc_NoDup; assumption.
  - apply H0; assumption.
  - unfold unparse. fold ts. rewrite (H0 H). reflexivity.
  - eapply Forall_impl; [|exact Hl]. apply render_no_space.
Qed.

Lemma unparse_canonical_witness :
  0 <= 1 * pi + 32 * ki <= max_int
  /\ unparse (1 * pi + 32 * ki) 1024 mult2 = "1P 32K"
  /\ let ts := unparse_terms (1 * pi + 32 * ki) 1024 mult2 in
     desc ts
     /\ NoDup (map u ts)
     /\ Forall (fun t => In (u t) labels) ts
     /\ (1 * pi + 32 * ki = 0 ->
         ts = [Term 0 ""] /\ unparse (1 * pi + 32 * ki) 1024 mult2 = "0")
     /\ (0 < 1 * pi + 32 * ki -> Forall (fun t => 0 < n t) ts)
     /\ unparse (1 * pi + 32 * ki) 1024 mult2 = Join (map render ts) " "
     /\ Forall (fun t => render t <> "" /\ no_space (render t) = true) ts.
Proof.
  split; [vm_compute; split; discriminate|].
  split; [vm_compute; reflexivity|].
  apply (unparse_canonical (1 * pi + 32 * ki) 1024 mult2).
  - vm_compute; split; discriminate.
  - left; split; reflexivity.
Defined.

(** * Further properties *)

(** ** Further properties of [parse] *)

(** Fuel beyond the length of the trimmed text changes nothing. *)
Lemma parse_loop_fuel_trim (unit : units) (f1 f2 : nat) (size : Z) (ok : bool)
    (s : string) :
  (String.length (TrimSpace s) < f1)%nat ->
  (String.length (TrimSpace s) < f2)%nat ->
  parse_loop f1 unit size ok s = parse_loop f2 unit size ok s.
Proof.
  intros H1 H2.
  destruct f1 as [|f1]; [lia|]. destruct f2 as [|f2]; [lia|].
  cbn [parse_loop].
  destruct (sizeRE (TrimSpace s)) as [m|] eqn:Hm; [|reflexivity].
  destruct (ParseFloat (m1 m)); [|reflexivity].
  destruct (lookup unit (ToLower (m2 m))); [|reflexivity].
  pose proof (sizeRE_length _ _ Hm) as [Hm0 Hs].
  apply parse_loop_fuel; rewrite length_drop; lia.
Qed.

(** X6.  [parse] reads its text through [TrimSpace] only: two texts that are
    the same once trimmed have the same result. *)
Theorem parse_TrimSpace (s s' : string) (unit : units) :
  TrimSpace s = TrimSpace s' -> parse s unit = parse s' unit.
Proof.
  intro H. unfold parse.
  rewrite (parse_loop_trim _ _ _ _ s s' H).
  pose proof (length_TrimSpace s) as Hs.
  pose proof (length_TrimSpace s') as Hs'.
  rewrite H in Hs. apply parse_loop_fuel_trim; lia.
Qed.

Lemma parse_TrimSpace_witness :
  TrimSpace (" 2k" ++ LF) = TrimSpace (TAB ++ "2k")
  /\ parse (" 2k" ++ LF) units2 = parse (TAB ++ "2k") units2.
Proof.
  split; [vm_compute; reflexivity|].
  apply (parse_TrimSpace (" 2k" ++ LF) (TAB ++ "2k") units2).
  vm_compute; reflexivity.
Defined.

(** X7.  A text of white space only, the empty text among them, is an invalid
    size, in every base. *)
Theorem parse_blank (s : string) (unit : units) :
  TrimSpace s = "" -> parse s unit = (0, Some (InvalidSize "")).
Proof.
  intro H. unfold parse. cbn [parse_loop]. rewrite H. reflexivity.
Qed.

Lemma parse_blank_witness :
  TrimSpace (" " ++ TAB ++ LF) = ""
  /\ parse (" " ++ TAB ++ LF) units10 = (0, Some (InvalidSize "")).
Proof.
  split; [vm_compute; reflexivity|].
  apply (parse_blank (" " ++ TAB ++ LF) units10). vm_compute; reflexivity.
Defined.

Lemma parse_loop_invalid_size (unit : units) (fuel : nat) :
  forall (size : Z) (ok : bool) (s x : string) (z : Z),
    parse_loop fuel unit size ok s = (z, Some (InvalidSize x)) -> z = 0.
Proof.
  induction fuel as [|fuel IH]; intros size ok s x z; cbn [parse_loop].
  - destruct (sizeRE (TrimSpace s));
      (destruct (negb (String.eqb (TrimSpace (TrimSpace s)) ""));
       [destruct (Atoi (TrimSpace (TrimSpace s))) | destruct (negb ok)]);
      intro H; congruence.
  - destruct (sizeRE (TrimSpace s)) as [m|].
    + destruct (ParseFloat (m1 m)); [|intro H; congruence].
      destruct (lookup unit (ToLower (m2 m))); [apply IH | intro H; congruence].
    + (destruct (negb (String.eqb (TrimSpace (TrimSpace s)) ""));
       [destruct (Atoi (TrimSpace (TrimSpace s))) | destruct (negb ok)]);
      intro H; congruence.
Qed.

(** X11.  An invalid-size error never comes with a partial total: the number
    returned with it is 0. *)
Theorem parse_invalid_size_zero (s x : string) (unit : units) (z : Z) :
  parse s unit = (z, Some (InvalidSize x)) -> z = 0.
Proof. apply parse_loop_invalid_size. Qed.

Lemma parse_invalid_size_zero_witness :
  parse "3k17kk" units2 = (0, Some (InvalidSize "k")) /\ 0 = 0.
Proof.
  assert (H : parse "3k17kk" units2 = (0, Some (InvalidSize "k")))
    by (vm_compute; reflexivity).
  split; [exact H|].
  symmetry. exact (parse_invalid_size_zero "3k17kk" "k" units2 0 H).
Defined.

Lemma digits_val_lower (d : string) :
  forall acc : Z, 0 <= acc -> all_digits d = true -> acc <= digits_val acc d.
Proof.
  induction d as [|c d IH]; intros acc Hacc Hd;
    cbn [all_digits digits_val] in *; [lia|].
  apply andb_true_iff in Hd as [Hc Hd].
  unfold is_digit in Hc. apply andb_true_iff in Hc as [H1 H2].
  apply Z.leb_le in H1, H2.
  assert (0 <= 10 * acc + digit_val c) by (unfold digit_val; lia).
  specialize (IH _ H Hd). unfold digit_val in *. lia.
Qed.

Lemma TrimSpace_digits (d : string) :
  all_digits d = true -> d <> "" -> TrimSpace d = d.
Proof.
  intros Hd Hne. pose proof (digits_last_plain d Hd Hne) as Hlast.
  destruct d as [|c r]; [congruence|].
  apply TrimSpace_plain; [apply digit_plain|assumption].
  simpl in Hd. apply andb_true_iff in Hd; tauto.
Qed.

Lemma Atoi_digits (d : string) :
  all_digits d = true -> d <> "" ->
  Atoi d = if digits_val 0 d <=? max_int then Some (digits_val 0 d) else None.
Proof.
  intros Hd Hne.
  pose proof (digits_val_lower d 0 ltac:(lia) Hd) as Hv.
  destruct d as [|c r]; [congruence|].
  assert (Hc : is_digit c = true)
    by (cbn [all_digits] in Hd; apply andb_true_iff in Hd; tauto).
  unfold is_digit in Hc. apply andb_true_iff in Hc as [H1 H2].
  apply Z.leb_le in H1, H2.
  unfold Atoi.
  replace (code c =? 45) with false by (symmetry; apply Z.eqb_neq; lia).
  replace (code c =? 43) with false by (symmetry; apply Z.eqb_neq; lia).
  rewrite Hd. unfold in_int, min_int.
  replace (- 2 ^ 63 <=? digits_val 0 (String c r)) with true
    by (symmetry; apply Z.leb_le; lia).
  reflexivity.
Qed.

Lemma parse_all_digits (d : string) (unit : units) :
  all_digits d = true -> d <> "" ->
  parse d unit
  = if digits_val 0 d <=? max_int
    then (digits_val 0 d, None)
    else (0, Some (InvalidSize d)).
Proof.
  intros Hd Hne.
  pose proof (digits_val_lower d 0 ltac:(lia) Hd) as Hv.
  unfold parse. cbn [parse_loop].
  rewrite !(TrimSpace_digits d Hd Hne), (sizeRE_digits d Hd).
  replace (d =? "")%string with false
    by (symmetry; apply String.eqb_neq; assumption).
  cbn [negb]. rewrite (Atoi_digits d Hd Hne).
  destruct (digits_val 0 d <=? max_int) eqn:Hm; [|reflexivity].
  apply Z.leb_le in Hm.
  rewrite wrap64_id by (unfold min_int; lia). reflexivity.
Qed.

(** X8.  A text of decimal digits only is the number of units it writes, in
    every base, leading zeros allowed; beyond the largest [int] it is an
    invalid size. *)
Theorem parse_digits (d : string) (unit : units) :
  all_digits d = true -> d <> "" ->
  parse d unit
  = if digits_val 0 d <=? max_int
    then (digits_val 0 d, None)
    else (0, Some (InvalidSize d)).
Proof. exact (parse_all_digits d unit). Qed.

Lemma parse_digits_witness :
  parse "0042" units2 = (42, None)
  /\ parse "9223372036854775808" units10
     = (0, Some (InvalidSize "9223372036854775808")).
Proof.
  split.
  - apply (parse_digits "0042" units2); [reflexivity | discriminate].
  - apply (parse_digits "9223372036854775808" units10);
      [reflexivity | discriminate].
Defined.

(** ** Sums of terms *)

Lemma match_terms_wrapped (unit : units) (k : nat) :
  forall (a : Z) (s s' : string) (sum : Z),
    wrap64 a = a -> match_terms k unit a s = Some (sum, s') ->
    wrap64 sum = sum.
Proof.
  induction k as [|k IH]; intros a s s' sum Ha; cbn [match_terms].
  - intros [= <- <-]. exact Ha.
  - destruct (sizeRE (TrimSpace s)) as [m|]; [|discriminate].
    destruct (ParseFloat (m1 m)); [|discriminate].
    destruct (lookup unit (ToLower (m2 m))); [|discriminate].
    apply IH. apply wrap64_idem.
Qed.

(** X10.  Sizes written one after the other add up: when a text starts with
    [k] terms of total [sum] and what follows them parses to [v], the text
    parses to [sum + v], as an [int]. *)
Theorem parse_additive (unit : units) (k : nat) (s s' : string) (sum v : Z) :
  match_terms k unit 0 s = Some (sum, s') ->
  parse s' unit = (v, None) ->
  parse s unit = (wrap64 (sum + v), None).
Proof.
  intros Hk Hv. unfold parse in *.
  destruct (parse_loop_match_terms unit k (S (String.length s)) 0 false
              s s' sum Hk (Nat.lt_succ_diag_r _)) as (fuel' & ok' & Hf & ->).
  rewrite (parse_loop_fuel unit fuel' (S (String.length s'))) by lia.
  pose proof (parse_loop_shift unit sum _ 0 false ok' s' v
                ltac:(discriminate) Hv) as H.
  cbn [Z.add] in H.
  rewrite (match_terms_wrapped unit k 0 s s' sum eq_refl Hk) in H.
  rewrite H. do 2 f_equal. lia.
Qed.

Lemma parse_additive_witness :
  match_terms 2 units2 0 "3m2.5k17" = Some (3 * mi + 2560, "17")
  /\ parse "17" units2 = (17, None)
  /\ parse "3m2.5k17" units2 = (3148305, None).
Proof.
  split; [vm_compute; reflexivity|].
  split; [vm_compute; reflexivity|].
  apply (parse_additive units2 2 "3m2.5k17" "17" (3 * mi + 2560) 17);
    vm_compute; reflexivity.
Defined.

(** ** The units of the pattern and of the tables *)

Lemma byte_code (c : ascii) : byte (code c) = c.
Proof.
  unfold byte, code. rewrite N2Z.id. apply ascii_N_embedding.
Qed.

Lemma code_eq (c : ascii) (z : Z) : code c = z -> c = byte z.
Proof. intros <-. symmetry. apply byte_code. Qed.

(** The texts the second group of [sizeRE] can hold. *)
Lemma unit_class_cases (s l : string) :
  unit_class s = Some l ->
  In l ["b"; "k"; "m"; "g"; "t"; "p"; "B"; "K"; "M"; "G"; "T"; "P"; KELVIN].
Proof.
  unfold unit_class. destruct s as [|c1 r1]; [discriminate|].
  destruct (class_letter (code c1) || class_letter (code c1 + 32)) eqn:Hc.
  - intros [= <-]. unfold class_letter in Hc.
    repeat match type of Hc with
           | (_ || _) = true => apply orb_true_iff in Hc; destruct Hc as [Hc|Hc]
           end;
      apply Z.eqb_eq in Hc;
      match type of Hc with
      | code c1 = ?z => apply code_eq in Hc
      | code c1 + 32 = ?z =>
          assert (Hc' : code c1 = z - 32) by lia; apply code_eq in Hc'
      end; subst c1; cbn; tauto.
  - destruct r1 as [|c2 [|c3 r3]]; try discriminate.
    destruct ((code c1 =? 226) && (code c2 =? 132) && (code c3 =? 170)) eqn:Hk;
      [|discriminate].
    intros [= <-].
    apply andb_true_iff in Hk as [Hk H3]. apply andb_true_iff in Hk as [H1 H2].
    apply Z.eqb_eq in H1, H2, H3.
    apply code_eq in H1, H2, H3. subst. cbn. tauto.
Qed.

Lemma sizeRE_unit (s : string) (m : submatch) :
  sizeRE s = Some m -> exists r, unit_class r = Some (m2 m).
Proof.
  unfold sizeRE.
  destruct (span_digits s) as [[|d ds] r1]; [discriminate|].
  destruct (match fraction r1 with
            | Some (d2, r3) => (String d ds ++ "." ++ d2, r3)
            | None => (String d ds, r1)
            end) as [num t].
  destruct (unit_class t) as [u0|] eqn:Hu; [|discriminate].
  intros [= <-]. exists t. exact Hu.
Qed.

Lemma parse_loop_invalid_unit (unit : units) (fuel : nat) :
  unit = units2 \/ unit = units10 ->
  forall (size : Z) (ok : bool) (s x : string) (z : Z),
    parse_loop fuel unit size ok s = (z, Some (InvalidUnit x)) ->
    x = "b" \/ x = "B".
Proof.
  intro Hunit.
  induction fuel as [|fuel IH]; intros size ok s x z; cbn [parse_loop].
  - destruct (sizeRE (TrimSpace s));
      (destruct (negb (String.eqb (TrimSpace (TrimSpace s)) ""));
       [destruct (Atoi (TrimSpace (TrimSpace s))) | destruct (negb ok)]);
      intro H; congruence.
  - destruct (sizeRE (TrimSpace s)) as [m|] eqn:Hm.
    + destruct (ParseFloat (m1 m)); [|intro H; congruence].
      destruct (lookup unit (ToLower (m2 m))) eqn:Hl; [apply IH|].
      intros [= _ <-].
      destruct (sizeRE_unit _ _ Hm) as [r Hr].
      apply unit_class_cases in Hr. cbn [In] in Hr.
      destruct Hunit as [-> | ->];
        repeat (destruct Hr as [Hr|Hr];
                [rewrite <- Hr in *; try discriminate Hl; tauto|]);
        contradiction.
    + (destruct (negb (String.eqb (TrimSpace (TrimSpace s)) ""));
       [destruct (Atoi (TrimSpace (TrimSpace s))) | destruct (negb ok)]);
      intro H; congruence.
Qed.

(** X12.  In both bases the only unit of an invalid-unit error is the letter b,
    small or capital: every other letter the pattern takes is in the
    tables. *)
Theorem parse_invalid_unit_letter (s x : string) (unit : units) (z : Z) :
  unit = units2 \/ unit = units10 ->
  parse s unit = (z, Some (InvalidUnit x)) ->
  x = "b" \/ x = "B".
Proof. intros Hu. apply parse_loop_invalid_unit. exact Hu. Qed.

Lemma parse_invalid_unit_letter_witness :
  parse "4k7B" units10 = (4000, Some (InvalidUnit "B"))
  /\ ("B" = "b" \/ "B" = "B").
Proof.
  assert (H : parse "4k7B" units10 = (4000, Some (InvalidUnit "B")))
    by (vm_compute; reflexivity).
  split; [exact H|].
  exact (parse_invalid_unit_letter "4k7B" "B" units10 4000
           (or_intror eq_refl) H).
Defined.

(** ** Further properties of [unparse] *)

Section Steps.

Variable pow : Z.
Hypothesis pow_pos : 1 < pow.

Lemma quot_below (z div : Z) : 0 < div -> z < div -> (0 <? Z.quot z div) = false.
Proof.
  intros Hd Hz. apply Z.ltb_ge.
  assert (H : Z.quot z div <= Z.quot (div - 1) div)
    by (apply Z.quot_le_mono; lia).
  rewrite (Z.quot_small (div - 1) div) in H by lia. exact H.
Qed.

Lemma pow_le_pows (k : nat) : pow <= pow ^ Z.of_nat (S k).
Proof.
  rewrite Nat2Z.inj_succ, Z.pow_succ_r by lia.
  assert (0 < pow ^ Z.of_nat k) by (apply Z.pow_pos_nonneg; lia). nia.
Qed.

(** A number below [pow] goes through the loop untouched. *)
Lemma unparse_loop_small (k : nat) :
  forall (i : nat) (terms : list term) (z : Z),
    z < pow -> unparse_loop pow i (pows pow k) terms z = (terms, z).
Proof.
  induction k as [|k IH]; intros i terms z Hz; [reflexivity|].
  cbn [pows unparse_loop].
  pose proof (pow_le_pows k).
  rewrite quot_below by lia. apply IH; assumption.
Qed.

(** The divisors above the number are passed over. *)
Lemma unparse_loop_skip (m : nat) :
  forall (k i : nat) (terms : list term) (z : Z),
    z < pow ^ (Z.of_nat k + 1) ->
    unparse_loop pow i (pows pow (m + k)) terms z
    = unparse_loop pow (m + i) (pows pow k) terms z.
Proof.
  induction m as [|m IH]; intros k i terms z Hz; [reflexivity|].
  cbn [Nat.add pows unparse_loop].
  assert (Hle : pow ^ (Z.of_nat k + 1) <= pow ^ Z.of_nat (S (m + k)))
    by (apply Z.pow_le_mono_r; lia).
  assert (0 < pow ^ Z.of_nat (S (m + k))) by (apply Z.pow_pos_nonneg; lia).
  rewrite quot_below by lia.
  rewrite IH by assumption. f_equal. lia.
Qed.

(** A divisor that goes [a] times into the number, [v] remaining. *)
Lemma unparse_loop_take (k i : nat) (terms : list term) (a v : Z) :
  0 < a -> 0 <= v < pow ^ Z.of_nat (S k) ->
  unparse_loop pow i (pows pow (S k)) terms (a * pow ^ Z.of_nat (S k) + v)
  = let (terms', z') :=
      add pow terms a (nth (i + 1) labels "") (nth i labels "") v in
    unparse_loop pow (S i) (pows pow k) terms' z'.
Proof.
  intros Ha Hv. cbn [pows unparse_loop].
  set (div := pow ^ Z.of_nat (S k)) in *.
  assert (Hq : Z.quot (a * div + v) div = a).
  { symmetry. apply (Z.quot_unique _ _ _ v); lia. }
  assert (Hr : Z.rem (a * div + v) div = v).
  { symmetry. apply (Z.rem_unique _ _ a); lia. }
  rewrite Hq, Hr.
  replace (0 <? a) with true by (symmetry; apply Z.ltb_lt; assumption).
  reflexivity.
Qed.

End Steps.

Lemma base_pows (pow : Z) (mult : list Z) :
  (pow = 1024 /\ mult = mult2) \/ (pow = 1000 /\ mult = mult10) ->
  1 < pow /\ pow * pow <= max_int /\ mult = pows pow 6.
Proof.
  intros [[-> ->]|[-> ->]]; repeat split; try lia; vm_compute; discriminate.
Qed.

(** X2.  The terms [unparse] renders stand for the number: their coefficients,
    each times the power of the base of its unit, add up to it. *)
Theorem unparse_terms_total (q pow : Z) (mult : list Z) :
  0 <= q <= max_int ->
  (pow = 1024 /\ mult = mult2) \/ (pow = 1000 /\ mult = mult10) ->
  total pow (unparse_terms q pow mult) = q.
Proof.
  intros Hq Hb. destruct (base_pows pow mult Hb) as (Hp & _ & ->).
  apply (unparse_terms_inv pow Hp q Hq).
Qed.

Lemma unparse_terms_total_witness :
  unparse_terms 1101662257159 1024 mult2
  = [Term 1 "T"; Term 2 "G"; Term 3 "M"; Term 7 ""]
  /\ 1 * 1024 ^ 4 + (2 * 1024 ^ 3 + (3 * 1024 ^ 2 + (7 * 1024 ^ 0 + 0)))
     = 1101662257159.
Proof.
  split; [vm_compute; reflexivity|].
  exact (unparse_terms_total 1101662257159 1024 mult2
           ltac:(vm_compute; split; discriminate)
           (or_introl (conj eq_refl eq_refl))).
Defined.

Lemma unparse_below_pow (v pow : Z) (mult : list Z) :
  (pow = 1024 /\ mult = mult2) \/ (pow = 1000 /\ mult = mult10) ->
  v < pow ->
  unparse v pow mult = Itoa v.
Proof.
  intros Hb Hv. destruct (base_pows pow mult Hb) as (Hp & _ & ->).
  unfold unparse, unparse_terms.
  rewrite (unparse_loop_small pow Hp 6 0 [] v Hv).
  cbn. unfold render. cbn [n u]. apply append_empty_r.
Qed.

(** X3.  A number below the base, a negative one too, is rendered as its
    decimal numeral alone. *)
Theorem unparse_small (v pow : Z) (mult : list Z) :
  (pow = 1024 /\ mult = mult2) \/ (pow = 1000 /\ mult = mult10) ->
  v < pow ->
  unparse v pow mult = Itoa v.
Proof. exact (unparse_below_pow v pow mult). Qed.

Lemma unparse_small_witness :
  unparse 999 1000 mult10 = "999" /\ unparse (-5) 1024 mult2 = "-5".
Proof.
  split.
  - apply (unparse_small 999 1000 mult10); [right; split; reflexivity | lia].
  - apply (unparse_small (-5) 1024 mult2); [left; split; reflexivity | lia].
Defined.

(** X4.  A number of units that is [a] times a power of the base, from the
    first to the sixth, with [a] below the base, is rendered as one term:
    [a] and the label of that power. *)
Theorem unparse_multiple (a pow : Z) (mult : list Z) (r : nat) :
  (pow = 1024 /\ mult = mult2) \/ (pow = 1000 /\ mult = mult10) ->
  (1 <= r <= 6)%nat -> 0 < a < pow ->
  unparse (a * pow ^ Z.of_nat r) pow mult = Itoa a ++ label r.
Proof.
  intros Hb Hr Ha. destruct (base_pows pow mult Hb) as (Hp & _ & ->).
  destruct r as [|k]; [lia|].
  unfold unparse, unparse_terms.
  replace 6%nat with ((6 - S k) + S k)%nat at 1 by lia.
  rewrite (unparse_loop_skip pow Hp).
  2:{ replace (Z.of_nat (S k) + 1) with (Z.succ (Z.of_nat (S k))) by lia.
      rewrite Z.pow_succ_r by lia.
      assert (0 < pow ^ Z.of_nat (S k)) by (apply Z.pow_pos_nonneg; lia). nia. }
  replace (a * pow ^ Z.of_nat (S k)) with (a * pow ^ Z.of_nat (S k) + 0) by lia.
  rewrite (unparse_loop_take pow Hp).
  2:{ lia. }
  2:{ assert (0 < pow ^ Z.of_nat (S k)) by (apply Z.pow_pos_nonneg; lia). lia. }
  cbn [add List.rev app].
  rewrite (unparse_loop_small pow Hp) by lia.
  cbn [List.length Nat.eqb orb Z.ltb Z.compare map Join].
  unfold render, label. cbn [n u]. do 2 f_equal. lia.
Qed.

Lemma unparse_multiple_witness :
  unparse (768 * 1024 ^ 3) 1024 mult2 = "768G".
Proof.
  apply (unparse_multiple 768 1024 mult2 3);
    [left; split; reflexivity | lia | lia].
Defined.

(** X5.  The carry of [unparse]: a number that is [a] times a power of the
    base plus [b] times the power below it, both below the base, is rendered
    as one term of the lower unit, with the coefficient [a * pow + b]; at the
    lowest place the term has no label. *)
Theorem unparse_carry (a b pow : Z) (mult : list Z) (r : nat) :
  (pow = 1024 /\ mult = mult2) \/ (pow = 1000 /\ mult = mult10) ->
  (r <= 5)%nat -> 0 < a < pow -> 0 < b < pow ->
  unparse (a * pow ^ Z.of_nat (S r) + b * pow ^ Z.of_nat r) pow mult
  = Itoa (a * pow + b) ++ label r.
Proof.
  intros Hb Hr Ha Hb'. destruct (base_pows pow mult Hb) as (Hp & Hsmall & ->).
  assert (Hpr : 0 < pow ^ Z.of_nat r) by (apply Z.pow_pos_nonneg; lia).
  assert (HS : pow ^ Z.of_nat (S r) = pow * pow ^ Z.of_nat r)
    by (rewrite Nat2Z.inj_succ, Z.pow_succ_r by lia; reflexivity).
  assert (Hw : wrap64 (wrap64 (a * pow) + b) = a * pow + b).
  { unfold max_int in Hsmall.
    rewrite (wrap64_id (a * pow)) by (unfold min_int, max_int; nia).
    apply wrap64_id. unfold min_int, max_int; nia. }
  unfold unparse, unparse_terms.
  replace 6%nat with ((5 - r) + S r)%nat at 1 by lia.
  rewrite (unparse_loop_skip pow Hp).
  2:{ replace (Z.of_nat (S r) + 1) with (Z.succ (Z.of_nat (S r))) by lia.
      rewrite Z.pow_succ_r by lia. nia. }
  rewrite (unparse_loop_take pow Hp) by nia.
  cbn [add List.rev app].
  destruct r as [|k].
  - (* the lowest place: the carry is made after the loop *)
    cbn [pows unparse_loop].
    replace (b * pow ^ Z.of_nat 0) with b by (cbn; lia).
    replace (0 <? b) with true by (symmetry; apply Z.ltb_lt; lia).
    rewrite orb_true_r.
    cbn [Nat.sub Nat.add nth labels add List.rev app u n fst].
    cbn [Z.eqb String.eqb Ascii.eqb Bool.eqb andb].
    rewrite Hw. cbn [map Join]. unfold render. cbn [n u]. reflexivity.
  - replace (b * pow ^ Z.of_nat (S k)) with (b * pow ^ Z.of_nat (S k) + 0) by lia.
    rewrite (unparse_loop_take pow Hp);
      [|lia|assert (0 < pow ^ Z.of_nat (S k)) by (apply Z.pow_pos_nonneg; lia);
            lia].
    replace (5 - S k + 0 + 1)%nat with (S (5 - S k + 0))%nat by lia.
    cbn [add List.rev app u n Z.eqb].
    rewrite String.eqb_refl. cbn [andb List.rev app].
    rewrite (unparse_loop_small pow Hp) by lia.
    cbn [List.length Nat.eqb orb Z.ltb Z.compare map Join].
    rewrite Hw. unfold render, label. cbn [n u]. do 2 f_equal. lia.
Qed.

Lemma unparse_carry_witness :
  unparse (1 * 1024 ^ 3 + 1 * 1024 ^ 2) 1024 mult2 = "1025M"
  /\ unparse (1 * 1000 ^ 1 + 5 * 1000 ^ 0) 1000 mult10 = "1005".
Proof.
  split.
  - apply (unparse_carry 1 1 1024 mult2 2);
      [left; split; reflexivity | lia | lia | lia].
  - apply (unparse_carry 1 5 1000 mult10 0);
      [right; split; reflexivity | lia | lia | lia].
Defined.

(** ** Negative numbers *)

Lemma Itoa_neg (p : positive) : Itoa (Z.neg p) = String "-" (Itoa (Z.pos p)).
Proof.
  unfold Itoa, NilZero.string_of_int. cbn [Z.to_int]. reflexivity.
Qed.

Lemma minus_plain : plain "-".
Proof. split; [reflexivity | cbn; lia]. Qed.

Lemma Atoi_minus (d : string) :
  all_digits d = true -> d <> "" ->
  Atoi (String "-" d)
  = if in_int (- digits_val 0 d) then Some (- digits_val 0 d) else None.
Proof.
  intros Hd Hne. destruct d as [|c r]; [congruence|].
  unfold Atoi. change (code "-" =? 45) with true. cbn iota.
  rewrite Hd. reflexivity.
Qed.

Lemma parse_Itoa (v : Z) (unit : units) :
  min_int <= v <= max_int -> parse (Itoa v) unit = (v, None).
Proof.
  intros Hv. destruct v as [|p|p].
  - reflexivity.
  - destruct (Itoa_digits (Z.pos p) ltac:(lia)) as [Hd Hval].
    rewrite (parse_all_digits _ unit Hd (Itoa_nonempty _)), Hval.
    replace (Z.pos p <=? max_int) with true by (symmetry; apply Z.leb_le; lia).
    reflexivity.
  - destruct (Itoa_digits (Z.pos p) ltac:(lia)) as [Hd Hval].
    pose proof (Itoa_nonempty (Z.pos p)) as Hne.
    rewrite Itoa_neg.
    assert (Htrim : TrimSpace (String "-" (Itoa (Z.pos p)))
                    = String "-" (Itoa (Z.pos p))).
    { apply TrimSpace_plain; [exact minus_plain|].
      change (String "-" (Itoa (Z.pos p))) with ("-" ++ Itoa (Z.pos p)).
      apply last_plain_app, digits_last_plain; assumption. }
    unfold parse. cbn [parse_loop]. rewrite !Htrim.
    change (sizeRE (String "-" (Itoa (Z.pos p)))) with (@None submatch).
    cbn [String.eqb negb]. rewrite (Atoi_minus _ Hd Hne), Hval.
    unfold in_int.
    replace (min_int <=? - Z.pos p) with true by (symmetry; apply Z.leb_le; lia).
    replace (- Z.pos p <=? max_int) with true
      by (symmetry; apply Z.leb_le; unfold max_int; lia).
    cbn [andb Z.add]. rewrite wrap64_id by lia. reflexivity.
Qed.

(** X9.  The decimal numeral of an [int], negative or not, parses to that
    [int] in every base. *)
Theorem parse_numeral (v : Z) (unit : units) :
  min_int <= v <= max_int -> parse (Itoa v) unit = (v, None).
Proof. exact (parse_Itoa v unit). Qed.

Lemma parse_numeral_witness :
  parse (Itoa (-9223372036854775808)) units2 = (-9223372036854775808, None).
Proof.
  apply (parse_numeral (-9223372036854775808) units2).
  vm_compute; split; discriminate.
Defined.

(** ** The flag values: [String] and [Set] *)

(** X13.  What [String] renders of a flag value, [Set] reads back into any flag
    value of the same base: for the values below the unit E, the negative
    ones included. *)
Theorem Value_String_Set (v w : Z) :
  (min_int <= v < 1024 ^ 6 -> Value2_Set w (Value2_String v) = (v, None))
  /\ (min_int <= v < 1000 ^ 6 -> Value10_Set w (Value10_String v) = (v, None)).
Proof.
  unfold Value2_Set, Value10_Set, Value2_String, Value10_String.
  split; intro Hv.
  - assert (H : parse (unparse v 1024 mult2) units2 = (v, None)).
    { destruct (Z.lt_ge_cases v 0).
      - rewrite (unparse_below_pow v 1024 mult2) by (tauto || lia).
        apply parse_Itoa. unfold max_int; lia.
      - apply (parse_unparse_below v 1024 mult2 units2); [tauto | lia]. }
    rewrite H. reflexivity.
  - assert (H : parse (unparse v 1000 mult10) units10 = (v, None)).
    { destruct (Z.lt_ge_cases v 0).
      - rewrite (unparse_below_pow v 1000 mult10) by (tauto || lia).
        apply parse_Itoa. unfold max_int; lia.
      - apply (parse_unparse_below v 1000 mult10 units10); [tauto | lia]. }
    rewrite H. reflexivity.
Qed.

Lemma Value_String_Set_witness :
  Value2_String 32256 = "32256"
  /\ Value2_Set 0 (Value2_String 32256) = (32256, None)
  /\ Value10_Set 7 (Value10_String (-250)) = (-250, None).
Proof.
  split; [vm_compute; reflexivity|].
  split.
  - apply (proj1 (Value_String_Set 32256 0)). vm_compute. split; discriminate || reflexivity.
  - apply (proj2 (Value_String_Set (-250) 7)). vm_compute. split; discriminate || reflexivity.
Defined.

(** ** Properties of the flag initializers *)

Lemma load_update_same (st : store) (p : loc) (v x : Z) :
  load st p = Some x -> load (update st p v) p = Some v.
Proof.
  unfold load. revert p; induction st as [|y st IH]; intros [|p] H;
    simpl in *; try discriminate; [reflexivity | apply IH; exact H].
Qed.

Lemma load_update_other (st : store) (p q : loc) (v : Z) :
  q <> p -> load (update st p v) q = load st q.
Proof.
  unfold load. revert p q; induction st as [|y st IH]; intros [|p] [|q] H;
    simpl; try reflexivity; try congruence.
  apply IH. congruence.
Qed.

Lemma load_alloc_old (st : store) (v : Z) (q : loc) :
  (q < List.length st)%nat -> load (snd (alloc st v)) q = load st q.
Proof. intro H. unfold load, alloc. cbn [snd]. apply nth_error_app1; exact H. Qed.

Lemma load_alloc_new (st : store) (v : Z) :
  load (snd (alloc st v)) (fst (alloc st v)) = Some v
  /\ load st (fst (alloc st v)) = None.
Proof.
  unfold load, alloc. cbn [fst snd]. split.
  - rewrite nth_error_app2, Nat.sub_diag by lia. reflexivity.
  - apply nth_error_None. lia.
Qed.

Lemma Set_at_cells (unit : units) (p : loc) (s : string) (st st' : store)
    (err : option error) :
  Set_at unit p s st = Some (st', err) ->
  (forall q, q <> p -> load st' q = load st q)
  /\ match err with
     | None => load st' p = Some (fst (parse s unit))
     | Some _ => st' = st
     end.
Proof.
  unfold Set_at. destruct (parse s unit) as [z [e|]].
  - intros [= <- <-]. split; reflexivity.
  - destruct (load st p) as [x|] eqn:Hp; [|discriminate].
    intros [= <- <-]. split.
    + intros q Hq. apply load_update_other; assumption.
    + cbn [fst]. apply (load_update_same st p z x Hp).
Qed.

(** X14.  A flag made from a pointer to an [int] is the caller's cell: a [Set]
    that succeeds leaves the parsed number in that cell, a [Set] that fails
    leaves the memory as it was, and no other cell is ever written. *)
Theorem Base_pointer_shares (p : loc) (s : string) (st : store) (x : Z) :
  load st p = Some x ->
  (exists st' err,
      Base2 (init_ptr p) st = Some (p, st)
      /\ Value2_Set_at p s st = Some (st', err)
      /\ (forall q, q <> p -> load st' q = load st q)
      /\ match err with
         | None => load st' p = Some (fst (parse s units2))
         | Some _ => st' = st
         end)
  /\ (exists st' err,
        Base10 (init_ptr p) st = Some (p, st)
        /\ Value10_Set_at p s st = Some (st', err)
        /\ (forall q, q <> p -> load st' q = load st q)
        /\ match err with
           | None => load st' p = Some (fst (parse s units10))
           | Some _ => st' = st
           end).
Proof.
  intro Hp.
  assert (H : forall unit, exists st' err, Set_at unit p s st = Some (st', err)).
  { intro unit. unfold Set_at. destruct (parse s unit) as [z [e|]];
      [eauto|]. rewrite Hp. eauto. }
  split.
  - destruct (H units2) as (st' & err & Hs). exists st', err.
    split; [reflexivity|]. split; [exact Hs|].
    apply (Set_at_cells units2 p s st st' err Hs).
  - destruct (H units10) as (st' & err & Hs). exists st', err.
    split; [reflexivity|]. split; [exact Hs|].
    apply (Set_at_cells units10 p s st st' err Hs).
Qed.

Lemma Base_pointer_shares_witness :
  load [7; 0] 1%nat = Some 0
  /\ exists st' err,
       Base10 (init_ptr 1%nat) [7; 0] = Some (1%nat, [7; 0])
       /\ Value10_Set_at 1%nat "0.25k" [7; 0] = Some (st', err)
       /\ (forall q, q <> 1%nat -> load st' q = load [7; 0] q)
       /\ match err with
          | None => load st' 1%nat = Some (fst (parse "0.25k" units10))
          | Some _ => st' = [7; 0]
          end.
Proof.
  split; [reflexivity|].
  apply (proj2 (Base_pointer_shares 1%nat "0.25k" [7; 0] 0 eq_refl)).
Defined.

(** X15.  A flag made from [nil] or from an [int] is a fresh cell: it holds 0
    or that [int], it was no cell of the memory before, the cells of the
    memory keep their values, and a [Set] through the flag writes none of
    them. *)
Theorem Base_fresh (v : initializer) (d : Z) (st : store) :
  (v = init_nil /\ d = 0) \/ v = init_int d ->
  exists p st',
    Base2 v st = Some (p, st') /\ Base10 v st = Some (p, st')
    /\ load st' p = Some d /\ load st p = None
    /\ (forall q, (q < List.length st)%nat -> load st' q = load st q)
    /\ forall unit s st'' err,
         Set_at unit p s st' = Some (st'', err) ->
         forall q, (q < List.length st)%nat -> load st'' q = load st q.
Proof.
  intro Hv.
  exists (fst (alloc st d)), (snd (alloc st d)).
  assert (Hb : Base2 v st = Some (alloc st d) /\ Base10 v st = Some (alloc st d))
    by (destruct Hv as [[-> ->]| ->]; split; reflexivity).
  destruct Hb as [H2 H10]. rewrite H2, H10.
  destruct (load_alloc_new st d) as [Hnew Hold].
  repeat split; try assumption.
  - intros q Hq. apply load_alloc_old; assumption.
  - intros unit s st'' err Hs q Hq.
    destruct (Set_at_cells _ _ _ _ _ _ Hs) as [Hother _].
    rewrite Hother by (cbn; lia). apply load_alloc_old; assumption.
Qed.

Lemma Base_fresh_witness :
  exists p st',
    Base2 (init_int 1024) [5] = Some (p, st')
    /\ Base10 (init_int 1024) [5] = Some (p, st')
    /\ load st' p = Some 1024 /\ load [5] p = None
    /\ (forall q, (q < List.length [5])%nat -> load st' q = load [5] q)
    /\ forall unit s st'' err,
         Set_at unit p s st' = Some (st'', err) ->
         forall q, (q < List.length [5])%nat -> load st'' q = load [5] q.
Proof.
  apply (Base_fresh (init_int 1024) 1024 [5]). right; reflexivity.
Defined.

(** ** Properties of the later copy *)

Module LaterProps.

Ltac unfold_unparse := unfold Later.unparse, unparse.

Import Later.

Lemma later_unit_class_length (s u0 : string) :
  unit_class s = Some u0 -> (1 <= String.length u0)%nat.
Proof.
  unfold unit_class; intro H.
  destruct s as [|c1 r1]; [discriminate|].
  destruct (class_letter (code c1) || class_letter (code c1 + 32)).
  { injection H as <-; simpl; lia. }
  destruct r1 as [|c2 [|c3 r3]]; try discriminate.
  destruct ((code c1 =? 226) && (code c2 =? 132) && (code c3 =? 170));
    [injection H as <-; simpl; lia | discriminate].
Qed.

Lemma later_sizeRE_length (s : string) (m : submatch) :
  sizeRE s = Some m ->
  (1 <= String.length (m0 m))%nat /\ (1 <= String.length s)%nat.
Proof.
  unfold sizeRE; intro H.
  destruct s as [|c r]; [simpl in H; discriminate|].
  split; [|simpl; lia].
  destruct (span_digits (String c r)) as [[|d ds] r1]; [discriminate|].
  destruct (match fraction r1 with
            | Some (d2, r3) => (String d ds ++ "." ++ d2, r3)
            | None => (String d ds, r1)
            end) as [num t].
  destruct (unit_class t) as [u0|] eqn:Hu; [|discriminate].
  injection H as <-; cbn [m0].
  rewrite length_append.
  apply later_unit_class_length in Hu; lia.
Qed.

Lemma later_parse_loop_fuel (unit : units) (f1 : nat) :
  forall (f2 : nat) (size : Z) (ok : bool) (s : string),
    (String.length s < f1)%nat -> (String.length s < f2)%nat ->
    parse_loop f1 unit size ok s = parse_loop f2 unit size ok s.
Proof.
  induction f1 as [|f1 IH]; intros f2 size ok s H1 H2; [lia|].
  destruct f2 as [|f2]; [lia|].
  cbn [parse_loop].
  destruct (sizeRE (TrimSpace s)) as [m|] eqn:Hm; [|reflexivity].
  destruct (ParseFloat (m1 m)); [|reflexivity].
  destruct (lookup unit (ToLower (m2 m))); [|reflexivity].
  pose proof (later_sizeRE_length _ _ Hm) as [Hm0 Hs].
  pose proof (length_TrimSpace s).
  apply IH; rewrite length_drop; lia.
Qed.

Lemma later_sizeRE_term (d l rest : string) :
  all_digits d = true -> d <> "" -> In l letters ->
  sizeRE (d ++ l ++ rest) = Some (Submatch (d ++ l) d l).
Proof.
  intros Hd Hne Hl. unfold sizeRE.
  rewrite (span_digits_app d (l ++ rest) Hd).
  2:{ simpl in Hl. repeat (destruct Hl as [<-|Hl]; [reflexivity|]). contradiction. }
  destruct d as [|c r]; [congruence|].
  simpl in Hl. repeat (destruct Hl as [<-|Hl]; [reflexivity|]). contradiction.
Qed.

Lemma later_sizeRE_digits (d : string) : all_digits d = true -> sizeRE d = None.
Proof.
  intro Hd. unfold sizeRE.
  rewrite <- (append_empty_r d), (span_digits_app d "" Hd I).
  destruct d; reflexivity.
Qed.

Lemma later_parse_loop_trim (fuel : nat) (unit : units) (size : Z) (ok : bool)
    (s s' : string) :
  TrimSpace s = TrimSpace s' ->
  parse_loop fuel unit size ok s = parse_loop fuel unit size ok s'.
Proof. intro H. destruct fuel; cbn [parse_loop]; rewrite H; reflexivity. Qed.

Lemma later_parse_loop_end (fuel : nat) (unit : units) (size : Z) :
  parse_loop fuel unit size true "" = (size, None).
Proof. destruct fuel; reflexivity. Qed.

Section LaterRoundTrip.

Variable pow : Z.
Variable unit : units.
Hypothesis pow_pos : 1 < pow.
Hypothesis pow_small : pow * pow <= max_int.
Hypothesis pow7 : max_int < pow ^ 7.

(** The table holds the multiplier [pow^rank] of every unit as a [float64],
    and its product with a coefficient that [unparse] writes has at most 53
    digits. *)
Hypothesis unit_ok :
  forall (l : string) (c : Z),
    In l letters -> 0 < c < pow * pow -> c * pow ^ rank l <= max_int ->
    exists a t, lookup unit (ToLower l) = Some (flt a t)
                /\ 0 < a /\ 0 <= t <= 60
                /\ a * 2 ^ t = pow ^ rank l /\ c * a < 2 ^ 53.

Lemma later_writable_value (t : term) : writable pow t -> 0 <= value pow t.
Proof.
  intros (_ & Hn & _). unfold value.
  pose proof (pow_rank_pos pow pow_pos (u t)). nia.
Qed.

Lemma later_writable_total (ts : list term) :
  Forall (writable pow) ts -> 0 <= total pow ts.
Proof.
  induction 1 as [|t ts Ht _ IH]; simpl; [lia|].
  pose proof (later_writable_value t Ht). lia.
Qed.

Lemma later_writable_letter (t : term) :
  writable pow t -> u t <> "" -> In (u t) letters.
Proof.
  intros (Hl & _) Hne. simpl in Hl |- *.
  destruct Hl as [Hl|Hl]; [congruence|]. tauto.
Qed.

Lemma later_parse_loop_term (t : term) (rest : string) (fuel : nat) (size : Z)
    (ok : bool) :
  writable pow t -> u t <> "" ->
  0 <= size -> size + value pow t <= max_int ->
  last_plain (render t ++ rest) ->
  parse_loop (S fuel) unit size ok (render t ++ rest)
  = parse_loop fuel unit (size + value pow t) true rest.
Proof.
  intros Hw Hne Hsize Hlt Hlast.
  pose proof (later_writable_letter t Hw Hne) as Hl.
  destruct Hw as (_ & Hn & Hb). specialize (Hb Hne).
  destruct (Itoa_digits (n t) Hn) as [Hd _].
  destruct (Itoa_first_plain (n t) Hn) as (c & r & Hc & Hpl).
  assert (Hv : n t * pow ^ rank (u t) <= max_int) by (unfold value in Hlt; lia).
  destruct (unit_ok (u t) (n t) Hl Hb Hv) as (a & e & Hlook & Ha & He & Hae & Hca).
  assert (Htrim : TrimSpace (render t ++ rest) = render t ++ rest).
  { unfold render in *. rewrite Hc in *. cbn [append] in *.
    apply TrimSpace_plain; assumption. }
  cbn [parse_loop]. rewrite Htrim.
  unfold render at 1. rewrite append_assoc.
  rewrite (later_sizeRE_term _ _ _ Hd (Itoa_nonempty _) Hl). cbn [m0 m1 m2].
  assert (Hn53 : 0 < n t < 2 ^ 53) by nia.
  rewrite (ParseFloat_Itoa _ Hn53), Hlook.
  rewrite mul_flt by lia.
  assert (Hval : n t * a * 2 ^ (0 + e) = value pow t).
  { unfold value. rewrite <- Hae. cbn [Z.add]. ring. }
  rewrite to_int_flt; [|nia|lia|rewrite Hval; lia].
  rewrite Hval.
  pose proof (pow_rank_pos pow pow_pos (u t)).
  rewrite wrap64_id by (unfold min_int; unfold value in *; nia).
  fold (render t). rewrite drop_app. reflexivity.
Qed.

Lemma later_parse_loop_terms (ts : list term) :
  forall (fuel : nat) (size : Z) (ok : bool),
    ts <> [] -> desc ts -> Forall (writable pow) ts ->
    0 <= size -> size + total pow ts <= max_int ->
    (String.length (Join (map render ts) " ") < fuel)%nat ->
    parse_loop fuel unit size ok (Join (map render ts) " ")
    = (size + total pow ts, None).
Proof.
  induction ts as [|t ts IH]; intros fuel size ok Hne Hd Hf Hsize Hlt Hfuel;
    [congruence|].
  apply Forall_cons_iff in Hf as [Hw Hf].
  pose proof (later_writable_value t Hw) as Hvt.
  pose proof (later_writable_total ts Hf) as Hts.
  change (total pow (t :: ts)) with (value pow t + total pow ts) in *.
  assert (Hall : Forall (fun t => 0 <= n t /\ In (u t) labels) (t :: ts)).
  { constructor; [unfold writable in Hw; tauto|].
    eapply Forall_impl; [|exact Hf]. unfold writable; tauto. }
  pose proof (Join_last_plain (t :: ts) Hne Hall) as Hlast.
  destruct fuel as [|fuel]; [lia|].
  destruct (string_dec (u t) "") as [Hu|Hu].
  - assert (ts = []) as ->.
    { destruct ts as [|t' ts']; [reflexivity|]. exfalso.
      inversion Hd as [|? ? _ Hall']; subst.
      apply Forall_inv in Hall'. rewrite Hu in Hall'.
      pose proof (rank_range (u t')). change (rank "") with 0 in Hall'. lia. }
    cbn [map Join] in *. unfold render in *. rewrite Hu, append_empty_r in *.
    destruct Hw as (_ & Hn & _).
    destruct (Itoa_digits (n t) Hn) as [Hdig _].
    destruct (Itoa_first_plain (n t) Hn) as (c & r & Hc & Hpl).
    assert (Htrim : TrimSpace (Itoa (n t)) = Itoa (n t)).
    { rewrite Hc in *. apply TrimSpace_plain; assumption. }
    cbn [parse_loop]. rewrite !Htrim, (later_sizeRE_digits _ Hdig).
    rewrite Hc at 1. cbn [String.eqb negb].
    rewrite Atoi_Itoa by (unfold value in *; rewrite Hu in *;
                          change (rank "") with 0 in *; lia).
    unfold value. rewrite Hu. change (pow ^ rank "") with 1.
    cbn [total fold_right] in *.
    rewrite wrap64_id by (unfold min_int; unfold value in *; rewrite Hu in *;
                          change (rank "") with 0 in *; lia).
    f_equal. lia.
  - destruct ts as [|t' ts'].
    + cbn [map Join] in *. change (total pow []) with 0 in *.
      rewrite <- (append_empty_r (render t)) in Hlast |- *.
      rewrite later_parse_loop_term; try assumption; [|lia].
      rewrite later_parse_loop_end. f_equal. lia.
    + cbn [map] in *. rewrite Join_cons in * by discriminate.
      rewrite later_parse_loop_term; try assumption; [|lia].
      rewrite (later_parse_loop_trim _ _ _ _ _ (Join (render t' :: map render ts') " "))
        by reflexivity.
      inversion Hd; subst.
      rewrite (IH fuel (size + value pow t) true); try assumption;
        try discriminate; try lia.
      * f_equal. lia.
      * rewrite (length_append (render t)), (length_append " ") in Hfuel.
        change (String.length " ") with 1%nat in Hfuel. lia.
Qed.

(** The terms of every natural [int64] can be written. *)
Lemma later_unparse_terms_writable (q : Z) :
  0 <= q <= max_int ->
  Forall (writable pow) (unparse_terms q pow (pows pow 6)).
Proof.
  intros Hq.
  destruct (unparse_terms_inv pow pow_pos q Hq) as (_ & _ & Hl & H0 & Hp).
  set (ts := unparse_terms q pow (pows pow 6)) in *.
  assert (Hbound : Forall (fun t => u t <> "" -> 0 < n t < pow * pow) ts).
  { unfold ts, unparse_terms.
    assert (Hinit : bnd pow (Z.of_nat 6) [] q).
    { left. split; [constructor|]. change (Z.of_nat 6 + 1) with 7. lia. }
    pose proof (unparse_loop_bound pow pow_pos pow_small 6 0 [] q Hinit) as Hb.
    destruct (unparse_loop pow 0 (pows pow 6) [] q) as [terms z].
    assert (Hterms : Forall (fun t => u t <> "" -> 0 < n t < pow * pow) terms).
    { destruct Hb as [[Hf _]|[_ Hf]];
        (eapply Forall_impl; [|exact Hf]); cbn beta; intros; nia. }
    destruct ((Nat.eqb (List.length terms) 0) || (0 <? z)); [|exact Hterms].
    assert (Happ : Forall (fun t => u t <> "" -> 0 < n t < pow * pow)
                     (terms ++ [Term z ""])).
    { apply Forall_app; split; [assumption|].
      constructor; [cbn; congruence | constructor]. }
    unfold add. destruct (List.rev terms) as [|last before] eqn:Hrev;
      [exact Happ|].
    destruct (_ && _); [|exact Happ]. cbn [fst List.rev].
    apply rev_cons_snoc in Hrev. subst terms.
    apply Forall_app in Hterms as [Hb' _].
    apply Forall_app; split; [assumption|].
    constructor; [cbn; congruence | constructor]. }
  destruct (Z.eq_dec q 0) as [E|E].
  - rewrite (H0 E). constructor; [|constructor].
    unfold writable. cbn. repeat split; try lia; try tauto; congruence.
  - specialize (Hp ltac:(lia)).
    rewrite Forall_forall in *. intros t Hin. unfold writable.
    specialize (Hp t Hin). cbn beta in Hp.
    repeat split; try (apply Hbound; assumption); try (apply Hl; assumption).
    lia.
Qed.

Lemma later_round_trip_natural (q : Z) :
  0 <= q <= max_int ->
  parse (unparse q pow (pows pow 6)) unit = (q, None).
Proof.
  intro Hq.
  destruct (unparse_terms_inv pow pow_pos q Hq) as (Ht & Hd & _ & H0 & _).
  pose proof (later_unparse_terms_writable q Hq) as Hw.
  unfold parse. unfold_unparse.
  set (ts := unparse_terms q pow (pows pow 6)) in *.
  assert (Hne : ts <> []).
  { intro E. rewrite E in Ht. cbn in Ht. subst q.
    specialize (H0 eq_refl). congruence. }
  rewrite (later_parse_loop_terms ts); try assumption; try lia.
  f_equal. lia.
Qed.

End LaterRoundTrip.

Lemma later_parse_negative (p : positive) (unit : units) :
  min_int <= Z.neg p -> parse (Itoa (Z.neg p)) unit = (Z.neg p, None).
Proof.
  intro Hv.
  destruct (Itoa_digits (Z.pos p) ltac:(lia)) as [Hd Hval].
  pose proof (Itoa_nonempty (Z.pos p)) as Hne.
  rewrite Itoa_neg.
  assert (Htrim : TrimSpace (String "-" (Itoa (Z.pos p)))
                  = String "-" (Itoa (Z.pos p))).
  { apply TrimSpace_plain; [exact minus_plain|].
    change (String "-" (Itoa (Z.pos p))) with ("-" ++ Itoa (Z.pos p)).
    apply last_plain_app, digits_last_plain; assumption. }
  unfold parse. cbn [parse_loop]. rewrite !Htrim.
  change (sizeRE (String "-" (Itoa (Z.pos p)))) with (@None submatch).
  cbn [String.eqb negb]. rewrite (Atoi_minus _ Hd Hne), Hval.
  unfold in_int.
  replace (min_int <=? - Z.pos p) with true by (symmetry; apply Z.leb_le; lia).
  replace (- Z.pos p <=? max_int) with true
    by (symmetry; apply Z.leb_le; unfold max_int; lia).
  cbn [andb Z.add]. rewrite wrap64_id by (unfold max_int; lia). reflexivity.
Qed.

(** Closes the facts of one unit of a table, at the multiplier
    [a * 2^t]. *)
Ltac later_unit_entry a t :=
  exists a, t;
  split; [vm_compute; reflexivity|];
  split; [lia|]; split; [lia|];
  split; [vm_compute; reflexivity|];
  match goal with
  | H : _ * _ ^ rank ?l <= _ |- _ =>
      let r := eval vm_compute in (rank l) in
      change (rank l) with r in H; unfold max_int in H
  end; lia.

Lemma later_units2_ok (l : string) (c : Z) :
  In l letters -> 0 < c < 1024 * 1024 -> c * 1024 ^ rank l <= max_int ->
  exists a t, lookup units2 (ToLower l) = Some (flt a t)
              /\ 0 < a /\ 0 <= t <= 60
              /\ a * 2 ^ t = 1024 ^ rank l /\ c * a < 2 ^ 53.
Proof.
  intros Hl Hc Hv.
  destruct Hl as [<-|[<-|[<-|[<-|[<-|[<-|[]]]]]]].
  - later_unit_entry 1 10.
  - later_unit_entry 1 20.
  - later_unit_entry 1 30.
  - later_unit_entry 1 40.
  - later_unit_entry 1 50.
  - later_unit_entry 1 60.
Qed.

Lemma later_units10_ok (l : string) (c : Z) :
  In l letters -> 0 < c < 1000 * 1000 -> c * 1000 ^ rank l <= max_int ->
  exists a t, lookup units10 (ToLower l) = Some (flt a t)
              /\ 0 < a /\ 0 <= t <= 60
              /\ a * 2 ^ t = 1000 ^ rank l /\ c * a < 2 ^ 53.
Proof.
  intros Hl Hc Hv.
  destruct Hl as [<-|[<-|[<-|[<-|[<-|[<-|[]]]]]]].
  - later_unit_entry (5 ^ 3) 3.
  - later_unit_entry (5 ^ 6) 6.
  - later_unit_entry (5 ^ 9) 9.
  - later_unit_entry (5 ^ 12) 12.
  - later_unit_entry (5 ^ 15) 15.
  - later_unit_entry (5 ^ 18) 18.
Qed.

(** X16.  In the later copy the round trip holds for every [int64]: what
    [unparse] renders of it, in base 2 or 10, [Parse2] or [Parse10] reads
    back as the same number. *)
Theorem later_round_trip (q : Z) :
  min_int <= q <= max_int ->
  Parse2 (unparse q 1024 mult2) = (q, None)
  /\ Parse10 (unparse q 1000 mult10) = (q, None).
Proof.
  intro Hq. unfold Parse2, Parse10.
  destruct (Z.lt_ge_cases q 0) as [Hneg|Hpos].
  - unfold unparse.
    rewrite (unparse_below_pow q 1024 mult2), (unparse_below_pow q 1000 mult10)
      by (tauto || lia).
    destruct q as [|p|p]; try lia.
    split; apply later_parse_negative; lia.
  - split.
    + assert (H1 : 1024 * 1024 <= max_int) by (vm_compute; discriminate).
      assert (H2 : max_int < 1024 ^ 7) by (vm_compute; reflexivity).
      apply (later_round_trip_natural 1024 units2 ltac:(lia) H1 H2 later_units2_ok). lia.
    + assert (H1 : 1000 * 1000 <= max_int) by (vm_compute; discriminate).
      assert (H2 : max_int < 1000 ^ 7) by (vm_compute; reflexivity).
      apply (later_round_trip_natural 1000 units10 ltac:(lia) H1 H2 later_units10_ok). lia.
Qed.

Lemma later_round_trip_witness :
  unparse max_int 1024 mult2 = "7E 1023P 1023T 1023G 1023M 1048575"
  /\ Parse2 (unparse max_int 1024 mult2) = (max_int, None)
  /\ Parse10 (unparse max_int 1000 mult10) = (max_int, None).
Proof.
  split; [vm_compute; reflexivity|].
  apply (later_round_trip max_int). vm_compute. split; discriminate.
Defined.

End LaterProps.

(** ** The two copies of [parse] *)

Lemma space3_mid (b1 b3 : Z) (c : ascii) :
  code c < 128 -> space3 b1 (code c) b3 = false.
Proof.
  intro H. unfold space3.
  replace (code c =? 154) with false by (symmetry; apply Z.eqb_neq; lia).
  replace (code c =? 128) with false by (symmetry; apply Z.eqb_neq; lia).
  replace (code c =? 129) with false by (symmetry; apply Z.eqb_neq; lia).
  rewrite !andb_false_r. reflexivity.
Qed.

(** Trimming from the right stops at a plain byte. *)
Lemma TrimLeftRev_app_plain (k : nat) :
  forall (x y : string) (c : ascii),
    (String.length x <= k)%nat -> plain c ->
    TrimLeftRev (x ++ String c y) = TrimLeftRev x ++ String c y.
Proof.
  induction k as [|k IH]; intros x y c Hk Hc.
  - destruct x; [|simpl in Hk; lia]. cbn [append].
    apply TrimLeftRev_plain; assumption.
  - destruct x as [|c1 r1]; [apply TrimLeftRev_plain; assumption|].
    simpl in Hk. destruct Hc as [Hs H128].
    cbn [append TrimLeftRev].
    destruct (ascii_space c1); [apply IH; [lia | split; assumption]|].
    destruct r1 as [|c2 r2]; cbn [append].
    + rewrite space2_first by assumption.
      destruct y as [|c3 r3]; [reflexivity|].
      rewrite space3_mid by assumption. reflexivity.
    + simpl in Hk.
      destruct (space2 (code c2) (code c1));
        [apply IH; [lia | split; assumption]|].
      destruct r2 as [|c3 r3]; cbn [append].
      * rewrite space3_first by assumption. reflexivity.
      * simpl in Hk.
        destruct (space3 (code c3) (code c2) (code c1)); [|reflexivity].
        apply IH; [lia | split; assumption].
Qed.

Lemma TrimRight_app_plain (a r : string) (c : ascii) :
  plain c -> TrimRight (a ++ String c r) = a ++ String c (TrimRight r).
Proof.
  intro Hc. unfold TrimRight.
  rewrite rev_app, rev_cons, append_assoc. cbn [append].
  rewrite (TrimLeftRev_app_plain _ (rev r) (rev a) c (le_n _) Hc).
  rewrite rev_app, rev_cons, rev_rev, append_assoc. reflexivity.
Qed.

Lemma span_digits_spec (s : string) :
  forall d r, span_digits s = (d, r) -> s = d ++ r /\ all_digits d = true.
Proof.
  induction s as [|c s IH]; intros d r; cbn [span_digits].
  - intros [= <- <-]. split; reflexivity.
  - destruct (is_digit c) eqn:Hc.
    + destruct (span_digits s) as [d' t]. intros [= <- <-].
      destruct (IH d' t eq_refl) as [-> Hd]. split; [reflexivity|].
      cbn [all_digits]. rewrite Hc, Hd. reflexivity.
    + intros [= <- <-]. split; reflexivity.
Qed.

Lemma all_digits_app_false (x y : string) (c : ascii) :
  is_digit c = false -> all_digits (x ++ String c y) = false.
Proof.
  intro Hc. induction x as [|a x IH]; cbn [append all_digits].
  - rewrite Hc. reflexivity.
  - rewrite IH. apply andb_false_r.
Qed.

(** A text that starts with digits and holds a byte that is no digit is no
    number for [Atoi]. *)
Lemma Atoi_not_digits (a : ascii) (x y : string) (c : ascii) :
  is_digit a = true -> is_digit c = false ->
  Atoi (String a (x ++ String c y)) = None.
Proof.
  intros Ha Hc. unfold Atoi, is_digit in *.
  apply andb_true_iff in Ha as [H1 H2]. apply Z.leb_le in H1, H2.
  replace (code a =? 45) with false by (symmetry; apply Z.eqb_neq; lia).
  replace (code a =? 43) with false by (symmetry; apply Z.eqb_neq; lia).
  change (String a (x ++ String c y)) with (String a x ++ String c y).
  rewrite all_digits_app_false; [reflexivity|exact Hc].
Qed.

Lemma fraction_spec (r1 d2 r3 : string) :
  fraction r1 = Some (d2, r3) -> r1 = "." ++ d2 ++ r3.
Proof.
  unfold fraction. destruct r1 as [|c r]; [discriminate|].
  destruct (code c =? 46) eqn:Hc; [|discriminate].
  apply Z.eqb_eq, code_eq in Hc. subst c.
  destruct (span_digits r) as [d t] eqn:Hs.
  destruct (span_digits_spec r d t Hs) as [-> _].
  destruct d; [discriminate|]. intros [= <- <-]. reflexivity.
Qed.

(** Closes a goal on a unit character whose code is known. *)
Ltac known_code H c :=
  apply Z.eqb_eq in H;
  first [apply code_eq in H
        | let H' := fresh in
          match type of H with
          | code c + 32 = ?z => assert (H' : code c = z - 32) by lia
          end; apply code_eq in H'];
  subst c.

(** A unit of the tables that the pattern of [flag.go] takes, the later
    pattern takes. *)
Lemma unit_class_later (t l : string) (unit : units) (mul : float64) :
  unit = units2 \/ unit = units10 ->
  unit_class t = Some l -> lookup unit (ToLower l) = Some mul ->
  Later.unit_class t = Some l.
Proof.
  intros Hunit. unfold unit_class.
  destruct t as [|c1 r1]; [discriminate|].
  destruct (class_letter (code c1) || class_letter (code c1 + 32)) eqn:Hc.
  - intros [= <-] Hl. unfold class_letter in Hc.
    repeat match type of Hc with
           | (_ || _) = true => apply orb_true_iff in Hc; destruct Hc as [Hc|Hc]
           end;
      known_code Hc c1;
      try reflexivity;
      destruct Hunit as [-> | ->]; discriminate Hl.
  - destruct r1 as [|c2 [|c3 r3]]; try discriminate.
    destruct ((code c1 =? 226) && (code c2 =? 132) && (code c3 =? 170)) eqn:Hk;
      [|discriminate].
    intros [= <-] _.
    apply andb_true_iff in Hk as [Hk H3]. apply andb_true_iff in Hk as [H1 H2].
    apply Z.eqb_eq, code_eq in H1, H2, H3. subst. reflexivity.
Qed.

Lemma sizeRE_later (s : string) (m : submatch) (unit : units) (mul : float64) :
  unit = units2 \/ unit = units10 ->
  sizeRE s = Some m -> lookup unit (ToLower (m2 m)) = Some mul ->
  Later.sizeRE s = Some m.
Proof.
  intros Hunit. unfold sizeRE, Later.sizeRE.
  destruct (span_digits s) as [[|d ds] r1]; [discriminate|].
  destruct (match fraction r1 with
            | Some (d2, r3) => (String d ds ++ "." ++ d2, r3)
            | None => (String d ds, r1)
            end) as [num t].
  destruct (unit_class t) as [l|] eqn:Hu; [|discriminate].
  intros [= <-]. cbn [m2]. intro Hl.
  rewrite (unit_class_later t l unit mul Hunit Hu Hl). reflexivity.
Qed.

(** Where only the later pattern has a match, the text is digits, perhaps
    with a fraction, and the letter e. *)
Lemma sizeRE_later_only (s : string) (m : submatch) :
  sizeRE s = None -> Later.sizeRE s = Some m ->
  exists a x c y,
    s = String a (x ++ String c y)
    /\ is_digit a = true /\ plain c /\ is_digit c = false.
Proof.
  unfold sizeRE, Later.sizeRE.
  destruct (span_digits s) as [d r1] eqn:Hs.
  destruct (span_digits_spec s d r1 Hs) as [-> Hd].
  destruct d as [|a ds]; [discriminate|].
  assert (Ha : is_digit a = true)
    by (cbn [all_digits] in Hd; apply andb_true_iff in Hd; tauto).
  assert (Hnum : exists num t,
            (match fraction r1 with
             | Some (d2, r3) => (String a ds ++ "." ++ d2, r3)
             | None => (String a ds, r1)
             end) = (String a num, t)
            /\ String a ds ++ r1 = String a (num ++ t)).
  { destruct (fraction r1) as [[d2 r3]|] eqn:Hf.
    - apply fraction_spec in Hf. subst r1.
      exists (ds ++ "." ++ d2), r3. split; [reflexivity|].
      cbn [append]. rewrite !append_assoc. reflexivity.
    - exists ds, r1. split; reflexivity. }
  destruct Hnum as (num & t & -> & ->).
  destruct (unit_class t) as [l|] eqn:Hold; [discriminate|]. intros _.
  destruct (Later.unit_class t) as [l'|] eqn:Hnew; [|discriminate]. intros _.
  unfold unit_class in Hold. unfold Later.unit_class in Hnew.
  destruct t as [|c1 r]; [discriminate|].
  destruct (class_letter (code c1) || class_letter (code c1 + 32)) eqn:Hc;
    [discriminate|].
  destruct (Later.class_letter (code c1) || Later.class_letter (code c1 + 32))
    eqn:Hc'.
  - exists a, num, c1, r. split; [reflexivity|]. split; [exact Ha|].
    unfold Later.class_letter in Hc'.
    repeat match type of Hc' with
           | (_ || _) = true => apply orb_true_iff in Hc'; destruct Hc' as [Hc'|Hc']
           end;
      known_code Hc' c1; try discriminate Hc;
      (split; [split; [reflexivity | cbn; lia] | reflexivity]).
  - rewrite Hnew in Hold. discriminate.
Qed.

Lemma parse_loop_later (unit : units) (fuel : nat) :
  unit = units2 \/ unit = units10 ->
  forall (size : Z) (ok : bool) (s : string) (v : Z),
    parse_loop fuel unit size ok s = (v, None) ->
    Later.parse_loop fuel unit size ok s = (v, None).
Proof.
  intro Hunit.
  assert (Honly : forall (size : Z) (ok : bool) (s1 : string) (m : submatch)
                         (v : Z),
    sizeRE s1 = None -> Later.sizeRE s1 = Some m ->
    (if negb (String.eqb (TrimSpace s1) "")
     then match Atoi (TrimSpace s1) with
          | None => (0, Some (InvalidSize (TrimSpace s1)))
          | Some x => (wrap64 (size + x), None)
          end
     else if negb ok then (0, Some (InvalidSize (TrimSpace s1)))
          else (size, None))
    = (v, None) -> False).
  { intros size ok s1 m v Hold Hnew.
    destruct (sizeRE_later_only s1 m Hold Hnew)
      as (a & x & c & y & -> & Ha & Hc & Hnd).
    unfold TrimSpace.
    rewrite (TrimLeft_plain a _ (digit_plain a Ha)).
    change (String a (x ++ String c y)) with (String a x ++ String c y).
    rewrite (TrimRight_app_plain _ _ _ Hc). cbn [append String.eqb negb].
    rewrite (Atoi_not_digits a x (TrimRight y) c Ha Hnd). discriminate. }
  induction fuel as [|fuel IH]; intros size ok s v;
    cbn [parse_loop Later.parse_loop].
  - destruct (sizeRE (TrimSpace s)) eqn:Hold,
             (Later.sizeRE (TrimSpace s)) eqn:Hnew; intro H; exact H.
  - destruct (sizeRE (TrimSpace s)) as [m|] eqn:Hold.
    + destruct (ParseFloat (m1 m)) as [x|] eqn:Hx; [|discriminate].
      destruct (lookup unit (ToLower (m2 m))) as [mul|] eqn:Hl; [|discriminate].
      rewrite (sizeRE_later _ _ _ _ Hunit Hold Hl), Hx, Hl. apply IH.
    + destruct (Later.sizeRE (TrimSpace s)) as [m|] eqn:Hnew;
        [|intro H; exact H].
      intro H. exfalso. exact (Honly size ok _ m v Hold Hnew H).
Qed.

(** X17.  The later copy extends [flag.go]: in both bases, a text that [parse]
    of [flag.go] reads without error, [parse] of the later copy reads as the
    same number. *)
Theorem later_extends (s : string) (unit : units) (v : Z) :
  unit = units2 \/ unit = units10 ->
  parse s unit = (v, None) -> Later.parse s unit = (v, None).
Proof. intro Hunit. apply parse_loop_later. exact Hunit. Qed.

Lemma later_extends_witness :
  parse "1.7M0.3K" units2 = (1782886, None)
  /\ Later.parse "1.7M0.3K" units2 = (1782886, None)
  /\ Later.parse "1e" units2 = (ei, None).
Proof.
  assert (H : parse "1.7M0.3K" units2 = (1782886, None))
    by (vm_compute; reflexivity).
  split; [exact H|].
  split; [|vm_compute; reflexivity].
  exact (later_extends "1.7M0.3K" units2 1782886 (or_introl eq_refl) H).
Defined.

(** ** Properties of the first copy *)

(** A statement of [Unparse] is a turn of the loop of [unparse]. *)
Lemma unparse_loop_step (i : nat) (div : Z) (rest : list Z)
    (terms : list term) (z : Z) :
  unparse_loop 1024 i (div :: rest) terms z
  = let (terms', z') :=
      Earlier.step div (nth (i + 1) labels "") (nth i labels "") (terms, z) in
    unparse_loop 1024 (S i) rest terms' z'.
Proof.
  cbn [unparse_loop]. unfold Earlier.step.
  destruct (0 <? Z.quot z div); [|reflexivity].
  destruct (add 1024 terms _ _ _ _); reflexivity.
Qed.

(** With no term yet, the label of the place above is not looked at. *)
Lemma step_first (div : Z) (u0 prev prev' : string) (z : Z) :
  Earlier.step div u0 prev ([], z) = Earlier.step div u0 prev' ([], z).
Proof. reflexivity. Qed.

(** The statements of [Unparse] are the loop of [unparse] in base 2 past
    its first divisor. *)
Lemma Unparse_steps_loop (v : Z) :
  Earlier.Unparse_steps v = unparse_loop 1024 1 (pows 1024 5) [] v.
Proof.
  change (pows 1024 5)
    with [Earlier.pUnits; Earlier.tUnits; Earlier.gUnits; Earlier.mUnits;
          Earlier.kUnits].
  unfold Earlier.Unparse_steps.
  rewrite (step_first Earlier.pUnits "P" "" "E").
  rewrite unparse_loop_step. cbn [Nat.add nth labels].
  destruct (Earlier.step Earlier.pUnits "P" "E" ([], v)) as [t1 z1].
  rewrite unparse_loop_step. cbn [Nat.add nth labels].
  destruct (Earlier.step Earlier.tUnits "T" "P" (t1, z1)) as [t2 z2].
  rewrite unparse_loop_step. cbn [Nat.add nth labels].
  destruct (Earlier.step Earlier.gUnits "G" "T" (t2, z2)) as [t3 z3].
  rewrite unparse_loop_step. cbn [Nat.add nth labels].
  destruct (Earlier.step Earlier.mUnits "M" "G" (t3, z3)) as [t4 z4].
  rewrite unparse_loop_step. cbn [Nat.add nth labels].
  destruct (Earlier.step Earlier.kUnits "K" "M" (t4, z4)) as [t5 z5].
  reflexivity.
Qed.

(** Below the first divisor of [unparse], the two renderings agree. *)
Lemma Unparse_below_E (v : Z) :
  v < 1024 ^ 6 -> unparse v 1024 mult2 = Earlier.Unparse v.
Proof.
  intro Hv.
  unfold unparse, Earlier.Unparse, unparse_terms, Earlier.Unparse_terms.
  rewrite Unparse_steps_loop, mult2_pows.
  pose proof (unparse_loop_skip 1024 ltac:(lia) 1 5 0 [] v Hv) as Hs.
  change (pows 1024 (1 + 5)) with (pows 1024 6) in Hs.
  change (1 + 0)%nat with 1%nat in Hs.
  rewrite Hs. reflexivity.
Qed.

(** X21.  Below the unit E, [unparse] of [flag.go] in base 2 renders a number
    as [Unparse] of the first copy does, the negative numbers included. *)
Theorem unparse_as_earlier (v : Z) :
  v < 1024 ^ 6 -> unparse v 1024 mult2 = Earlier.Unparse v.
Proof. exact (Unparse_below_E v). Qed.

Lemma unparse_as_earlier_witness :
  unparse (1 * pi + 32 * ki) 1024 mult2 = Earlier.Unparse (1 * pi + 32 * ki)
  /\ Earlier.Unparse (1 * pi + 32 * ki) = "1P 32K".
Proof.
  split; [|vm_compute; reflexivity].
  apply (unparse_as_earlier (1 * pi + 32 * ki)). vm_compute; reflexivity.
Defined.

(** *** [Parse] and [parse] of [flag.go] *)

Lemma sizeRE_m0 (s : string) (m : submatch) :
  Regexp.sizeRE s = Some m -> m0 m = m1 m ++ m2 m.
Proof.
  unfold Regexp.sizeRE.
  destruct (span_digits s) as [[|d ds] r1]; [discriminate|].
  destruct (match fraction r1 with
            | Some (d2, r3) => (String d ds ++ "." ++ d2, r3)
            | None => (String d ds, r1)
            end) as [num t].
  destruct (unit_class t) as [u0|]; [|discriminate].
  intros [= <-]. reflexivity.
Qed.

Lemma last_byte_app (a b : string) :
  b <> "" -> Earlier.last_byte (a ++ b) = Earlier.last_byte b.
Proof.
  intro Hb. unfold Earlier.last_byte. rewrite rev_app.
  destruct (rev b) as [|c r] eqn:E; [|reflexivity].
  exfalso. apply Hb. rewrite <- (rev_rev b), E. reflexivity.
Qed.

(** A unit that the [switch] of [Parse] takes is in the table of base 2,
    with the same multiplier. *)
Lemma multiplier_units2 (l : string) (mul : float64) :
  In l ["b"; "k"; "m"; "g"; "t"; "p"; "B"; "K"; "M"; "G"; "T"; "P"; KELVIN] ->
  Earlier.multiplier (Earlier.ToLower (Earlier.last_byte l)) = Some mul ->
  lookup units2 (ToLower l) = Some mul.
Proof.
  intros Hl H. cbn [In] in Hl.
  repeat (destruct Hl as [<-|Hl];
          [vm_compute in H |- *; first [exact H | discriminate H]|]).
  contradiction.
Qed.

Lemma Parse_loop_parse_loop (fuel : nat) :
  forall (size : Z) (ok : bool) (s : string) (v : Z),
    Earlier.Parse_loop fuel size ok s = (v, None) ->
    parse_loop fuel units2 size ok s = (v, None).
Proof.
  assert (Hafter : forall (size : Z) (ok : bool) (s1 : string) (v : Z),
    (if negb (String.eqb (TrimSpace s1) "")
     then match Atoi (TrimSpace s1) with
          | None => (0, Some (Earlier.InvalidSize (TrimSpace s1)))
          | Some x => (wrap64 (size + x), None)
          end
     else if negb ok then (0, Some (Earlier.InvalidSize (TrimSpace s1)))
          else (size, None))
    = (v, None) ->
    (if negb (String.eqb (TrimSpace s1) "")
     then match Atoi (TrimSpace s1) with
          | None => (0, Some (InvalidSize (TrimSpace s1)))
          | Some x => (wrap64 (size + x), None)
          end
     else if negb ok then (0, Some (InvalidSize (TrimSpace s1)))
          else (size, None))
    = (v, None)).
  { intros size ok s1 v.
    destruct (negb (String.eqb (TrimSpace s1) "")).
    - destruct (Atoi (TrimSpace s1)); [|discriminate].
      intros [= <-]. reflexivity.
    - destruct (negb ok); [discriminate|]. intros [= <-]. reflexivity. }
  induction fuel as [|fuel IH]; intros size ok s v;
    cbn [Earlier.Parse_loop parse_loop]; unfold Earlier.sizeRE.
  - destruct (Regexp.sizeRE (TrimSpace s)) as [m|]; apply Hafter.
  - destruct (Regexp.sizeRE (TrimSpace s)) as [m|] eqn:Hm; [|apply Hafter].
    destruct (ParseFloat (m1 m)) as [x|]; [|discriminate].
    destruct (Earlier.multiplier (Earlier.ToLower (Earlier.last_byte (m0 m))))
      as [mul|] eqn:Hmul; [|discriminate].
    destruct (sizeRE_unit _ _ Hm) as [r Hr].
    pose proof (unit_class_cases _ _ Hr) as Hl.
    assert (Hne : m2 m <> "").
    { intro E. rewrite E in Hl. cbn [In] in Hl.
      repeat (destruct Hl as [Hl|Hl]; [discriminate Hl|]). contradiction. }
    rewrite (sizeRE_m0 _ _ Hm), (last_byte_app _ _ Hne) in Hmul.
    rewrite (multiplier_units2 _ _ Hl Hmul). apply IH.
Qed.

(** X22.  [parse] of [flag.go] in base 2 extends [Parse] of the first copy: a
    text that [Parse] reads without error, [parse] reads as the same
    number. *)
Theorem earlier_extended (s : string) (v : Z) :
  Earlier.Parse s = (v, None) -> parse s units2 = (v, None).
Proof. apply Parse_loop_parse_loop. Qed.

Lemma earlier_extended_witness :
  Earlier.Parse "3m2.5k17" = (3148305, None)
  /\ parse "3m2.5k17" units2 = (3148305, None)
  /\ parse ("7" ++ KELVIN) units2 = (7 * ki, None)
  /\ snd (Earlier.Parse ("7" ++ KELVIN)) <> None.
Proof.
  assert (H : Earlier.Parse "3m2.5k17" = (3148305, None))
    by (vm_compute; reflexivity).
  split; [exact H|].
  split; [exact (earlier_extended "3m2.5k17" 3148305 H)|].
  split; vm_compute; [reflexivity | discriminate].
Defined.

(** *** The round trip of the first copy *)

Lemma add_label (P : string -> Prop) (pow : Z) (terms : list term) (n0 : Z)
    (u0 prev : string) (v : Z) :
  Forall (fun t => P (u t)) terms -> P u0 ->
  Forall (fun t => P (u t)) (fst (add pow terms n0 u0 prev v)).
Proof.
  intros Hf Hu.
  assert (Happ : Forall (fun t => P (u t)) (terms ++ [Term n0 u0])).
  { apply Forall_app; split; [assumption|]. constructor; [exact Hu | constructor]. }
  unfold add. destruct (List.rev terms) as [|last before] eqn:Hrev;
    [exact Happ|].
  destruct (_ && _); [|exact Happ]. cbn [fst List.rev].
  apply rev_cons_snoc in Hrev. subst terms.
  apply Forall_app in Hf as [Hb _].
  apply Forall_app; split; [assumption|].
  constructor; [exact Hu | constructor].
Qed.

(** Past the first divisor the loop writes no unit E. *)
Lemma unparse_loop_no_E (pow : Z) (mult : list Z) :
  forall (i : nat) (terms : list term) (z : Z),
    (1 <= i)%nat ->
    Forall (fun t => u t <> "E") terms ->
    Forall (fun t => u t <> "E") (fst (unparse_loop pow i mult terms z)).
Proof.
  induction mult as [|div rest IH]; intros i terms z Hi Hf;
    cbn [unparse_loop]; [exact Hf|].
  destruct (0 <? Z.quot z div); [|apply IH; [lia | exact Hf]].
  pose proof (add_label (fun l => l <> "E") pow terms (Z.quot z div)
                (nth (i + 1) labels "") (nth i labels "") (Z.rem z div) Hf)
    as Hadd.
  destruct (add pow terms _ _ _ _) as [terms' z']. cbn [fst] in Hadd.
  apply IH; [lia|]. apply Hadd.
  rewrite Nat.add_1_r.
  destruct i as [|[|[|[|[|[|i]]]]]]; try lia; cbn [nth labels];
    try discriminate.
  destruct i; discriminate.
Qed.

(** What the terms of [Unparse] satisfy: they add up to the number, in
    descending order of their units, none of them the unit E; a term with a
    unit has a positive coefficient. *)
Lemma Unparse_terms_inv (q : Z) :
  0 <= q <= max_int ->
  let ts := Earlier.Unparse_terms q in
  total 1024 ts = q /\ desc ts /\ ts <> []
  /\ Forall (fun t => (u t = "" /\ 0 <= n t)
                      \/ (In (u t) letters /\ 0 < n t)) ts.
Proof.
  intros [Hq0 Hq]. cbn zeta.
  assert (Hpow : 1 < 1024) by lia.
  assert (Hcase : forall t, 0 < n t -> In (u t) labels -> u t <> "E" ->
                    (u t = "" /\ 0 <= n t) \/ (In (u t) letters /\ 0 < n t)).
  { intros t Hn Hl HE. cbn [In labels] in Hl.
    destruct Hl as [Hl|[Hl|Hl]]; [left; split; [congruence | lia] | congruence |].
    right. split; [|exact Hn]. cbn [In letters]. tauto. }
  unfold Earlier.Unparse_terms. rewrite Unparse_steps_loop.
  assert (Hinit : inv 1024 q (Z.of_nat 5) [] q).
  { constructor; [assumption | simpl; lia | constructor | constructor]. }
  pose proof (unparse_loop_inv 1024 Hpow q 5 1 [] q Hq eq_refl Hinit) as Hloop.
  pose proof (unparse_loop_no_E 1024 (pows 1024 5) 1 [] q ltac:(lia)
                ltac:(constructor)) as HnoE.
  destruct (unparse_loop 1024 1 (pows 1024 5) [] q) as [terms z].
  cbn [fst] in HnoE.
  pose proof (inv_pos 1024 _ _ _ _ Hloop) as Hpos.
  pose proof (total_nonneg 1024 Hpow _ Hpos) as Htot.
  destruct Hloop as [Hz Ht Hf Hd].
  destruct (0 <? z) eqn:Hzpos.
  - apply Z.ltb_lt in Hzpos. rewrite orb_true_r.
    pose proof (add_inv 1024 Hpow q 0 terms z z 0 "" "K" Hq
                  (Build_inv 1024 q 0 terms z Hz Ht Hf Hd) Hzpos) as Hadd.
    pose proof (add_label (fun l => l <> "E") 1024 terms z "" "K" 0 HnoE
                  ltac:(discriminate)) as HnoE'.
    destruct (add 1024 terms z "" "K" 0) as [terms' z']. cbn [fst] in *.
    destruct Hadd as [_ [_ Ht' Hf' Hd']]; try lia;
      [reflexivity | simpl; tauto | left; reflexivity |].
    repeat split; try assumption; try lia.
    + intro E. rewrite E in Ht'. cbn in Ht'. lia.
    + rewrite Forall_forall in *. intros t Hin.
      specialize (Hf' t Hin). specialize (HnoE' t Hin). cbn beta in *.
      apply Hcase; tauto.
  - apply Z.ltb_ge in Hzpos. assert (z = 0) by lia. subst z.
    rewrite orb_false_r.
    destruct terms as [|t ts]; cbn [List.length Nat.eqb].
    + simpl in Ht. subst q. cbn.
      repeat split; try reflexivity; try discriminate.
      * repeat constructor.
      * constructor; [left; split; [reflexivity | cbn; lia] | constructor].
    + repeat split; try assumption; try lia; [discriminate|].
      rewrite Forall_forall in *. intros t' Hin.
      specialize (Hf t' Hin). specialize (HnoE t' Hin). cbn beta in *.
      apply Hcase; tauto.
Qed.

Lemma Parse_loop_trim (fuel : nat) (size : Z) (ok : bool) (s s' : string) :
  TrimSpace s = TrimSpace s' ->
  Earlier.Parse_loop fuel size ok s = Earlier.Parse_loop fuel size ok s'.
Proof. intro H. destruct fuel; cbn [Earlier.Parse_loop]; rewrite H; reflexivity. Qed.

Lemma Parse_loop_end (fuel : nat) (size : Z) :
  Earlier.Parse_loop fuel size true "" = (size, None).
Proof. destruct fuel; reflexivity. Qed.

(** The multiplier of a unit that [Unparse] writes. *)
Lemma multiplier_letter (d l : string) :
  In l letters ->
  Earlier.multiplier (Earlier.ToLower (Earlier.last_byte (d ++ l)))
  = Some (flt 1 (10 * rank l))
  /\ 1 <= rank l <= 5.
Proof.
  intro Hl. cbn [In letters] in Hl.
  destruct Hl as [<-|[<-|[<-|[<-|[<-|[]]]]]];
    (rewrite last_byte_app by discriminate);
    (split; [vm_compute; reflexivity | vm_compute; split; discriminate]).
Qed.

(** One rendered term under [Parse]. *)
Lemma Parse_loop_term (t : term) (rest : string) (fuel : nat) (size : Z)
    (ok : bool) :
  In (u t) letters -> 0 < n t ->
  0 <= size -> size + value 1024 t <= max_int ->
  last_plain (render t ++ rest) ->
  Earlier.Parse_loop (S fuel) size ok (render t ++ rest)
  = Earlier.Parse_loop fuel (size + value 1024 t) true rest.
Proof.
  intros Hl Hn Hsize Hlt Hlast.
  destruct (Itoa_digits (n t) ltac:(lia)) as [Hd _].
  destruct (Itoa_first_plain (n t) ltac:(lia)) as (c & r & Hc & Hpl).
  destruct (multiplier_letter (Itoa (n t)) (u t) Hl) as [Hmul Hrank].
  assert (Htrim : TrimSpace (render t ++ rest) = render t ++ rest).
  { unfold render in *. rewrite Hc in *. cbn [append] in *.
    apply TrimSpace_plain; assumption. }
  assert (Hval : value 1024 t = n t * 2 ^ (10 * rank (u t))).
  { unfold value. rewrite Z.pow_mul_r by lia. reflexivity. }
  assert (H10 : 2 ^ 10 <= 2 ^ (10 * rank (u t)))
    by (apply Z.pow_le_mono_r; lia).
  assert (Hn53 : 0 < n t < 2 ^ 53).
  { split; [exact Hn|].
    assert (n t * 2 ^ 10 <= max_int).
    { apply Z.le_trans with (n t * 2 ^ (10 * rank (u t))); [|lia].
      apply Z.mul_le_mono_nonneg_l; lia. }
    unfold max_int in *. lia. }
  cbn [Earlier.Parse_loop]. rewrite Htrim.
  unfold Earlier.sizeRE. unfold render at 1. rewrite append_assoc.
  rewrite (sizeRE_term _ _ _ Hd (Itoa_nonempty _) Hl). cbn [m0 m1].
  rewrite (ParseFloat_Itoa _ Hn53), Hmul.
  rewrite mul_flt by lia.
  rewrite Z.mul_1_r, Z.add_0_l.
  rewrite to_int_flt; [|exact Hn53|lia|lia].
  rewrite <- Hval.
  rewrite wrap64_id by (unfold min_int; lia).
  fold (render t). rewrite drop_app. reflexivity.
Qed.

(** The rendered terms under [Parse]. *)
Lemma Parse_loop_terms (ts : list term) :
  forall (fuel : nat) (size : Z) (ok : bool),
    ts <> [] -> desc ts ->
    Forall (fun t => (u t = "" /\ 0 <= n t)
                     \/ (In (u t) letters /\ 0 < n t)) ts ->
    0 <= size -> size + total 1024 ts <= max_int ->
    (String.length (Join (map render ts) " ") < fuel)%nat ->
    Earlier.Parse_loop fuel size ok (Join (map render ts) " ")
    = (size + total 1024 ts, None).
Proof.
  assert (Hvalue : forall t, (u t = "" /\ 0 <= n t)
                             \/ (In (u t) letters /\ 0 < n t) ->
                             0 <= value 1024 t).
  { intros t H. unfold value.
    pose proof (pow_rank_pos 1024 ltac:(lia) (u t)).
    assert (0 <= n t) by (destruct H as [[_ H]|[_ H]]; lia).
    apply Z.mul_nonneg_nonneg; lia. }
  assert (Htotal : forall l, Forall (fun t => (u t = "" /\ 0 <= n t)
                               \/ (In (u t) letters /\ 0 < n t)) l ->
                             0 <= total 1024 l).
  { induction 1 as [|t l Ht _ IH]; simpl; [lia|].
    pose proof (Hvalue t Ht). lia. }
  induction ts as [|t ts IH]; intros fuel size ok Hne Hd Hf Hsize Hlt Hfuel;
    [congruence|].
  apply Forall_cons_iff in Hf as [Hw Hf].
  pose proof (Hvalue t Hw) as Hvt.
  pose proof (Htotal ts Hf) as Hts.
  change (total 1024 (t :: ts)) with (value 1024 t + total 1024 ts) in *.
  assert (Hall : Forall (fun t => 0 <= n t /\ In (u t) labels) (t :: ts)).
  { assert (Hone : forall t, (u t = "" /\ 0 <= n t)
                             \/ (In (u t) letters /\ 0 < n t) ->
                             0 <= n t /\ In (u t) labels).
    { intros t0 [[E H]|[Hl H]]; (split; [lia|]).
      - rewrite E. left; reflexivity.
      - cbn [In letters labels] in *. tauto. }
    constructor; [apply Hone; exact Hw|].
    eapply Forall_impl; [|exact Hf]. exact Hone. }
  pose proof (Join_last_plain (t :: ts) Hne Hall) as Hlast.
  destruct fuel as [|fuel]; [lia|].
  destruct Hw as [[Hu Hn]|[Hl Hn]].
  - assert (ts = []) as ->.
    { destruct ts as [|t' ts']; [reflexivity|]. exfalso.
      inversion Hd as [|? ? _ Hall']; subst.
      apply Forall_inv in Hall'. rewrite Hu in Hall'.
      pose proof (rank_range (u t')). change (rank "") with 0 in Hall'. lia. }
    cbn [map Join] in *. unfold render in *. rewrite Hu, append_empty_r in *.
    destruct (Itoa_digits (n t) Hn) as [Hdig _].
    destruct (Itoa_first_plain (n t) Hn) as (c & r & Hc & Hpl).
    assert (Htrim : TrimSpace (Itoa (n t)) = Itoa (n t)).
    { rewrite Hc in *. apply TrimSpace_plain; assumption. }
    cbn [Earlier.Parse_loop]. unfold Earlier.sizeRE.
    rewrite !Htrim, (sizeRE_digits _ Hdig).
    rewrite Hc at 1. cbn [String.eqb negb].
    rewrite Atoi_Itoa by (unfold value in *; rewrite Hu in *;
                          change (rank "") with 0 in *; lia).
    unfold value. rewrite Hu. change (1024 ^ rank "") with 1.
    cbn [total fold_right] in *.
    rewrite wrap64_id by (unfold min_int; unfold value in *; rewrite Hu in *;
                          change (rank "") with 0 in *; lia).
    f_equal. lia.
  - destruct ts as [|t' ts'].
    + cbn [map Join] in *. change (total 1024 []) with 0 in *.
      rewrite <- (append_empty_r (render t)) in Hlast |- *.
      rewrite Parse_loop_term; try assumption; [|lia].
      rewrite Parse_loop_end. f_equal. lia.
    + cbn [map] in *. rewrite Join_cons in * by discriminate.
      rewrite Parse_loop_term; try assumption; [|lia].
      rewrite (Parse_loop_trim _ _ _ _ (Join (render t' :: map render ts') " "))
        by reflexivity.
      inversion Hd; subst.
      rewrite (IH fuel (size + value 1024 t) true); try assumption;
        try discriminate; try lia.
      * f_equal. lia.
      * rewrite (length_append (render t)), (length_append " ") in Hfuel.
        change (String.length " ") with 1%nat in Hfuel. lia.
Qed.

Lemma Parse_negative (p : positive) :
  min_int <= Z.neg p -> Earlier.Parse (Itoa (Z.neg p)) = (Z.neg p, None).
Proof.
  intro Hv.
  destruct (Itoa_digits (Z.pos p) ltac:(lia)) as [Hd Hval].
  pose proof (Itoa_nonempty (Z.pos p)) as Hne.
  rewrite Itoa_neg.
  assert (Htrim : TrimSpace (String "-" (Itoa (Z.pos p)))
                  = String "-" (Itoa (Z.pos p))).
  { apply TrimSpace_plain; [exact minus_plain|].
    change (String "-" (Itoa (Z.pos p))) with ("-" ++ Itoa (Z.pos p)).
    apply last_plain_app, digits_last_plain; assumption. }
  unfold Earlier.Parse. cbn [Earlier.Parse_loop]. unfold Earlier.sizeRE.
  rewrite !Htrim.
  change (Regexp.sizeRE (String "-" (Itoa (Z.pos p)))) with (@None submatch).
  cbn [String.eqb negb]. rewrite (Atoi_minus _ Hd Hne), Hval.
  unfold in_int.
  replace (min_int <=? - Z.pos p) with true by (symmetry; apply Z.leb_le; lia).
  replace (- Z.pos p <=? max_int) with true
    by (symmetry; apply Z.leb_le; unfold max_int; lia).
  cbn [andb Z.add]. rewrite wrap64_id by (unfold max_int; lia). reflexivity.
Qed.

(** X23.  The round trip of the first copy holds for every [int]: [Parse]
    reads what [Unparse] renders of it back as the same number, and so does
    [Set] on what [String] renders. *)
Theorem earlier_round_trip (v w : Z) :
  min_int <= v <= max_int ->
  Earlier.Parse (Earlier.Unparse v) = (v, None)
  /\ Earlier.Value_Set w (Earlier.Value_String v) = (v, None).
Proof.
  intro Hv.
  assert (H : Earlier.Parse (Earlier.Unparse v) = (v, None)).
  { destruct (Z.lt_ge_cases v 0) as [Hneg|Hpos].
    - rewrite <- (Unparse_below_E v) by lia.
      rewrite (unparse_below_pow v 1024 mult2) by (tauto || lia).
      destruct v as [|p|p]; try lia. apply Parse_negative; lia.
    - destruct (Unparse_terms_inv v ltac:(lia)) as (Ht & Hd & Hne & Hf).
      unfold Earlier.Parse, Earlier.Unparse.
      rewrite (Parse_loop_terms (Earlier.Unparse_terms v)); try assumption;
        try lia.
      f_equal. lia. }
  split; [exact H|].
  unfold Earlier.Value_Set, Earlier.Value_String. rewrite H. reflexivity.
Qed.

Lemma earlier_round_trip_witness :
  Earlier.Unparse max_int = "8191P 1023T 1023G 1023M 1048575"
  /\ Earlier.Parse (Earlier.Unparse max_int) = (max_int, None)
  /\ Earlier.Value_Set 0 (Earlier.Value_String max_int) = (max_int, None).
Proof.
  split; [vm_compute; reflexivity|].
  apply (earlier_round_trip max_int 0). vm_compute. split; discriminate.
Defined.

(** ** Properties of [enumflag] *)

Module EnumflagProps.

Import Enumflag.

Lemma first_index_Some (p : string -> bool) (l : list string) :
  forall i, first_index p l = Some i ->
    (exists x, nth_error l i = Some x /\ p x = true)
    /\ forall j y, (j < i)%nat -> nth_error l j = Some y -> p y = false.
Proof.
  induction l as [|x l IH]; intros i; cbn [first_index]; [discriminate|].
  destruct (p x) eqn:Hx.
  - intros [= <-]. split; [exists x; split; [reflexivity | exact Hx]|].
    intros j y Hj. lia.
  - destruct (first_index p l) as [k|]; [|discriminate].
    intros [= <-]. destruct (IH k eq_refl) as [Hk Hbefore].
    split; [exact Hk|].
    intros [|j] y Hj; cbn [nth_error].
    + intros [= <-]. exact Hx.
    + apply Hbefore. lia.
Qed.

Lemma first_index_None (p : string -> bool) (l : list string) :
  first_index p l = None <-> forall x, In x l -> p x = false.
Proof.
  induction l as [|x l IH]; cbn [first_index].
  - split; [intros _ y [] | reflexivity].
  - destruct (p x) eqn:Hx.
    + split; [discriminate|]. intro H. rewrite (H x (or_introl eq_refl)) in Hx.
      discriminate.
    + destruct (first_index p l) as [k|].
      * split; [discriminate|]. intro H.
        assert (Hk : Some k = None)
          by (apply IH; intros y Hy; apply H; right; exact Hy).
        discriminate.
      * split; [|reflexivity]. intros _ y [<-|Hy]; [exact Hx|].
        apply (proj1 IH eq_refl); exact Hy.
Qed.

Lemma insert_perm (x : string) (l : list string) : Permutation (x :: l) (insert x l).
Proof.
  induction l as [|y l IH]; cbn [insert]; [reflexivity|].
  destruct (String.leb x y); [reflexivity|].
  rewrite perm_swap. constructor. exact IH.
Qed.

Lemma sort_perm (l : list string) : Permutation l (sort_Strings l).
Proof.
  induction l as [|x l IH]; cbn [sort_Strings]; [constructor|].
  rewrite <- insert_perm. constructor. exact IH.
Qed.

Lemma insert_ascending (x : string) (l : list string) :
  ascending l -> ascending (insert x l).
Proof.
  unfold ascending. induction l as [|y l IH]; intro H; cbn [insert].
  - repeat constructor.
  - destruct (String.leb x y) eqn:Hxy.
    + constructor; [exact H | constructor; exact Hxy].
    + inversion H as [|? ? Hs Hhd]; subst.
      constructor; [apply IH; exact Hs|].
      assert (Hyx : String.leb y x = true)
        by (destruct (String.leb_total x y); congruence).
      destruct l as [|z l]; cbn [insert].
      * constructor; exact Hyx.
      * destruct (String.leb x z); constructor; [exact Hyx|].
        inversion Hhd; assumption.
Qed.

Lemma sort_ascending (l : list string) : ascending (sort_Strings l).
Proof.
  induction l as [|x l IH]; cbn [sort_Strings]; [constructor|].
  apply insert_ascending; exact IH.
Qed.

Lemma New_keys_and_index (defaultKey : string) (otherKeys : list string) :
  let v := New defaultKey otherKeys in
  Permutation (otherKeys ++ [defaultKey])%list (keys v)
  /\ ascending (keys v)
  /\ Key v = Some defaultKey
  /\ forall j y, (j < Index v)%nat -> nth_error (keys v) j = Some y ->
                 y <> defaultKey.
Proof.
  cbn zeta. unfold New, Key, Index. cbn [keys index].
  set (ks := sort_Strings (otherKeys ++ [defaultKey])%list).
  assert (Hperm : Permutation (otherKeys ++ [defaultKey])%list ks)
    by apply sort_perm.
  assert (Hin : In defaultKey ks).
  { apply (Permutation_in _ Hperm), in_or_app. right; left; reflexivity. }
  split; [exact Hperm|]. split; [apply sort_ascending|].
  destruct (first_index (fun key => String.eqb key defaultKey) ks) as [i|] eqn:Hi.
  - destruct (first_index_Some _ _ _ Hi) as [(x & Hx & Hp) Hbefore].
    apply String.eqb_eq in Hp. subst x.
    split.
    + destruct ks; [contradiction | exact Hx].
    + intros j y Hj Hy E. specialize (Hbefore j y Hj Hy).
      apply String.eqb_neq in Hbefore. contradiction.
  - exfalso. apply first_index_None with (x := defaultKey) in Hi; [|exact Hin].
    rewrite String.eqb_refl in Hi. discriminate.
Qed.

(** X18.  The keys of a new value are the given keys with the default one, in
    ascending order, and the selected key is the default one, at the first
    place it has among them. *)
Theorem New_default (defaultKey : string) (otherKeys : list string) :
  let v := New defaultKey otherKeys in
  Permutation (otherKeys ++ [defaultKey])%list (keys v)
  /\ ascending (keys v)
  /\ Key v = Some defaultKey
  /\ forall j y, (j < Index v)%nat -> nth_error (keys v) j = Some y ->
                 y <> defaultKey.
Proof. exact (New_keys_and_index defaultKey otherKeys). Qed.

Lemma New_default_witness :
  New "auto" ["on"; "off"] = {| keys := ["auto"; "off"; "on"]; index := 0 |}
  /\ Key (New "auto" ["on"; "off"]) = Some "auto".
Proof.
  split; [reflexivity|].
  exact (proj1 (proj2 (proj2 (New_default "auto" ["on"; "off"])))).
Defined.

Section Fold.

Variable EqualFold : string -> string -> bool.

(** X19.  [Set] succeeds exactly when a key equals the text under folding; it
    then selects the first such key and keeps the keys; when no key does, it
    returns an error and leaves the value as it was. *)
Theorem Set_first_match (v : Value) (s : string) :
  (forall v', Value_Set EqualFold v s = (v', None) ->
     keys v' = keys v
     /\ (exists key, nth_error (keys v) (index v') = Some key
                     /\ Key v' = Some key /\ EqualFold s key = true)
     /\ forall j y, (j < index v')%nat -> nth_error (keys v) j = Some y ->
                    EqualFold s y = false)
  /\ (forall v' e, Value_Set EqualFold v s = (v', Some e) ->
        v' = v /\ forall key, In key (keys v) -> EqualFold s key = false)
  /\ ((exists key, In key (keys v) /\ EqualFold s key = true) <->
      snd (Value_Set EqualFold v s) = None).
Proof.
  unfold Value_Set.
  destruct (first_index (fun key => EqualFold s key) (keys v)) as [i|] eqn:Hi.
  - destruct (first_index_Some _ _ _ Hi) as [(x & Hx & Hp) Hbefore].
    split; [|split].
    + intros v' [= <-]. cbn [keys index]. split; [reflexivity|].
      split; [|exact Hbefore].
      exists x. unfold Key. cbn [keys index].
      repeat split; try assumption.
      destruct (keys v); [destruct i; discriminate | exact Hx].
    + intros v' e [=].
    + cbn [snd]. split; [reflexivity|]. intros _. exists x.
      split; [apply (nth_error_In _ _ Hx) | exact Hp].
  - pose proof (proj1 (first_index_None _ _) Hi) as Hnone.
    split; [|split].
    + intros v' [=].
    + intros v' e [= <- _]. split; [reflexivity | exact Hnone].
    + cbn [snd]. split; [|discriminate].
      intros (key & Hin & Hk). rewrite (Hnone key Hin) in Hk. discriminate.
Qed.

Lemma valid_Key (v : Value) :
  valid v -> exists key, Key v = Some key /\ In key (keys v).
Proof.
  unfold valid, Key. intro H.
  destruct (nth_error (keys v) (index v)) as [key|] eqn:Hn;
    [|apply nth_error_None in Hn; lia].
  exists key. split; [|apply (nth_error_In _ _ Hn)].
  destruct (keys v); [simpl in H; lia | reflexivity].
Qed.

(** X20.  A new value has a key, and whatever texts are [Set] afterwards,
    [Key] returns one of the keys given to [New]: the index is never out of
    range. *)
Theorem Key_in_range (defaultKey : string) (otherKeys texts : list string) :
  let v := fold_left (fun v s => fst (Value_Set EqualFold v s)) texts
             (New defaultKey otherKeys) in
  keys v = keys (New defaultKey otherKeys)
  /\ exists key, Key v = Some key
                 /\ In key (otherKeys ++ [defaultKey])%list.
Proof.
  cbn zeta.
  assert (Hgen : forall v,
    valid v ->
    let v' := fold_left (fun v s => fst (Value_Set EqualFold v s)) texts v in
    keys v' = keys v /\ valid v').
  { induction texts as [|s texts IH]; intros v Hv; cbn [fold_left]; [tauto|].
    assert (Hstep : keys (fst (Value_Set EqualFold v s)) = keys v
                    /\ valid (fst (Value_Set EqualFold v s))).
    { unfold Value_Set.
      destruct (first_index (fun key => EqualFold s key) (keys v)) as [i|] eqn:Hi;
        cbn [fst]; [|tauto].
      split; [reflexivity|]. unfold valid. cbn [keys index].
      destruct (first_index_Some _ _ _ Hi) as [(x & Hx & _) _].
      apply nth_error_Some. congruence. }
    destruct Hstep as [Hk Hval].
    destruct (IH _ Hval) as [Hk' Hval'].
    split; [congruence | exact Hval']. }
  destruct (New_keys_and_index defaultKey otherKeys) as (Hperm & _ & Hkey & _).
  assert (Hvalid : valid (New defaultKey otherKeys)).
  { unfold valid, Key in *.
    destruct (keys (New defaultKey otherKeys)) eqn:E.
    - apply Permutation_sym, Permutation_nil in Hperm.
      destruct otherKeys; discriminate.
    - apply nth_error_Some. congruence. }
  destruct (Hgen _ Hvalid) as [Hk Hval].
  split; [exact Hk|].
  destruct (valid_Key _ Hval) as (key & Hkey' & Hin).
  exists key. split; [exact Hkey'|].
  apply (Permutation_in _ (Permutation_sym Hperm)).
  rewrite <- Hk. exact Hin.
Qed.

End Fold.

Lemma Set_first_match_witness :
  Value_Set EqualFold_ascii (New "auto" ["on"; "off"]) "OFF"
  = ({| keys := ["auto"; "off"; "on"]; index := 1 |}, None)
  /\ snd (Value_Set EqualFold_ascii (New "auto" ["on"; "off"]) "OFF") = None
  /\ snd (Value_Set EqualFold_ascii (New "auto" ["on"; "off"]) "of") <> None.
Proof.
  split; [reflexivity|]. split.
  - apply (proj2 (proj2 (Set_first_match EqualFold_ascii
                           (New "auto" ["on"; "off"]) "OFF"))).
    exists "off". split; [right; left; reflexivity | reflexivity].
  - intro H.
    apply (proj2 (proj2 (Set_first_match EqualFold_ascii
                           (New "auto" ["on"; "off"]) "of"))) in H.
    destruct H as (key & [<-|[<-|[<-|[]]]] & Hk); discriminate.
Defined.

End EnumflagProps.
